(** * libcucul: attribute management and colourspace conversions

    A shallow embedding of the attribute functions of libcucul
    (cucul_get_attr, cucul_set_attr, cucul_putattr, cucul_set_color_ansi,
    cucul_set_color_argb, cucul_attr_to_ansi_fg/bg, nearest_ansi,
    _cucul_attr_to_rgb12fg/bg, _cucul_attr_to_argb4) and the properties of
    the canvas attribute model that hold, or fail, on them.

    C integers are modelled as [Z] with the conversions written out;
    the platform is LP64 (unsigned long is 64 bits wide, int is 32).
    Arrays are lists read with stdpp's lookup: a read outside the array
    is undefined in C and makes the model return [None]. *)

From Stdlib Require Import ZArith Lia List Bool Ascii.
From stdpp Require Import base option list.

Local Open Scope Z_scope.

(** ** Machine integers *)

Definition to_uint8 (z : Z) : Z := z mod 2 ^ 8.
Definition to_uint16 (z : Z) : Z := z mod 2 ^ 16.
Definition to_uint32 (z : Z) : Z := z mod 2 ^ 32.

(** Conversion of an unsigned 32-bit value to int (two's complement). *)
Definition to_int (z : Z) : Z :=
  let u := to_uint32 z in
  if u <? 2 ^ 31 then u else u - 2 ^ 32.

Definition sizeof_unsigned_long : Z := 8.
Definition sizeof_uint32_t : Z := 4.

(** ** Constants of the headers

    cucul.h, cucul_internals.h and errno.h are not part of the verified
    sources: the constants the functions take from them are parameters of
    the model. *)

Class headers := {
  CUCUL_BLACK : Z;
  CUCUL_LIGHTGRAY : Z;
  CUCUL_DEFAULT : Z;
  CUCUL_TRANSPARENT : Z;
  CUCUL_MAGIC_FULLWIDTH : Z;
  EINVAL : Z
}.

(** The values libcucul's headers give these constants (EINVAL as on
    Linux); the model is evaluated with them on concrete inputs. *)
Definition libcucul_headers : headers := {|
  CUCUL_BLACK := 0x00;
  CUCUL_LIGHTGRAY := 0x07;
  CUCUL_DEFAULT := 0x10;
  CUCUL_TRANSPARENT := 0x20;
  CUCUL_MAGIC_FULLWIDTH := 0x000ffffe;
  EINVAL := 22
|}.

(** ** The canvas *)

(** The fields of struct cucul_canvas the attribute functions use. *)
Record cucul_canvas_t := {
  width : Z;
  height : Z;
  chars : list Z;
  attrs : list Z;
  curattr : Z
}.

(** The state a call works on: the canvas and the C library's errno. *)
Record state := {
  st_cv : cucul_canvas_t;
  st_errno : Z
}.

Definition set_errno (e : Z) (s : state) : state :=
  {| st_cv := st_cv s; st_errno := e |}.

Definition set_curattr (a : Z) (s : state) : state :=
  {| st_cv := {| width := width (st_cv s); height := height (st_cv s);
                 chars := chars (st_cv s); attrs := attrs (st_cv s);
                 curattr := a |};
     st_errno := st_errno s |}.

Definition set_attrs (l : list Z) (s : state) : state :=
  {| st_cv := {| width := width (st_cv s); height := height (st_cv s);
                 chars := chars (st_cv s); attrs := l;
                 curattr := curattr (st_cv s) |};
     st_errno := st_errno s |}.

(** Element [i] of an array; [None] when [i] is outside of it. *)
Definition array_get (l : list Z) (i : Z) : option Z :=
  if i <? 0 then None else l !! Z.to_nat i.

(** The array [l] with [v] in cell [i]. The functions below store through
    [array_store], which checks the index, or at an index where a checked
    store has succeeded. *)
Definition array_set (l : list Z) (i : Z) (v : Z) : list Z :=
  <[Z.to_nat i := v]> l.

(** [l[i] = v]: a store outside the array is undefined in C and makes the
    model return [None]. *)
Definition array_store (l : list Z) (i v : Z) : option (list Z) :=
  if (0 <=? i) && (i <? Z.of_nat (length l)) then Some (array_set l i v) else None.

(** The canvas is as cucul_create_canvas and cucul_set_canvas_size leave
    it: both arrays hold width * height 32-bit cells. *)
Definition canvas_ok (cv : cucul_canvas_t) : Prop :=
  0 < width cv < 2 ^ 31 /\ 0 < height cv < 2 ^ 31 /\
  width cv * height cv < 2 ^ 32 /\
  Z.of_nat (length (chars cv)) = width cv * height cv /\
  Z.of_nat (length (attrs cv)) = width cv * height cv.

(** width and height are unsigned ints. *)
Definition canvas_typed (cv : cucul_canvas_t) : Prop :=
  0 <= width cv < 2 ^ 32 /\ 0 <= height cv < 2 ^ 32.

Definition in_bounds (cv : cucul_canvas_t) (x y : Z) : Prop :=
  0 <= x < width cv /\ 0 <= y < height cv.



(** The two 14-bit colour fields of a packed attribute. *)
Definition fg_field (attr : Z) : Z := Z.land (Z.shiftr attr 4) 0x3fff.
Definition bg_field (attr : Z) : Z := Z.land (Z.shiftr attr 18) 0x3fff.

Section Attr.
Context `{H : headers}.

(** ** cucul_get_attr *)

Definition out_of_canvas (cv : cucul_canvas_t) (x y : Z) : bool :=
  (x <? 0) || (x >=? to_int (width cv)) || (y <? 0) || (y >=? to_int (height cv)).

Definition cucul_get_attr (cv : cucul_canvas_t) (x y : Z) : option Z :=
  if out_of_canvas cv x y then Some (curattr cv)
  else array_get (attrs cv) (to_uint32 (x + y * width cv)).

(** ** cucul_set_attr *)

Definition attr_too_large (attr : Z) : bool :=
  (sizeof_unsigned_long >? sizeof_uint32_t) && (attr >? 0xffffffff).

Definition cucul_set_attr (s : state) (attr : Z) : Z * state :=
  if attr_too_large attr then (-1, set_errno EINVAL s)
  else
    let attr :=
      if attr <? 0x00000010
      then Z.lor (Z.land (curattr (st_cv s)) 0xfffffff0) attr
      else attr in
    (0, set_curattr (to_uint32 attr) s).

(** ** cucul_putattr *)

(** [a && b] of C, where evaluating [b] reads memory: [b] is evaluated
    only when [a] holds. *)
Definition and_then (a : bool) (b : option bool) : option bool :=
  if a then b else Some false.

Definition is_fullwidth_marker (l : list Z) (i : Z) : option bool :=
  c ← array_get l i; Some (c =? CUCUL_MAGIC_FULLWIDTH).

Definition cucul_putattr (s : state) (x y attr : Z) : option (Z * state) :=
  let cv := st_cv s in
  if attr_too_large attr then Some (-1, set_errno EINVAL s)
  else if out_of_canvas cv x y then Some (0, s)
  else
    (* curchar = cv->chars + p, curattr = cv->attrs + p *)
    let p := x + to_uint32 (y * width cv) in
    a0 ← array_get (attrs cv) p;
    attrs1 ← (if a0 <? 0x00000010
              then array_store (attrs cv) p
                     (Z.lor (Z.land (curattr cv) 0xfffffff0) a0)
              else Some (attrs cv));
    a1 ← array_get attrs1 p;
    left ← and_then (negb (x =? 0)) (is_fullwidth_marker (chars cv) p);
    if left : bool
    then
      (* curattr[-1] = curattr[0] *)
      attrs2 ← array_store attrs1 (p - 1) a1;
      Some (0, set_attrs attrs2 s)
    else
      right ← and_then (x + 1 <? to_int (width cv))
                       (is_fullwidth_marker (chars cv) (p + 1));
      if right : bool
      then
        (* curattr[1] = curattr[0] *)
        attrs2 ← array_store attrs1 (p + 1) a1;
        Some (0, set_attrs attrs2 s)
      else Some (0, set_attrs attrs1 s).

(** The attribute cucul_putattr leaves in the target cell: the cell's own
    attribute, with the colours of the current attribute when the cell
    had none. The [attr] argument does not enter it. *)
Definition putattr_cell (cv : cucul_canvas_t) (a0 : Z) : Z :=
  if a0 <? 0x00000010
  then Z.lor (Z.land (curattr cv) 0xfffffff0) a0
  else a0.

(** The neighbour cucul_putattr copies the attribute to, if any. *)
Definition putattr_neighbour (cv : cucul_canvas_t) (x p : Z) : option Z :=
  if negb (x =? 0)
     && bool_decide (array_get (chars cv) p = Some CUCUL_MAGIC_FULLWIDTH)
  then Some (p - 1)
  else if (x + 1 <? width cv)
          && bool_decide (array_get (chars cv) (p + 1) = Some CUCUL_MAGIC_FULLWIDTH)
  then Some (p + 1)
  else None.

(** ** cucul_set_color_ansi *)

Definition cucul_set_color_ansi (s : state) (fg bg : Z) : Z * state :=
  if (fg >? 0x20) || (bg >? 0x20) then (-1, set_errno EINVAL s)
  else
    let attr := Z.lor (to_uint32 (Z.shiftl (Z.lor bg 0x40) 18))
                      (to_uint32 (Z.shiftl (Z.lor fg 0x40) 4)) in
    (0, set_curattr (Z.lor (Z.land (curattr (st_cv s)) 0x0000000f) attr) s).

(** The attribute cucul_set_color_ansi builds over the style bits [st]. *)
Definition ansi_attr (st fg bg : Z) : Z :=
  Z.lor st (Z.lor (to_uint32 (Z.shiftl (Z.lor bg 0x40) 18))
                  (to_uint32 (Z.shiftl (Z.lor fg 0x40) 4))).

Definition ansi_fields_ok (st fg bg : Z) : bool :=
  (to_uint16 (Z.land (Z.shiftr (to_uint16 (ansi_attr st fg bg)) 4) 0x3fff)
   =? Z.lor fg 0x40)
  && (to_uint16 (Z.shiftr (ansi_attr st fg bg) 18) =? Z.lor bg 0x40).

(** ** cucul_set_color_argb *)

Definition argb16_to_14 (c : Z) : Z :=
  Z.lor (Z.land (Z.shiftr c 1) 0x7ff) (Z.shiftl (Z.shiftr c 13) 11).

Definition cucul_set_color_argb (s : state) (fg bg : Z) : Z * state :=
  if (fg >? 0xffff) || (bg >? 0xffff) then (-1, set_errno EINVAL s)
  else
    let fg := if fg <? 0x100 then to_uint32 (fg + 0x100) else fg in
    let bg := if bg <? 0x100 then to_uint32 (bg + 0x100) else bg in
    let fg := argb16_to_14 fg in
    let bg := argb16_to_14 bg in
    let attr := Z.lor (to_uint32 (Z.shiftl bg 18)) (to_uint32 (Z.shiftl fg 4)) in
    (0, set_curattr (Z.lor (Z.land (curattr (st_cv s)) 0x0000000f) attr) s).

(** ** The ANSI palette *)

Definition ansitab16 : list Z :=
  [ 0xf000; 0xf00a; 0xf0a0; 0xf0aa; 0xfa00; 0xfa0a; 0xfa50; 0xfaaa;
    0xf555; 0xf55f; 0xf5f5; 0xf5ff; 0xff55; 0xff5f; 0xfff5; 0xffff ].

Definition ansitab14 : list Z :=
  [ 0x3800; 0x3805; 0x3850; 0x3855; 0x3d00; 0x3d05; 0x3d28; 0x3d55;
    0x3aaa; 0x3aaf; 0x3afa; 0x3aff; 0x3faa; 0x3faf; 0x3ffa; 0x3fff ].

(** ** nearest_ansi *)

(** The body of the loop up to the comparison: the distance [d] between
    palette entry [t] and [argb14]. [d] is an unsigned int, [a] and [b]
    are ints. *)
Definition ansi_distance (t argb14 : Z) : Z :=
  let d := 0 in
  let a := Z.land (Z.shiftr t 7) 0xf in
  let b := Z.land (Z.shiftr argb14 7) 0xf in
  let d := to_uint32 (d + (a - b) * (a - b)) in
  let a := Z.land (Z.shiftr t 3) 0xf in
  let b := Z.land (Z.shiftr argb14 3) 0xf in
  let d := to_uint32 (d + (a - b) * (a - b)) in
  let a := Z.land (Z.shiftl t 1) 0xf in
  let b := Z.land (Z.shiftl argb14 1) 0xf in
  let d := to_uint32 (d + (a - b) * (a - b)) in
  d.

(** The distance iteration [i] of the loop computes, from ansitab14[i]. *)
Definition entry_distance (argb14 i : Z) : Z :=
  ansi_distance (nth (Z.to_nat i) ansitab14 0) argb14.

(** One iteration of the loop on the pair (best, dist). *)
Definition nearest_step (argb14 : Z) (st : Z * Z) (i : Z) : Z * Z :=
  let d := entry_distance argb14 i in
  if d <? snd st then (i, d) else st.

(** The loop [for(i = 0; i < 16; i++)] run over the indices [ixs]. *)
Definition nearest_scan (argb14 : Z) (ixs : list Z) (st : Z * Z) : Z * Z :=
  fold_left (nearest_step argb14) ixs st.

Definition palette_indices : list Z := map Z.of_nat (seq 0 16).

Definition nearest_ansi (argb14 : Z) : Z :=
  if argb14 <? Z.lor 0x10 0x40
  then to_uint8 (Z.lxor argb14 0x40)
  else if (argb14 =? Z.lor CUCUL_DEFAULT 0x40)
          || (argb14 =? Z.lor CUCUL_TRANSPARENT 0x40)
  then to_uint8 (Z.lxor argb14 0x40)
  else if argb14 <? 0x0fff
  then to_uint8 CUCUL_TRANSPARENT
  else
    to_uint8 (fst (nearest_scan argb14 palette_indices (CUCUL_DEFAULT, 0x3fff))).

(** ** cucul_attr_to_ansi_fg, cucul_attr_to_ansi_bg *)

Definition cucul_attr_to_ansi_fg (attr : Z) : Z :=
  nearest_ansi (to_uint16 (Z.land (Z.shiftr (to_uint16 attr) 4) 0x3fff)).

Definition cucul_attr_to_ansi_bg (attr : Z) : Z :=
  nearest_ansi (to_uint16 (Z.shiftr attr 18)).

(** ** _cucul_attr_to_ansi8 *)

Definition _cucul_attr_to_ansi8 (attr : Z) : Z :=
  let fg := nearest_ansi (to_uint16 (Z.land (Z.shiftr attr 4) 0x3fff)) in
  let bg := nearest_ansi (to_uint16 (Z.shiftr attr 18)) in
  let fg := if (fg =? CUCUL_DEFAULT) || (fg =? CUCUL_TRANSPARENT)
            then to_uint8 CUCUL_LIGHTGRAY else fg in
  let bg := if (bg =? CUCUL_DEFAULT) || (bg =? CUCUL_TRANSPARENT)
            then to_uint8 CUCUL_BLACK else bg in
  to_uint8 (Z.lor fg (Z.shiftl bg 4)).

(** ** _cucul_attr_to_rgb12fg, _cucul_attr_to_rgb12bg *)

Definition _cucul_attr_to_rgb12fg (attr : Z) : option Z :=
  let fg := to_uint16 (Z.land (Z.shiftr attr 4) 0x3fff) in
  if fg <? Z.lor 0x10 0x40
  then t ← array_get ansitab16 (Z.lxor fg 0x40); Some (Z.land t 0x0fff)
  else if fg =? Z.lor CUCUL_DEFAULT 0x40
  then t ← array_get ansitab16 CUCUL_LIGHTGRAY; Some (Z.land t 0x0fff)
  else if fg =? Z.lor CUCUL_TRANSPARENT 0x40
  then t ← array_get ansitab16 CUCUL_LIGHTGRAY; Some (Z.land t 0x0fff)
  else Some (to_uint16 (Z.land (Z.shiftl fg 1) 0x0fff)).

Definition _cucul_attr_to_rgb12bg (attr : Z) : option Z :=
  let bg := to_uint16 (Z.shiftr attr 18) in
  if bg <? Z.lor 0x10 0x40
  then t ← array_get ansitab16 (Z.lxor bg 0x40); Some (Z.land t 0x0fff)
  else if bg =? Z.lor CUCUL_DEFAULT 0x40
  then t ← array_get ansitab16 CUCUL_BLACK; Some (Z.land t 0x0fff)
  else if bg =? Z.lor CUCUL_TRANSPARENT 0x40
  then t ← array_get ansitab16 CUCUL_BLACK; Some (Z.land t 0x0fff)
  else Some (to_uint16 (Z.land (Z.shiftl bg 1) 0x0fff)).

(** ** RGB12TO24, _cucul_attr_to_rgb24fg, _cucul_attr_to_rgb24bg *)

Definition RGB12TO24 (i : Z) : Z :=
  Z.lor
    (Z.lor (to_uint32 (to_uint32 (Z.shiftr (Z.land i 0xf00) 8) * 0x110000))
           (to_uint32 (to_uint32 (Z.shiftr (Z.land i 0x0f0) 4) * 0x001100)))
    (to_uint32 (to_uint32 (Z.land i 0x00f) * 0x000011)).

Definition _cucul_attr_to_rgb24fg (attr : Z) : option Z :=
  c ← _cucul_attr_to_rgb12fg attr; Some (RGB12TO24 c).

Definition _cucul_attr_to_rgb24bg (attr : Z) : option Z :=
  c ← _cucul_attr_to_rgb12bg attr; Some (RGB12TO24 c).

(** ** _cucul_attr_to_argb4 *)

(** The four stores of a 16-bit colour into uint8_t cells. *)
Definition argb_nibbles (c : Z) : list Z :=
  [ to_uint8 (Z.shiftr c 12);
    to_uint8 (Z.land (Z.shiftr c 8) 0xf);
    to_uint8 (Z.land (Z.shiftr c 4) 0xf);
    to_uint8 (Z.land c 0xf) ].

Definition argb14_to_16 (c : Z) : Z :=
  to_uint16 (Z.lor (Z.land (Z.shiftl c 2) 0xf000) (Z.land (Z.shiftl c 1) 0x0fff)).

(** The eight cells of argb[] after the call; every cell is written, so
    the array's previous contents do not matter. *)
Definition _cucul_attr_to_argb4 (attr : Z) : option (list Z) :=
  let fg := to_uint16 (Z.land (Z.shiftr attr 4) 0x3fff) in
  let bg := to_uint16 (Z.shiftr attr 18) in
  bg ← (if bg <? Z.lor 0x10 0x40
        then array_get ansitab16 (Z.lxor bg 0x40)
        else if bg =? Z.lor CUCUL_DEFAULT 0x40
        then array_get ansitab16 CUCUL_BLACK
        else if bg =? Z.lor CUCUL_TRANSPARENT 0x40
        then Some 0x0fff
        else Some (argb14_to_16 bg));
  fg ← (if fg <? Z.lor 0x10 0x40
        then array_get ansitab16 (Z.lxor fg 0x40)
        else if fg =? Z.lor CUCUL_DEFAULT 0x40
        then array_get ansitab16 CUCUL_LIGHTGRAY
        else if fg =? Z.lor CUCUL_TRANSPARENT 0x40
        then Some 0x0fff
        else Some (argb14_to_16 fg));
  Some (argb_nibbles bg ++ argb_nibbles fg).

(** ** Statements about the quantizer and the ARGB4 conversion *)

(** The inputs nearest_ansi sends to the transparent colour by its
    too-transparent test: those that reach the test and pass it. *)
Definition too_transparent (argb14 : Z) : bool :=
  negb (argb14 <? Z.lor 0x10 0x40)
  && negb ((argb14 =? Z.lor CUCUL_DEFAULT 0x40)
           || (argb14 =? Z.lor CUCUL_TRANSPARENT 0x40))
  && (argb14 <? 0x0fff).

(** The channels of a 14-bit colour that the distance compares: bits 7
    to 10, bits 3 to 6, and the three lowest bits shifted left by one. *)
Definition channel_7_10 (c : Z) : Z := (c / 2 ^ 7) mod 2 ^ 4.
Definition channel_3_6 (c : Z) : Z := (c / 2 ^ 3) mod 2 ^ 4.
Definition channel_low3 (c : Z) : Z := (c mod 2 ^ 3) * 2.

(** The third channel read as the lowest bit alone, shifted left by one. *)
Definition channel_low1 (c : Z) : Z := (c mod 2) * 2.

(** Sum of the squared channel differences, for a choice of third channel. *)
Definition squared_distance (low : Z -> Z) (t c : Z) : Z :=
  (channel_7_10 t - channel_7_10 c) ^ 2
  + (channel_3_6 t - channel_3_6 c) ^ 2
  + (low t - low c) ^ 2.

Definition palette14 (i : Z) : Z := nth (Z.to_nat i) ansitab14 0.
Definition palette16 (i : Z) : Z := nth (Z.to_nat i) ansitab16 0.

(** [i] is the palette index nearest to [c]: it minimizes the distance,
    and no index below it does. *)
Definition nearest_index (low : Z -> Z) (c i : Z) : Prop :=
  0 <= i < 16 /\
  (forall j, 0 <= j < 16 ->
     squared_distance low (palette14 i) c <= squared_distance low (palette14 j) c) /\
  (forall j, 0 <= j < i ->
     squared_distance low (palette14 i) c < squared_distance low (palette14 j) c).

(** A 16-bit ARGB colour as four nibbles, most significant first. *)
Definition nibbles_msb_first (c : Z) : list Z :=
  [ c / 2 ^ 12 mod 2 ^ 4; c / 2 ^ 8 mod 2 ^ 4; c / 2 ^ 4 mod 2 ^ 4; c mod 2 ^ 4 ].

Definition truecolor_argb16 (v : Z) : Z :=
  Z.lor (Z.land (Z.shiftl v 2) 0xf000) (Z.land (Z.shiftl v 1) 0x0fff).

(** The ARGB4 colour of a 14-bit field [v]: a raw palette value goes
    through the palette, the default colour resolves to entry [dflt] of
    the palette, the transparent colour to [transp], anything else is
    up-converted. *)
Definition argb4_colour (dflt transp v : Z) : Z :=
  if v <? 0x50 then palette16 (v - 0x40)
  else if v =? Z.lor CUCUL_DEFAULT 0x40 then palette16 dflt
  else if v =? Z.lor CUCUL_TRANSPARENT 0x40 then transp
  else truecolor_argb16 v.

(** What _cucul_attr_to_argb4 emits: the transparent colour becomes
    0x0fff in both groups. *)
Definition argb4_emitted (attr : Z) : list Z :=
  nibbles_msb_first (argb4_colour CUCUL_BLACK 0x0fff (bg_field attr))
  ++ nibbles_msb_first (argb4_colour CUCUL_LIGHTGRAY 0x0fff (fg_field attr)).

(** The same with the transparent colour resolved as on the RGB12 path:
    light gray in the foreground, black in the background. *)
Definition argb4_like_rgb12 (attr : Z) : list Z :=
  nibbles_msb_first
    (argb4_colour CUCUL_BLACK (palette16 CUCUL_BLACK) (bg_field attr))
  ++ nibbles_msb_first
    (argb4_colour CUCUL_LIGHTGRAY (palette16 CUCUL_LIGHTGRAY) (fg_field attr)).

(** What the conversions need of the colour constants of cucul.h: black
    and light gray are palette indices; the default and the transparent
    colours are not, and are small enough to take the 0x40 offset. *)
Definition colours_ok : Prop :=
  0 <= CUCUL_BLACK < 16 /\ 0 <= CUCUL_LIGHTGRAY < 16 /\
  0x10 <= CUCUL_DEFAULT < 0x40 /\ 0x10 <= CUCUL_TRANSPARENT < 0x40.

End Attr.

(** ** Statements about the setters *)

(** Two states with the same cells and errno: only the current attribute
    may differ. *)
Definition same_cells (s s' : state) : Prop :=
  width (st_cv s') = width (st_cv s) /\ height (st_cv s') = height (st_cv s) /\
  chars (st_cv s') = chars (st_cv s) /\ attrs (st_cv s') = attrs (st_cv s) /\
  st_errno s' = st_errno s.

(** The 14-bit field cucul_set_color_argb stores for the 16-bit colour
    [c]: a colour below 0x100 first gets 0x100 added; the field is the
    three high bits of alpha over bits 1 to 11 of the colour (red, green
    and the three high bits of blue). *)
Definition stored_argb (c : Z) : Z :=
  let n := if c <? 0x100 then c + 0x100 else c in
  (n / 2 ^ 13) * 2 ^ 11 + (n / 2) mod 2 ^ 11.

(** The colour _cucul_attr_to_argb4 gives back for a colour [c] set with
    cucul_set_color_argb: the three high bits of alpha, then a copy of the
    high bit of red as lowest alpha bit, then red, green and blue without
    the lowest bit of blue. *)
Definition argb_read_back (c : Z) : Z :=
  let n := if c <? 0x100 then c + 0x100 else c in
  (n / 2 ^ 13) * 2 ^ 13 + (n / 2 ^ 11 mod 2) * 2 ^ 12 + (n mod 2 ^ 12 / 2) * 2.

(** The colours cucul_set_color_argb stores as fields from 0x80 up, above
    the codes of the palette and of the default and transparent colours:
    those below 0x100, those with alpha at least 2, and those with red
    other than 0. *)
Definition argb_plain (c : Z) : bool :=
  (c <? 0x100) || (0x2000 <=? c) || (0x100 <=? c mod 0x1000).

(** The integers z, z+1, ..., z+n-1. *)
Fixpoint zrange (n : nat) (z : Z) : list Z :=
  match n with
  | O => []
  | S n => z :: zrange n (z + 1)
  end.

(** ** ttyvaders: the tunnel (tunnel.c)

    The structures game and tunnel are declared in common.h, which is not
    part of the verified sources; the fields below are those tunnel.c
    uses. All of them are ints. The result of an int operation that
    overflows is undefined: the model returns [None] there, as for a read
    or a store outside an array. *)

Definition int_val (z : Z) : option Z :=
  if (- 2 ^ 31 <=? z) && (z <? 2 ^ 31) then Some z else None.

Module Game.
Record game := { w : Z; h : Z }.
End Game.

Module Tunnel.

Record tunnel := {
  left : list Z;
  right : list Z;
  w : Z;
  h : Z
}.

Definition delta : list Z := [ -3; -2; -1; 1; 2; 3 ].

(** The loop [for(i = t->h - 1; i--;)], entered with [i]: the test reads
    [i] and then decrements it. [fuel] bounds the number of iterations. *)
Fixpoint slide (fuel : nat) (i : Z) (l r : list Z) : option (list Z * list Z) :=
  if i =? 0 then Some (l, r)
  else
    match fuel with
    | O => None
    | S fuel =>
        i ← int_val (i - 1);
        vl ← array_get l i;
        l ← array_store l (i + 1) vl;
        vr ← array_get r i;
        r ← array_store r (i + 1) vr;
        slide fuel i l r
    end.

(** update_tunnel; [r1] and [r2] are the values the two calls of
    caca_rand(0,5) return. *)
Definition update_tunnel (g : Game.game) (t : tunnel) (r1 r2 : Z)
  : option tunnel :=
  (* Slide tunnel one block vertically *)
  h1 ← int_val (h t - 1);
  lr ← slide (S (Z.to_nat h1)) h1 (left t) (right t);
  let l := fst lr in
  let r := snd lr in
  (* Generate new values *)
  i ← array_get delta r1;
  j ← array_get delta r2;
  (* Check in which direction we need to alter tunnel *)
  right1 ← array_get r 1;
  left1 ← array_get l 1;
  d ← int_val (right1 - left1);
  ij ← (if d <? w t
        then Some (if i >? j then (j, i) else (i, j))
        else
          d2 ← int_val (d - 2);
          Some (if d2 >? w t
                then (if i <? j then (j, i) else (i, j))
                else (i, j)));
  let i := fst ij in
  let j := snd ij in
  (* If width doesn't exceed game size, update coords *)
  lr0 ← (if (w t <=? Game.w g) || (d <? w t)
         then
           a ← int_val (left1 + i);
           b ← int_val (right1 + j);
           Some (a, b)
         else
           b ← int_val (Game.w g + 10);
           Some (-10, b));
  l ← array_store l 0 (fst lr0);
  r ← array_store r 0 (snd lr0);
  let left0 := fst lr0 in
  let right0 := snd lr0 in
  if w t >? Game.w g
  then
    left0 ← (if left0 <? 0
             then
               gw2 ← int_val (Game.w g - 2);
               if right0 <? gw2 then int_val (left1 + 1) else Some left0
             else Some left0);
    right0 ← (if left0 >? 1
              then
                gw1 ← int_val (Game.w g - 1);
                if right0 >? gw1 then int_val (right1 - 1) else Some right0
              else Some right0);
    Some {| left := array_set l 0 left0; right := array_set r 0 right0;
            w := w t; h := h t |}
  else
    left0 ← (if left0 <? 0 then int_val (left1 + 1) else Some left0);
    gw1 ← int_val (Game.w g - 1);
    right0 ← (if right0 >? gw1 then int_val (right1 - 1) else Some right0);
    Some {| left := array_set l 0 left0; right := array_set r 0 right0;
            w := w t; h := h t |}.

(** The new top row update_tunnel computes from the row (a, b) below it
    and the two steps [i0] and [j0] taken from delta, when no operation
    overflows; [gw] is the width of the game, [tw] that of the tunnel. *)
Definition next_row (gw tw a b i0 j0 : Z) : Z * Z :=
  let d := b - a in
  let ij := if d <? tw
            then (if i0 >? j0 then (j0, i0) else (i0, j0))
            else if d - 2 >? tw
            then (if i0 <? j0 then (j0, i0) else (i0, j0))
            else (i0, j0) in
  let lr0 := if (tw <=? gw) || (d <? tw)
             then (a + fst ij, b + snd ij)
             else (-10, gw + 10) in
  if tw >? gw
  then
    let left0 := if (fst lr0 <? 0) && (snd lr0 <? gw - 2)
                 then a + 1 else fst lr0 in
    let right0 := if (left0 >? 1) && (snd lr0 >? gw - 1)
                  then b - 1 else snd lr0 in
    (left0, right0)
  else
    (if fst lr0 <? 0 then a + 1 else fst lr0,
     if snd lr0 >? gw - 1 then b - 1 else snd lr0).

(** What a call of create_tunnel ends with: exit(status), or the tunnel
    it returns. *)
Inductive outcome :=
  | Exit (status : Z)
  | Return (t : tunnel).

(** The first loop of create_tunnel, [for(i = 0; i < g->h; i++)], with
    [n] iterations left and entered with [i]. *)
Fixpoint open_rows (n : nat) (i : Z) (g : Game.game) (l r : list Z)
  : option (list Z * list Z) :=
  match n with
  | O => Some (l, r)
  | S n =>
      l ← array_store l i (-10);
      b ← int_val (Game.w g + 10);
      r ← array_store r i b;
      i ← int_val (i + 1);
      open_rows n i g l r
  end.

(** The second loop of create_tunnel: [n] calls of update_tunnel, the
    k-th call of the run drawing its two random values from [rnd k]. *)
Fixpoint updates (n : nat) (k : nat) (g : Game.game) (t : tunnel)
    (rnd : nat -> Z * Z) : option tunnel :=
  match n with
  | O => Some t
  | S n =>
      t ← update_tunnel g t (fst (rnd k)) (snd (rnd k));
      updates n (S k) g t rnd
  end.

(** create_tunnel. [mem] is what the three calls of malloc give: [None]
    when one of them returns NULL, otherwise the two fresh arrays of [h0]
    ints with the values they happen to hold. *)
Definition create_tunnel (g : Game.game) (w0 h0 : Z)
    (mem : option (list Z * list Z)) (rnd : nat -> Z * Z) : option outcome :=
  match mem with
  | None => Some (Exit 1)
  | Some (l, r) =>
      if w0 >=? Game.w g
      then
        lr ← open_rows (Z.to_nat (Game.h g)) 0 g l r;
        Some (Return {| left := fst lr; right := snd lr; w := w0; h := h0 |})
      else
        a ← int_val (Game.w g - w0);
        l ← array_store l 0 (Z.quot a 2);
        b ← int_val (Game.w g + w0);
        r ← array_store r 0 (Z.quot b 2);
        t ← updates (Z.to_nat (Game.h g)) 0 g
              {| left := l; right := r; w := w0; h := h0 |} rnd;
        Some (Return t)
  end.

(** What draw_tunnel does: its calls of libcaca, in order. EE_GREEN and
    EE_RED are colours of common.h. *)
Inductive color := EE_GREEN | EE_RED.

Inductive call :=
  | caca_set_color (c : color)
  | caca_putchar (x y : Z) (c : ascii).

(** A loop [for(i = i0; cond(i); i++) body(i)] that makes calls: the calls
    of its iterations, in order. [fuel] bounds the number of iterations. *)
Fixpoint for_loop (fuel : nat) (cond : Z -> bool)
    (body : Z -> option (list call)) (i : Z) : option (list call) :=
  if cond i then
    match fuel with
    | O => None
    | S fuel =>
        out ← body i;
        i ← int_val (i + 1);
        rest ← for_loop fuel cond body i;
        Some (out ++ rest)
    end
  else Some [].

(** The choice of the character of a wall at row [i], the same for the
    walls [a] of both sides. *)
Definition wall (g : Game.game) (a : list Z) (i : Z) : option ascii :=
  ai ← array_get a i;
  i1 ← int_val (i + 1);
  below ← (if i1 =? Game.h g then Some true
           else a1 ← array_get a i1; Some (ai >? a1));
  above ← (if i =? 0 then Some true
           else
             im ← int_val (i - 1);
             am ← array_get a im;
             Some (ai >? am));
  Some (if below : bool
        then (if above : bool then ">" else "/")
        else (if above : bool then "\" else "<"))%char.

(** The body of the loop of the left border, at row [i]. *)
Definition left_border (g : Game.game) (t : tunnel) (i : Z)
  : option (list call) :=
  li ← array_get (left t) i;
  if li <=? -10 then Some []
  else
    c ← wall g (left t) i;
    x ← int_val (li + 1);
    i1 ← int_val (i + 1);
    run ← (if i1 <? Game.h g
           then
             l1 ← array_get (left t) i1;
             d ← int_val (l1 - li);
             for_loop (Z.to_nat d) (fun j => j <? d)
               (fun j =>
                  x ← int_val (li + j);
                  x ← int_val (x + 1);
                  Some [caca_putchar x i "_"]) 1
           else Some []);
    Some (caca_putchar x i c :: run).

(** The body of the loop of the right border, at row [i]. *)
Definition right_border (g : Game.game) (t : tunnel) (i : Z)
  : option (list call) :=
  ri ← array_get (right t) i;
  gw10 ← int_val (Game.w g + 10);
  if ri >=? gw10 then Some []
  else
    c ← wall g (right t) i;
    i1 ← int_val (i + 1);
    run ← (if i1 <? Game.h g
           then
             r1 ← array_get (right t) i1;
             d ← int_val (ri - r1);
             for_loop (Z.to_nat d) (fun j => j <? d)
               (fun j =>
                  x ← int_val (r1 + j);
                  x ← int_val (x - 1);
                  Some [caca_putchar x i "_"]) 1
           else Some []);
    x ← int_val (ri - 1);
    Some (run ++ [caca_putchar x i c]).

(** The bodies of the loops of the left and of the right concrete, at row
    [i]; the loop on [j] reads t->left[i] at each test and does not change
    it. *)
Definition left_concrete (t : tunnel) (i : Z) : option (list call) :=
  li ← array_get (left t) i;
  for_loop (Z.to_nat (li + 1)) (fun j => j <=? li)
    (fun j => Some [caca_putchar j i "#"]) 0.

Definition right_concrete (g : Game.game) (t : tunnel) (i : Z)
  : option (list call) :=
  ri ← array_get (right t) i;
  for_loop (Z.to_nat (Game.w g - ri)) (fun j => j <? Game.w g)
    (fun j => Some [caca_putchar j i "#"]) ri.

(** draw_tunnel: the four loops on the rows of the game. *)
Definition draw_tunnel (g : Game.game) (t : tunnel) : option (list call) :=
  let rows := for_loop (Z.to_nat (Game.h g)) (fun i => i <? Game.h g) in
  (* Left border *)
  lb ← rows (left_border g t) 0;
  (* Right border *)
  rb ← rows (right_border g t) 0;
  (* Left concrete *)
  lc ← rows (left_concrete t) 0;
  (* Right concrete *)
  rc ← rows (right_concrete g t) 0;
  Some (caca_set_color EE_GREEN :: lb ++ rb
        ++ caca_set_color EE_RED :: lc ++ rc).

(** A tunnel draw_tunnel can draw: the arrays have the rows of the game,
    and the walls and the width of the game are far from the ends of the
    int range. *)
Definition rows_ok (g : Game.game) (t : tunnel) : Prop :=
  0 <= Game.h g < 2 ^ 31 /\ - 2 ^ 30 <= Game.w g <= 2 ^ 30 /\
  forall i, 0 <= i < Game.h g ->
    exists a b,
      array_get (left t) i = Some a /\ array_get (right t) i = Some b /\
      - 2 ^ 30 < a < 2 ^ 30 /\ - 2 ^ 30 < b < 2 ^ 30.

(** A tunnel as create_tunnel allocates it: two arrays of h ints, with at
    least two rows, and a top row and sizes far from the ends of the int
    range. *)
Definition tunnel_ok (g : Game.game) (t : tunnel) : Prop :=
  2 <= h t < 2 ^ 31 /\
  Z.of_nat (length (left t)) = h t /\ Z.of_nat (length (right t)) = h t /\
  - 2 ^ 30 <= w t <= 2 ^ 30 /\ - 2 ^ 30 <= Game.w g <= 2 ^ 30 /\
  (exists a b, left t !! 0%nat = Some a /\ right t !! 0%nat = Some b /\
               - 2 ^ 29 <= a <= 2 ^ 29 /\ - 2 ^ 29 <= b <= 2 ^ 29).

(** After [u] calls of update_tunnel on a fresh tunnel: rows 0 to u (as
    far as the tunnel has them) are on the screen and not far from it,
    and each of rows 0 to u-1 is within 3 columns of the row below. *)
Definition walls_ok (g : Game.game) (t : tunnel) (u : nat) : Prop :=
  forall k : nat, (k <= u)%nat -> Z.of_nat k < h t ->
    exists a b,
      left t !! k = Some a /\ right t !! k = Some b /\
      0 <= a <= 2 ^ 21 + 3 * Z.of_nat u /\
      - 2 ^ 21 - 3 * Z.of_nat u <= b <= Game.w g - 1 /\
      forall a2 b2, (S k <= u)%nat ->
        left t !! (S k) = Some a2 -> right t !! (S k) = Some b2 ->
        -3 <= a - a2 <= 3 /\ -3 <= b - b2 <= 3.

(** A game of 80 columns and a tunnel of four rows, 20 wide. *)
Definition game80 : Game.game := {| Game.w := 80; Game.h := 4 |}.

Definition tunnel4 : tunnel :=
  {| left := [30; 31; 32; 30]; right := [50; 51; 52; 50]; w := 20; h := 4 |}.

(** Tunnels 20 wide whose top row is 40 wide, and 10 wide. *)
Definition tunnel_wide_top : tunnel :=
  {| left := [20; 21; 22; 20]; right := [60; 61; 62; 60]; w := 20; h := 4 |}.

Definition tunnel_narrow_top : tunnel :=
  {| left := [35; 34; 33; 32]; right := [45; 46; 47; 48]; w := 20; h := 4 |}.

(** A tunnel of one row. *)
Definition tunnel1 : tunnel :=
  {| left := [30]; right := [50]; w := 20; h := 1 |}.

(** An open tunnel, 90 wide, for a game of 80 columns. *)
Definition tunnel_open : tunnel :=
  {| left := [-10; -10; -10]; right := [90; 90; 90]; w := 90; h := 3 |}.

(** Freshly allocated arrays of four and of two ints, and a run of random
    draws that always gives 0 and 5. *)
Definition fresh_rows : list Z := [7; 7; 7; 7].

Definition short_rows : list Z := [7; 7].

Definition draws : nat -> Z * Z := fun _ => (0, 5).

(** A game of 80 columns and 3 rows. *)
Definition game3 : Game.game := {| Game.w := 80; Game.h := 3 |}.

End Tunnel.

(** ** Concrete canvases *)

(** A canvas of one cell, a space in light gray on black. *)
Definition one_cell : state := {|
  st_cv := {| width := 1; height := 1;
              chars := [0x20]; attrs := [0x1000470]; curattr := 0x1000470 |};
  st_errno := 0
|}.

(** A canvas of two rows of three cells; the first row starts with a
    fullwidth character and its continuation marker. *)
Definition wide_row : state := {|
  st_cv := {| width := 3; height := 2;
              chars := [0x3042; 0x000ffffe; 0x20; 0x20; 0x20; 0x20];
              attrs := [0x1000470; 0x1000490; 0x1000470;
                        0x1000470; 0x1000470; 0x1000470];
              curattr := 0x1000470 |};
  st_errno := 0
|}.


(** A canvas whose attrs array is one cell short of its chars array. *)
Definition short_attrs : state := {|
  st_cv := {| width := 2; height := 1;
              chars := [0x3042; 0x000ffffe];
              attrs := [0x1000470];
              curattr := 0x1000470 |};
  st_errno := 0
|}.

(** * Properties *)

(** ** Integer conversions *)

Lemma to_uint32_small (z : Z) : 0 <= z < 2 ^ 32 -> to_uint32 z = z.
Proof. intros Hz. unfold to_uint32. now apply Z.mod_small. Qed.

Lemma to_uint8_small (z : Z) : 0 <= z < 2 ^ 8 -> to_uint8 z = z.
Proof. intros Hz. unfold to_uint8. now apply Z.mod_small. Qed.

Lemma to_int_small (z : Z) : 0 <= z < 2 ^ 31 -> to_int z = z.
Proof.
  intros Hz. unfold to_int. rewrite to_uint32_small by lia.
  destruct (Z.ltb_spec z (2 ^ 31)); lia.
Qed.

(** An unsigned int never grows when it is converted to int. *)
Lemma to_int_le (z : Z) : 0 <= z < 2 ^ 32 -> to_int z <= z.
Proof.
  intros Hz. unfold to_int. rewrite to_uint32_small by lia.
  destruct (Z.ltb_spec z (2 ^ 31)); lia.
Qed.

Section Canvas_properties.
Context `{H : headers}.

Lemma out_of_canvas_true (cv : cucul_canvas_t) (x y : Z) :
  canvas_typed cv ->
  x < 0 \/ x >= width cv \/ y < 0 \/ y >= height cv ->
  out_of_canvas cv x y = true.
Proof.
  intros [Hw Hh] Hout. unfold out_of_canvas.
  pose proof (to_int_le (width cv) Hw). pose proof (to_int_le (height cv) Hh).
  rewrite !orb_true_iff, !Z.ltb_lt, !Z.geb_le. lia.
Qed.

Lemma out_of_canvas_false (cv : cucul_canvas_t) (x y : Z) :
  canvas_ok cv -> in_bounds cv x y -> out_of_canvas cv x y = false.
Proof.
  intros (Hw & Hh & _) [Hx Hy]. unfold out_of_canvas.
  rewrite !to_int_small by lia.
  rewrite !orb_false_iff, !Z.ltb_ge. rewrite !Z.geb_leb, !Z.leb_gt. lia.
Qed.

Lemma attr_too_large_true (attr : Z) :
  0xffffffff < attr -> attr_too_large attr = true.
Proof.
  intros Ha. unfold attr_too_large. rewrite andb_true_iff. split; [reflexivity|].
  rewrite Z.gtb_ltb. now apply Z.ltb_lt.
Qed.

Lemma attr_too_large_false (attr : Z) :
  attr < 2 ^ 32 -> attr_too_large attr = false.
Proof.
  intros Ha. unfold attr_too_large. rewrite andb_false_iff. right.
  rewrite Z.gtb_ltb. apply Z.ltb_ge. lia.
Qed.

(** C5: an attribute above 0xffffffff given to cucul_set_attr or
    cucul_putattr, an ANSI colour above 0x20 given to
    cucul_set_color_ansi and an ARGB colour above 0xffff given to
    cucul_set_color_argb make the call return -1 with errno set to EINVAL,
    and the canvas (every character, every attribute, the current
    attribute) is the one before the call. *)
Theorem invalid_argument_leaves_canvas (s : state) :
  (forall attr, 0xffffffff < attr ->
     exists s', cucul_set_attr s attr = (-1, s')
                /\ st_errno s' = EINVAL /\ st_cv s' = st_cv s) /\
  (forall x y attr, 0xffffffff < attr ->
     exists s', cucul_putattr s x y attr = Some (-1, s')
                /\ st_errno s' = EINVAL /\ st_cv s' = st_cv s) /\
  (forall fg bg, 0x20 < fg \/ 0x20 < bg ->
     exists s', cucul_set_color_ansi s fg bg = (-1, s')
                /\ st_errno s' = EINVAL /\ st_cv s' = st_cv s) /\
  (forall fg bg, 0xffff < fg \/ 0xffff < bg ->
     exists s', cucul_set_color_argb s fg bg = (-1, s')
                /\ st_errno s' = EINVAL /\ st_cv s' = st_cv s).
Proof.
  repeat split.
  - intros attr Ha. exists (set_errno EINVAL s).
    unfold cucul_set_attr. rewrite attr_too_large_true by assumption. auto.
  - intros x y attr Ha. exists (set_errno EINVAL s).
    unfold cucul_putattr. rewrite attr_too_large_true by assumption. auto.
  - intros fg bg Hc. exists (set_errno EINVAL s).
    unfold cucul_set_color_ansi.
    replace ((fg >? 0x20) || (bg >? 0x20)) with true; [auto|].
    symmetry. rewrite orb_true_iff, !Z.gtb_ltb, !Z.ltb_lt. exact Hc.
  - intros fg bg Hc. exists (set_errno EINVAL s).
    unfold cucul_set_color_argb.
    replace ((fg >? 0xffff) || (bg >? 0xffff)) with true; [auto|].
    symmetry. rewrite orb_true_iff, !Z.gtb_ltb, !Z.ltb_lt. exact Hc.
Qed.

(** C6: at coordinates outside the canvas cucul_get_attr returns the
    current attribute, and cucul_putattr with a 32-bit attribute returns 0
    and leaves the whole state, canvas included, as it was. *)
Theorem out_of_bounds_is_silent (s : state) (x y : Z) :
  canvas_typed (st_cv s) ->
  x < 0 \/ x >= width (st_cv s) \/ y < 0 \/ y >= height (st_cv s) ->
  cucul_get_attr (st_cv s) x y = Some (curattr (st_cv s)) /\
  forall attr, 0 <= attr < 2 ^ 32 -> cucul_putattr s x y attr = Some (0, s).
Proof.
  intros Hty Hout. pose proof (out_of_canvas_true _ _ _ Hty Hout) as Hc.
  split.
  - unfold cucul_get_attr. now rewrite Hc.
  - intros attr Ha. unfold cucul_putattr.
    rewrite attr_too_large_false by lia. now rewrite Hc.
Qed.

End Canvas_properties.

(** ** Arrays *)

Lemma array_get_in_range (l : list Z) (i : Z) :
  0 <= i < Z.of_nat (length l) -> exists v, array_get l i = Some v.
Proof.
  intros Hi. unfold array_get.
  destruct (Z.ltb_spec i 0); [lia|].
  destruct (lookup_lt_is_Some_2 l (Z.to_nat i)) as [v Hv]; [lia|]. eauto.
Qed.

Lemma array_store_in_range (l : list Z) (i v : Z) :
  0 <= i < Z.of_nat (length l) -> array_store l i v = Some (array_set l i v).
Proof.
  intros Hi. unfold array_store.
  destruct (Z.leb_spec 0 i); [|lia].
  destruct (Z.ltb_spec i (Z.of_nat (length l))); [reflexivity|lia].
Qed.

Lemma array_get_set_same (l : list Z) (i v : Z) :
  0 <= i < Z.of_nat (length l) -> array_get (array_set l i v) i = Some v.
Proof.
  intros Hi. unfold array_get, array_set.
  destruct (Z.ltb_spec i 0); [lia|].
  apply list_lookup_insert_eq. lia.
Qed.

Lemma array_get_set_other (l : list Z) (i j v : Z) :
  0 <= i -> 0 <= j -> i <> j -> array_get (array_set l i v) j = array_get l j.
Proof.
  intros Hi Hj Hne. unfold array_get, array_set.
  destruct (Z.ltb_spec j 0); [lia|].
  apply list_lookup_insert_ne. lia.
Qed.

Lemma array_set_length (l : list Z) (i v : Z) :
  length (array_set l i v) = length l.
Proof. unfold array_set. apply length_insert. Qed.

(** A cell inside the canvas has its index inside both arrays. *)
Lemma cell_index_range (cv : cucul_canvas_t) (x y : Z) :
  canvas_ok cv -> in_bounds cv x y ->
  0 <= x + y * width cv < width cv * height cv.
Proof. intros (Hw & Hh & _) [Hx Hy]. nia. Qed.

Section Putattr_properties.
Context `{H : headers}.

Lemma get_attr_in_bounds (cv : cucul_canvas_t) (x y : Z) :
  canvas_ok cv -> in_bounds cv x y ->
  cucul_get_attr cv x y = array_get (attrs cv) (x + y * width cv).
Proof.
  intros Hok Hin. unfold cucul_get_attr.
  rewrite out_of_canvas_false by assumption.
  pose proof (cell_index_range _ _ _ Hok Hin).
  destruct Hok as (? & ? & ? & _).
  now rewrite to_uint32_small by lia.
Qed.

(** cucul_putattr inside the canvas, step by step. *)
Lemma putattr_in_bounds (s : state) (x y attr : Z) :
  canvas_ok (st_cv s) -> in_bounds (st_cv s) x y -> attr < 2 ^ 32 ->
  let cv := st_cv s in
  let p := x + y * width cv in
  exists a0, array_get (attrs cv) p = Some a0 /\
    let a1 := putattr_cell cv a0 in
    cucul_putattr s x y attr =
    Some (0, set_attrs
               match putattr_neighbour cv x p with
               | Some q => array_set (array_set (attrs cv) p a1) q a1
               | None => array_set (attrs cv) p a1
               end s).
Proof.
  intros Hok Hin Ha cv p.
  pose proof (cell_index_range _ _ _ Hok Hin) as Hp. fold cv in Hp. fold p in Hp.
  pose proof Hok as (Hw & Hh & Hwh & Hlc & Hla). fold cv in Hw, Hh, Hwh, Hlc, Hla.
  destruct Hin as [Hx Hy]. fold cv in Hx, Hy.
  destruct (array_get_in_range (attrs cv) p) as [a0 Ha0]; [lia|].
  destruct (array_get_in_range (chars cv) p) as [c0 Hc0]; [lia|].
  exists a0. split; [exact Ha0|]. intros a1.
  unfold cucul_putattr. fold cv.
  rewrite attr_too_large_false by lia.
  rewrite out_of_canvas_false by (assumption || split; assumption).
  assert (Hyw : to_uint32 (y * width cv) = y * width cv)
    by (apply to_uint32_small; nia).
  rewrite Hyw. fold p. rewrite Ha0. cbn [mbind option_bind].
  assert (Hattrs1 : (if a0 <? 0x00000010
                     then array_store (attrs cv) p
                            (Z.lor (Z.land (curattr cv) 0xfffffff0) a0)
                     else Some (attrs cv)) = Some (array_set (attrs cv) p a1)).
  { unfold a1, putattr_cell. destruct (a0 <? 0x00000010).
    - apply array_store_in_range. lia.
    - f_equal. unfold array_set. symmetry. apply list_insert_id.
      unfold array_get in Ha0. destruct (Z.ltb_spec p 0); [lia|]. exact Ha0. }
  rewrite Hattrs1. cbn [mbind option_bind].
  rewrite array_get_set_same by lia. cbn [mbind option_bind].
  rewrite to_int_small by lia.
  unfold putattr_neighbour, and_then, is_fullwidth_marker. fold cv.
  rewrite Hc0. cbn [mbind option_bind].
  destruct (Z.eqb_spec x 0) as [Hx0|Hx0]; cbn [negb andb mbind option_bind].
  - destruct (Z.ltb_spec (x + 1) (width cv)) as [Hx1|Hx1];
      cbn [andb mbind option_bind]; [|reflexivity].
    destruct (array_get_in_range (chars cv) (p + 1)) as [c1 Hc1].
    { unfold p. nia. }
    rewrite Hc1. cbn [mbind option_bind].
    destruct (Z.eqb_spec c1 CUCUL_MAGIC_FULLWIDTH) as [->|Hne].
    + rewrite bool_decide_eq_true_2 by reflexivity.
      rewrite array_store_in_range; [reflexivity|].
      rewrite array_set_length. unfold p in *. nia.
    + rewrite bool_decide_eq_false_2 by congruence. reflexivity.
  - destruct (Z.eqb_spec c0 CUCUL_MAGIC_FULLWIDTH) as [->|Hne0].
    + rewrite bool_decide_eq_true_2 by reflexivity.
      rewrite array_store_in_range; [reflexivity|].
      rewrite array_set_length. lia.
    + rewrite bool_decide_eq_false_2 by congruence.
      destruct (Z.ltb_spec (x + 1) (width cv)) as [Hx1|Hx1];
        cbn [andb mbind option_bind]; [|reflexivity].
      destruct (array_get_in_range (chars cv) (p + 1)) as [c1 Hc1].
      { unfold p. nia. }
      rewrite Hc1. cbn [mbind option_bind].
      destruct (Z.eqb_spec c1 CUCUL_MAGIC_FULLWIDTH) as [->|Hne].
      * rewrite bool_decide_eq_true_2 by reflexivity.
        rewrite array_store_in_range; [reflexivity|].
        rewrite array_set_length. unfold p in *. nia.
      * rewrite bool_decide_eq_false_2 by congruence. reflexivity.
Qed.


End Putattr_properties.

(** ** The quantizer *)

Lemma land_0xf (z : Z) : Z.land z 0xf = z mod 2 ^ 4.
Proof. change 0xf with (Z.ones 4). apply Z.land_ones. lia. Qed.

Lemma land_0x3fff (z : Z) : Z.land z 0x3fff = z mod 2 ^ 14.
Proof. change 0x3fff with (Z.ones 14). apply Z.land_ones. lia. Qed.

Lemma channel_7_10_bits (c : Z) : Z.land (Z.shiftr c 7) 0xf = channel_7_10 c.
Proof. rewrite land_0xf, Z.shiftr_div_pow2 by lia. reflexivity. Qed.

Lemma channel_3_6_bits (c : Z) : Z.land (Z.shiftr c 3) 0xf = channel_3_6 c.
Proof. rewrite land_0xf, Z.shiftr_div_pow2 by lia. reflexivity. Qed.

Lemma channel_low3_bits (c : Z) : Z.land (Z.shiftl c 1) 0xf = channel_low3 c.
Proof.
  rewrite land_0xf, Z.shiftl_mul_pow2 by lia. unfold channel_low3.
  change (2 ^ 1) with 2. change (2 ^ 4) with 16. change (2 ^ 3) with 8.
  Z.div_mod_to_equations. lia.
Qed.

Lemma channel_7_10_range (c : Z) : 0 <= channel_7_10 c < 16.
Proof. unfold channel_7_10. apply Z.mod_pos_bound. lia. Qed.

Lemma channel_3_6_range (c : Z) : 0 <= channel_3_6 c < 16.
Proof. unfold channel_3_6. apply Z.mod_pos_bound. lia. Qed.

Lemma channel_low3_range (c : Z) : 0 <= channel_low3 c < 16.
Proof.
  unfold channel_low3. pose proof (Z.mod_pos_bound c (2 ^ 3)). lia.
Qed.

Lemma square_diff_range (a b : Z) :
  0 <= a < 16 -> 0 <= b < 16 -> 0 <= (a - b) * (a - b) <= 225.
Proof.
  intros Ha Hb. split; [apply Z.square_nonneg|].
  assert (0 <= (15 - (a - b)) * (15 + (a - b)))
    by (apply Z.mul_nonneg_nonneg; lia).
  lia.
Qed.

(** The distance the loop computes is the sum of the squared channel
    differences; the unsigned additions never wrap. *)
Lemma ansi_distance_squared (t c : Z) :
  ansi_distance t c = squared_distance channel_low3 t c /\
  0 <= ansi_distance t c <= 675.
Proof.
  unfold ansi_distance, squared_distance.
  rewrite !channel_7_10_bits, !channel_3_6_bits, !channel_low3_bits.
  pose proof (square_diff_range _ _ (channel_7_10_range t) (channel_7_10_range c)).
  pose proof (square_diff_range _ _ (channel_3_6_range t) (channel_3_6_range c)).
  pose proof (square_diff_range _ _ (channel_low3_range t) (channel_low3_range c)).
  rewrite !Z.pow_2_r. cbv zeta.
  rewrite (to_uint32_small (0 + _)) by lia.
  rewrite (to_uint32_small (0 + _ + _)) by lia.
  rewrite to_uint32_small by lia. lia.
Qed.

(** The loop over the indices a, a+1, ..., a+n-1, started with (b, d):
    the distance it ends with is at most d and at most every distance
    scanned, and either nothing was replaced or the index it ends with is
    the first scanned one of least distance, strictly below d. *)
Lemma nearest_scan_invariant (argb14 : Z) (n a : nat) (b d : Z) :
  let dist := entry_distance argb14 in
  let r := nearest_scan argb14 (map Z.of_nat (seq a n)) (b, d) in
  snd r <= d /\
  (forall j, Z.of_nat a <= j < Z.of_nat (a + n) -> snd r <= dist j) /\
  (r = (b, d) \/
   (Z.of_nat a <= fst r < Z.of_nat (a + n) /\ snd r = dist (fst r) /\ snd r < d /\
    forall j, Z.of_nat a <= j < fst r -> snd r < dist j)).
Proof.
  intros dist. revert a b d. induction n as [|n IH]; intros a b d.
  - cbn. split; [lia|]. split; [intros j Hj; lia|]. now left.
  - change (nearest_scan argb14 (map Z.of_nat (seq a (S n))) (b, d))
      with (nearest_scan argb14 (map Z.of_nat (seq (S a) n))
              (if dist (Z.of_nat a) <? d
               then (Z.of_nat a, dist (Z.of_nat a)) else (b, d))).
    destruct (Z.ltb_spec (dist (Z.of_nat a)) d) as [Hlt|Hge].
    + specialize (IH (S a) (Z.of_nat a) (dist (Z.of_nat a))).
      cbv zeta in IH. destruct IH as (Hle & Hall & Hcase).
      cbv zeta. split; [lia|]. split.
      * intros j Hj. destruct (Z.eq_dec j (Z.of_nat a)) as [->|Hne]; [lia|].
        apply Hall. lia.
      * right. destruct Hcase as [->|(Hr & Hd & Hlt' & Hbefore)].
        -- cbn [fst snd]. split; [lia|]. split; [reflexivity|]. split; [lia|].
           intros j Hj. lia.
        -- split; [lia|]. split; [exact Hd|]. split; [lia|]. intros j Hj.
           destruct (Z.eq_dec j (Z.of_nat a)) as [->|Hne]; [lia|].
           apply Hbefore. lia.
    + specialize (IH (S a) b d).
      cbv zeta in IH. destruct IH as (Hle & Hall & Hcase).
      cbv zeta. split; [lia|]. split.
      * intros j Hj. destruct (Z.eq_dec j (Z.of_nat a)) as [->|Hne]; [lia|].
        apply Hall. lia.
      * destruct Hcase as [Heq|(Hr & Hd & Hlt' & Hbefore)]; [now left|].
        right. split; [lia|]. split; [exact Hd|]. split; [lia|]. intros j Hj.
        destruct (Z.eq_dec j (Z.of_nat a)) as [->|Hne]; [lia|].
        apply Hbefore. lia.
Qed.

Section Quantizer_properties.
Context `{H : headers}.

(** The loop of nearest_ansi ends on the nearest palette index. *)
Lemma nearest_scan_nearest (c : Z) :
  nearest_index channel_low3 c
    (fst (nearest_scan c palette_indices (CUCUL_DEFAULT, 0x3fff))).
Proof.
  pose proof (nearest_scan_invariant c 16 0 CUCUL_DEFAULT 0x3fff) as Hinv.
  cbv zeta in Hinv. fold palette_indices in Hinv.
  set (r := nearest_scan c palette_indices (CUCUL_DEFAULT, 0x3fff)) in *.
  destruct Hinv as (_ & Hall & Hcase).
  assert (Hd : forall j, entry_distance c j
                         = squared_distance channel_low3 (palette14 j) c)
    by (intros j; apply ansi_distance_squared).
  destruct Hcase as [Heq|(Hr & Hdr & _ & Hbefore)].
  - exfalso. specialize (Hall 0 ltac:(lia)). rewrite Heq in Hall. cbn [snd] in Hall.
    pose proof (ansi_distance_squared (nth (Z.to_nat 0) ansitab14 0) c).
    unfold entry_distance in Hall. lia.
  - unfold nearest_index. split; [lia|]. rewrite Hdr in Hall, Hbefore. split.
    + intros j Hj. rewrite <- !Hd. apply Hall. lia.
    + intros j Hj. rewrite <- !Hd. apply Hbefore. lia.
Qed.

(** Amended C4: an input of nearest_ansi that is not a raw palette value
    (it is at least 0x10 | 0x40) and not the default or transparent colour
    is quantized, when it is at least 0x0fff, to the palette index of least
    squared distance over the channels bits 7-10, bits 3-6 and the three
    lowest bits shifted left by one, the lowest such index on ties; below
    0x0fff it becomes the transparent colour. *)
Theorem nearest_ansi_quantizes (c : Z) :
  0 <= CUCUL_TRANSPARENT < 2 ^ 8 ->
  0x50 <= c ->
  c <> Z.lor CUCUL_DEFAULT 0x40 -> c <> Z.lor CUCUL_TRANSPARENT 0x40 ->
  (0x0fff <= c -> nearest_index channel_low3 c (nearest_ansi c)) /\
  (c < 0x0fff -> nearest_ansi c = CUCUL_TRANSPARENT).
Proof.
  intros Ht Hraw Hdef Htr. unfold nearest_ansi.
  change (Z.lor 0x10 0x40) with 0x50.
  destruct (Z.ltb_spec c 0x50); [lia|].
  destruct (Z.eqb_spec c (Z.lor CUCUL_DEFAULT 0x40)); [contradiction|].
  destruct (Z.eqb_spec c (Z.lor CUCUL_TRANSPARENT 0x40)); [contradiction|].
  cbn [orb]. split; intros Hc.
  - destruct (Z.ltb_spec c 0x0fff); [lia|].
    pose proof (nearest_scan_nearest c) as Hn.
    rewrite to_uint8_small; [exact Hn|]. destruct Hn as [Hi _]. lia.
  - destruct (Z.ltb_spec c 0x0fff); [|lia].
    now apply to_uint8_small.
Qed.

End Quantizer_properties.

(** ** Raw values and the 0x40 offset *)

(** A property checked on 0, ..., n-1 holds of every integer below n. *)
Lemma forall_below (n : nat) (P : Z -> bool) :
  forallb P (map Z.of_nat (seq 0 n)) = true ->
  forall z, 0 <= z < Z.of_nat n -> P z = true.
Proof.
  intros Hall z Hz. rewrite forallb_forall in Hall. apply Hall.
  rewrite <- (Z2Nat.id z) by lia. apply in_map, in_seq. lia.
Qed.

Lemma raw_offset (v : Z) :
  0 <= v < 0x40 ->
  to_uint8 (Z.lxor v 0x40) = v + 0x40 /\ Z.lor v 0x40 = v + 0x40 /\
  to_uint8 (Z.lxor (v + 0x40) 0x40) = v.
Proof.
  intros Hv.
  pose proof (forall_below 64
    (fun v => (to_uint8 (Z.lxor v 0x40) =? v + 0x40)
              && (Z.lor v 0x40 =? v + 0x40)
              && (to_uint8 (Z.lxor (v + 0x40) 0x40) =? v))
    eq_refl v Hv) as Hb.
  cbv beta in Hb. rewrite !andb_true_iff, !Z.eqb_eq in Hb. tauto.
Qed.

(** What cucul_attr_to_ansi_fg passes to nearest_ansi: bits 4 to 15 of
    the attribute. *)
Lemma ansi_fg_argument (attr : Z) :
  to_uint16 (Z.land (Z.shiftr (to_uint16 attr) 4) 0x3fff) = (attr / 2 ^ 4) mod 2 ^ 12.
Proof.
  unfold to_uint16. rewrite land_0x3fff, Z.shiftr_div_pow2 by lia.
  change (2 ^ 4) with 16. change (2 ^ 12) with 4096.
  change (2 ^ 14) with 16384. change (2 ^ 16) with 65536.
  Z.div_mod_to_equations. lia.
Qed.

Lemma fg_field_div (attr : Z) : fg_field attr = (attr / 2 ^ 4) mod 2 ^ 14.
Proof. unfold fg_field. now rewrite land_0x3fff, Z.shiftr_div_pow2 by lia. Qed.

Lemma bg_field_div (attr : Z) : bg_field attr = (attr / 2 ^ 18) mod 2 ^ 14.
Proof. unfold bg_field. now rewrite land_0x3fff, Z.shiftr_div_pow2 by lia. Qed.

Lemma fg_field_range (attr : Z) : 0 <= fg_field attr < 2 ^ 14.
Proof. rewrite fg_field_div. apply Z.mod_pos_bound. lia. Qed.

Lemma bg_field_range (attr : Z) : 0 <= bg_field attr < 2 ^ 14.
Proof. rewrite bg_field_div. apply Z.mod_pos_bound. lia. Qed.

(** On a 32-bit attribute the background field is all of attr >> 18. *)
Lemma bg_field_32 (attr : Z) :
  0 <= attr < 2 ^ 32 -> to_uint16 (Z.shiftr attr 18) = bg_field attr.
Proof.
  intros Ha. rewrite bg_field_div. unfold to_uint16.
  rewrite Z.shiftr_div_pow2 by lia.
  change (2 ^ 18) with 262144. change (2 ^ 14) with 16384.
  change (2 ^ 16) with 65536. change (2 ^ 32) with 4294967296 in Ha.
  Z.div_mod_to_equations. lia.
Qed.

(** On a 32-bit attribute the conversions that take a uint32_t read the
    whole foreground field. *)
Lemma fg_field_32 (attr : Z) :
  to_uint16 (Z.land (Z.shiftr attr 4) 0x3fff) = fg_field attr.
Proof.
  fold (fg_field attr). unfold to_uint16. apply Z.mod_small.
  pose proof (fg_field_range attr). lia.
Qed.

Section Raw_properties.
Context `{H : headers}.

Lemma nearest_ansi_raw (v : Z) :
  0 <= v < 0x40 -> nearest_ansi v = Z.lor v 0x40 /\ nearest_ansi v = v + 0x40.
Proof.
  intros Hv. unfold nearest_ansi. change (Z.lor 0x10 0x40) with 0x50.
  destruct (Z.ltb_spec v 0x50); [|lia].
  destruct (raw_offset v Hv) as (-> & -> & _). auto.
Qed.

(** Amended C10: when the foreground field of an attribute is below 0x40,
    cucul_attr_to_ansi_fg returns the field with bit 6 set, a value from
    0x40 to 0x7f (0x4f at most when the field is below 0x10), which is
    neither a palette index nor the default or transparent colour; so
    does cucul_attr_to_ansi_bg for the background field of a 32-bit
    attribute. *)
Theorem ansi_of_raw_field (attr : Z) :
  CUCUL_DEFAULT <= 0x20 -> CUCUL_TRANSPARENT <= 0x20 ->
  (fg_field attr < 0x40 ->
   let r := cucul_attr_to_ansi_fg attr in
   r = Z.lor (fg_field attr) 0x40 /\ 0x40 <= r <= 0x7f /\
   (fg_field attr < 0x10 -> r <= 0x4f) /\
   ~ 0 <= r <= 15 /\ r <> CUCUL_DEFAULT /\ r <> CUCUL_TRANSPARENT) /\
  (0 <= attr < 2 ^ 32 -> bg_field attr < 0x40 ->
   let r := cucul_attr_to_ansi_bg attr in
   r = Z.lor (bg_field attr) 0x40 /\ 0x40 <= r <= 0x7f /\
   (bg_field attr < 0x10 -> r <= 0x4f) /\
   ~ 0 <= r <= 15 /\ r <> CUCUL_DEFAULT /\ r <> CUCUL_TRANSPARENT).
Proof.
  intros Hd Ht. split.
  - intros Hf r. pose proof (fg_field_range attr) as Hr.
    assert (Harg : to_uint16 (Z.land (Z.shiftr (to_uint16 attr) 4) 0x3fff)
                   = fg_field attr).
    { rewrite ansi_fg_argument, fg_field_div. rewrite fg_field_div in Hf, Hr.
      change (2 ^ 4) with 16 in *. change (2 ^ 12) with 4096.
      change (2 ^ 14) with 16384 in *.
      Z.div_mod_to_equations. lia. }
    unfold r, cucul_attr_to_ansi_fg. rewrite Harg.
    destruct (nearest_ansi_raw (fg_field attr)) as [Hlor Hadd]; [lia|].
    rewrite <- Hlor. rewrite Hadd. repeat split; lia.
  - intros Ha Hf r. pose proof (bg_field_range attr) as Hr.
    unfold r, cucul_attr_to_ansi_bg. rewrite bg_field_32 by assumption.
    destruct (nearest_ansi_raw (bg_field attr)) as [Hlor Hadd]; [lia|].
    rewrite <- Hlor. rewrite Hadd. repeat split; lia.
Qed.

End Raw_properties.

(** ** cucul_set_color_ansi and back *)

(** Both conversions read back the colours that were stored, whatever
    the four style bits are: checked on the 16 * 33 * 33 cases. *)
Lemma ansi_attr_fields (st fg bg : Z) :
  0 <= st < 16 -> 0 <= fg <= 0x20 -> 0 <= bg <= 0x20 ->
  to_uint16 (Z.land (Z.shiftr (to_uint16 (ansi_attr st fg bg)) 4) 0x3fff)
  = Z.lor fg 0x40 /\
  to_uint16 (Z.shiftr (ansi_attr st fg bg) 18) = Z.lor bg 0x40.
Proof.
  intros Hst Hfg Hbg.
  assert (Hall : forallb (fun st =>
            forallb (fun fg =>
              forallb (fun bg => ansi_fields_ok st fg bg)
                      (map Z.of_nat (seq 0 33)))
              (map Z.of_nat (seq 0 33)))
            (map Z.of_nat (seq 0 16)) = true) by (vm_compute; reflexivity).
  pose proof (forall_below 16 _ Hall st ltac:(lia)) as H1. cbv beta in H1.
  pose proof (forall_below 33 _ H1 fg ltac:(lia)) as H2. cbv beta in H2.
  pose proof (forall_below 33 _ H2 bg ltac:(lia)) as H3. cbv beta in H3.
  unfold ansi_fields_ok in H3. rewrite andb_true_iff, !Z.eqb_eq in H3. exact H3.
Qed.

Lemma style_bits_range (a : Z) : 0 <= Z.land a 0x0000000f < 16.
Proof. rewrite land_0xf. apply Z.mod_pos_bound. lia. Qed.

Section Ansi_round_trip.
Context `{H : headers}.

(** An ANSI colour that the too-transparent test does not collapse comes
    back from nearest_ansi as it went in. *)
Lemma nearest_ansi_of_ansi (c : Z) :
  0 <= c <= 0x20 ->
  nearest_ansi (Z.lor c 0x40) =
  if too_transparent (Z.lor c 0x40) then to_uint8 CUCUL_TRANSPARENT else c.
Proof.
  intros Hc. destruct (raw_offset c ltac:(lia)) as (_ & Hlor & Hback).
  rewrite Hlor. unfold nearest_ansi, too_transparent.
  rewrite Hback. change (Z.lor 0x10 0x40) with 0x50.
  destruct (c + 0x40 <? 0x50); [reflexivity|]. cbn [negb andb].
  destruct ((c + 0x40 =? Z.lor CUCUL_DEFAULT 0x40)
            || (c + 0x40 =? Z.lor CUCUL_TRANSPARENT 0x40)); [reflexivity|].
  cbn [negb andb]. destruct (Z.ltb_spec (c + 0x40) 0x0fff); [reflexivity|lia].
Qed.

(** C3: cucul_set_color_ansi with both colours at most 0x20 succeeds, and
    cucul_attr_to_ansi_fg and cucul_attr_to_ansi_bg of the new current
    attribute return the colours that were set, except for a colour that
    the too-transparent test of nearest_ansi collapses (which comes back
    as the transparent colour); 0x09 over 0x01 comes back as 0x09 and
    0x01. *)
Theorem ansi_round_trip (s : state) (fg bg : Z) :
  0 <= fg <= 0x20 -> 0 <= bg <= 0x20 ->
  exists s',
    cucul_set_color_ansi s fg bg = (0, s') /\
    (too_transparent (Z.lor fg 0x40) = false ->
     cucul_attr_to_ansi_fg (curattr (st_cv s')) = fg) /\
    (too_transparent (Z.lor bg 0x40) = false ->
     cucul_attr_to_ansi_bg (curattr (st_cv s')) = bg) /\
    (too_transparent (Z.lor fg 0x40) = true ->
     cucul_attr_to_ansi_fg (curattr (st_cv s')) = to_uint8 CUCUL_TRANSPARENT) /\
    (too_transparent (Z.lor bg 0x40) = true ->
     cucul_attr_to_ansi_bg (curattr (st_cv s')) = to_uint8 CUCUL_TRANSPARENT) /\
    (fg = 0x09 -> bg = 0x01 ->
     cucul_attr_to_ansi_fg (curattr (st_cv s')) = 0x09 /\
     cucul_attr_to_ansi_bg (curattr (st_cv s')) = 0x01).
Proof.
  intros Hfg Hbg. eexists. split.
  - unfold cucul_set_color_ansi.
    destruct (Z.gtb_spec fg 0x20); [lia|]. destruct (Z.gtb_spec bg 0x20); [lia|].
    cbn [orb]. reflexivity.
  - cbn [st_cv set_curattr curattr].
    fold (ansi_attr (Z.land (curattr (st_cv s)) 0x0000000f) fg bg).
    destruct (ansi_attr_fields _ fg bg (style_bits_range (curattr (st_cv s))) Hfg Hbg)
      as [Hf Hb].
    unfold cucul_attr_to_ansi_fg, cucul_attr_to_ansi_bg. rewrite Hf, Hb.
    rewrite !nearest_ansi_of_ansi by assumption.
    split; [intros ->; reflexivity|].
    split; [intros ->; reflexivity|].
    split; [intros ->; reflexivity|].
    split; [intros ->; reflexivity|].
    intros -> ->. split; reflexivity.
Qed.

End Ansi_round_trip.

(** ** _cucul_attr_to_argb4 *)

Lemma palette16_entry (k : Z) :
  0 <= k < 16 ->
  array_get ansitab16 k = Some (palette16 k) /\
  array_get ansitab16 (Z.lxor (k + 0x40) 0x40) = Some (palette16 k) /\
  0 <= palette16 k < 2 ^ 16.
Proof.
  intros Hk.
  pose proof (forall_below 16
    (fun k => bool_decide (array_get ansitab16 k = Some (palette16 k))
              && bool_decide (array_get ansitab16 (Z.lxor (k + 0x40) 0x40)
                              = Some (palette16 k))
              && (0 <=? palette16 k) && (palette16 k <? 2 ^ 16))
    eq_refl k Hk) as Hb.
  cbv beta in Hb.
  rewrite !andb_true_iff, !bool_decide_eq_true, Z.leb_le, Z.ltb_lt in Hb. tauto.
Qed.

(** The up-conversion of a truecolor field stays within 16 bits. *)
Lemma truecolor_argb16_range (v : Z) :
  argb14_to_16 v = truecolor_argb16 v /\ 0 <= truecolor_argb16 v < 2 ^ 16.
Proof.
  unfold argb14_to_16, truecolor_argb16.
  set (hi := Z.land (Z.shiftl v 2) 0xf000).
  set (lo := Z.land (Z.shiftl v 1) 0x0fff).
  assert (Hm : to_uint16 (Z.lor hi lo) = Z.lor hi lo).
  { unfold to_uint16. rewrite <- Z.land_ones by lia.
    rewrite Z.land_lor_distr_l. unfold hi, lo.
    rewrite <- !Z.land_assoc. reflexivity. }
  split; [exact Hm|]. rewrite <- Hm. unfold to_uint16.
  apply Z.mod_pos_bound. lia.
Qed.

(** The four stores cut a 16-bit colour into its nibbles, alpha first. *)
Lemma argb_nibbles_msb_first (c : Z) :
  0 <= c < 2 ^ 16 -> argb_nibbles c = nibbles_msb_first c.
Proof.
  intros Hc. unfold argb_nibbles, nibbles_msb_first, to_uint8.
  rewrite !land_0xf, !Z.shiftr_div_pow2 by lia.
  change (2 ^ 16) with 65536 in Hc. change (2 ^ 12) with 4096.
  change (2 ^ 8) with 256. change (2 ^ 4) with 16.
  assert (E1 : (c / 4096) mod 256 = (c / 4096) mod 16)
    by (Z.div_mod_to_equations; lia).
  assert (E2 : forall z, (z mod 16) mod 256 = z mod 16)
    by (intros z; Z.div_mod_to_equations; lia).
  now rewrite E1, !E2.
Qed.

Section Argb4_properties.
Context `{H : headers}.

(** One of the two branchings of _cucul_attr_to_argb4, on a field that
    carries the 0x40 offset or a truecolor value. *)
Lemma argb4_branching (dflt v : Z) :
  0 <= dflt < 16 -> 0x40 <= v ->
  (if v <? Z.lor 0x10 0x40
   then array_get ansitab16 (Z.lxor v 0x40)
   else if v =? Z.lor CUCUL_DEFAULT 0x40
   then array_get ansitab16 dflt
   else if v =? Z.lor CUCUL_TRANSPARENT 0x40
   then Some 0x0fff
   else Some (argb14_to_16 v))
  = Some (argb4_colour dflt 0x0fff v) /\
  0 <= argb4_colour dflt 0x0fff v < 2 ^ 16.
Proof.
  intros Hd Hv. unfold argb4_colour. change (Z.lor 0x10 0x40) with 0x50.
  destruct (Z.ltb_spec v 0x50).
  - destruct (palette16_entry (v - 0x40)) as (_ & Hget & Hr); [lia|].
    replace (v - 0x40 + 0x40) with v in Hget by lia. auto.
  - destruct (v =? Z.lor CUCUL_DEFAULT 0x40).
    + destruct (palette16_entry dflt Hd) as (Hget & _ & Hr). auto.
    + destruct (v =? Z.lor CUCUL_TRANSPARENT 0x40).
      * split; [reflexivity|lia].
      * destruct (truecolor_argb16_range v) as [-> Hr]. auto.
Qed.

(** Amended C8: for a 32-bit attribute whose two colour fields are at
    least 0x40, _cucul_attr_to_argb4 writes the background colour to
    argb[0..3] and the foreground colour to argb[4..7], each as the
    nibbles A, R, G, B; a raw palette value is looked up in ansitab16, the
    default colour is light gray in the foreground and black in the
    background, the transparent colour is 0x0fff in both, and any other
    value v becomes ((v << 2) & 0xf000) | ((v << 1) & 0x0fff). *)
Theorem attr_to_argb4_emits (attr : Z) :
  0 <= CUCUL_BLACK < 16 -> 0 <= CUCUL_LIGHTGRAY < 16 ->
  0 <= attr < 2 ^ 32 ->
  0x40 <= fg_field attr -> 0x40 <= bg_field attr ->
  _cucul_attr_to_argb4 attr = Some (argb4_emitted attr).
Proof.
  intros Hblack Hgray Ha Hfg Hbg.
  unfold _cucul_attr_to_argb4, argb4_emitted.
  rewrite fg_field_32, bg_field_32 by assumption.
  destruct (argb4_branching CUCUL_BLACK (bg_field attr) Hblack Hbg) as [-> Hrb].
  destruct (argb4_branching CUCUL_LIGHTGRAY (fg_field attr) Hgray Hfg) as [-> Hrf].
  cbn [mbind option_bind].
  now rewrite !argb_nibbles_msb_first by assumption.
Qed.

End Argb4_properties.

(** * The model on concrete inputs, with the constants of libcucul *)

Section Concrete.
Existing Instance libcucul_headers.

(** C1, on the code: cucul_putattr does not store its [attr] argument.
    On the one-cell canvas, whose cell holds 0x1000470, putting 0x1000410
    (blue on black) returns 0 and leaves the cell at 0x1000470. *)
Lemma putattr_does_not_store :
  cucul_putattr one_cell 0 0 0x1000410 = Some (0, one_cell) /\
  cucul_get_attr (st_cv one_cell) 0 0 = Some 0x1000470.
Proof. split; reflexivity. Qed.

(** C2, on the code: putting the style value 0x01 on the same cell
    returns 0 and leaves the cell at 0x1000470, where the merge of the
    style onto the cell's colours is 0x1000471. *)
Lemma putattr_does_not_merge_style :
  cucul_putattr one_cell 0 0 0x01 = Some (0, one_cell) /\
  cucul_get_attr (st_cv one_cell) 0 0 = Some 0x1000470 /\
  Z.lor (Z.land 0x1000470 0xfffffff0) 0x01 = 0x1000471.
Proof. repeat split; reflexivity. Qed.

(** C7, on the code: after cucul_set_color_argb with opaque black
    (0xf000) as both colours the current attribute is 0xe0038000, both
    fields being 0x3800, which nearest_ansi quantizes to black; the
    background conversion returns black and _cucul_attr_to_ansi8 black on
    black, the foreground conversion returns the transparent colour, as it
    reads bits 4 to 15 only. *)
Lemma ansi_fg_drops_high_bits :
  curattr (st_cv (snd (cucul_set_color_argb one_cell 0xf000 0xf000))) = 0xe0038000 /\
  fg_field 0xe0038000 = 0x3800 /\ bg_field 0xe0038000 = 0x3800 /\
  nearest_ansi 0x3800 = CUCUL_BLACK /\
  cucul_attr_to_ansi_bg 0xe0038000 = CUCUL_BLACK /\
  _cucul_attr_to_ansi8 0xe0038000 = Z.lor CUCUL_BLACK (Z.shiftl CUCUL_BLACK 4) /\
  cucul_attr_to_ansi_fg 0xe0038000 = CUCUL_TRANSPARENT.
Proof. repeat split; vm_compute; reflexivity. Qed.

(** C4 as stated fails: with the third channel read as the lowest bit
    shifted left by one, 0x3804 is at distance 0 from palette entry 0 and
    at distance 4 from entry 1, and nearest_ansi returns 1. *)
Lemma nearest_ansi_not_lowest_bit :
  0x50 <= 0x3804 < 2 ^ 14 /\ 0x0fff <= 0x3804 /\
  0x3804 <> Z.lor CUCUL_DEFAULT 0x40 /\ 0x3804 <> Z.lor CUCUL_TRANSPARENT 0x40 /\
  nearest_ansi 0x3804 = 1 /\
  ~ nearest_index channel_low1 0x3804 (nearest_ansi 0x3804).
Proof.
  split; [lia|]. split; [lia|]. split; [discriminate|]. split; [discriminate|].
  assert (E : nearest_ansi 0x3804 = 1) by (vm_compute; reflexivity).
  rewrite E. split; [reflexivity|].
  intros (_ & _ & Hlow). specialize (Hlow 0 ltac:(lia)).
  vm_compute in Hlow. discriminate.
Qed.

(** C8 as stated fails: the attribute 0x1800600 has the transparent
    colour in both fields; _cucul_attr_to_argb4 emits 0, f, f, f for both
    groups, not the black and the light gray of the RGB12 conversions. *)
Lemma argb4_transparent_not_like_rgb12 :
  0 <= 0x1800600 < 2 ^ 32 /\
  fg_field 0x1800600 = Z.lor CUCUL_TRANSPARENT 0x40 /\
  bg_field 0x1800600 = Z.lor CUCUL_TRANSPARENT 0x40 /\
  _cucul_attr_to_argb4 0x1800600 = Some [0; 15; 15; 15; 0; 15; 15; 15] /\
  argb4_like_rgb12 0x1800600 = [15; 0; 0; 0; 15; 10; 10; 10] /\
  _cucul_attr_to_argb4 0x1800600 <> Some (argb4_like_rgb12 0x1800600) /\
  _cucul_attr_to_rgb12bg 0x1800600 = Some 0x000 /\
  _cucul_attr_to_rgb12fg 0x1800600 = Some 0xaaa.
Proof.
  split; [lia|]. repeat split; try (vm_compute; reflexivity).
  vm_compute. discriminate.
Qed.

(** A field below 0x40 makes _cucul_attr_to_argb4 read ansitab16 past its
    16 entries: the attribute 0 indexes entry 0x40. *)
Lemma argb4_raw_field_outside_palette :
  fg_field 0 = 0 /\ bg_field 0 = 0 /\ Z.lxor 0 0x40 = 0x40 /\
  _cucul_attr_to_argb4 0 = None.
Proof. repeat split; reflexivity. Qed.

(** C10 as stated fails: the foreground field of 0x100 is 0x10, below
    0x40, and cucul_attr_to_ansi_fg returns 0x50, above 0x4f. *)
Lemma ansi_of_raw_field_above_0x4f :
  fg_field 0x100 = 0x10 /\ fg_field 0x100 < 0x40 /\
  cucul_attr_to_ansi_fg 0x100 = 0x50 /\
  ~ 0x40 <= cucul_attr_to_ansi_fg 0x100 <= 0x4f.
Proof.
  split; [reflexivity|]. split; [reflexivity|]. split; [reflexivity|].
  vm_compute. intros [_ Hle]. apply Hle. reflexivity.
Qed.

(** ** The theorems at concrete inputs *)

(** C3 at 0x09 over 0x01 on the one-cell canvas. *)
Lemma ansi_round_trip_witness :
  (0 <= 0x09 <= 0x20 /\ 0 <= 0x01 <= 0x20) /\
  exists s',
    cucul_set_color_ansi one_cell 0x09 0x01 = (0, s') /\
    cucul_attr_to_ansi_fg (curattr (st_cv s')) = 0x09 /\
    cucul_attr_to_ansi_bg (curattr (st_cv s')) = 0x01.
Proof.
  split; [lia|].
  destruct (ansi_round_trip one_cell 0x09 0x01 ltac:(lia) ltac:(lia))
    as (s' & Hset & _ & _ & _ & _ & Hrt).
  exists s'. split; [exact Hset|]. apply Hrt; reflexivity.
Defined.

(** Amended C4 at 0x3804, which is quantized, and at 0x51, which is too
    transparent. *)
Lemma nearest_ansi_quantizes_witness :
  (0x50 <= 0x3804 /\ 0x0fff <= 0x3804 /\ 0x50 <= 0x51 < 0x0fff) /\
  nearest_index channel_low3 0x3804 (nearest_ansi 0x3804) /\
  nearest_ansi 0x51 = CUCUL_TRANSPARENT.
Proof.
  split; [lia|]. split.
  - destruct (nearest_ansi_quantizes 0x3804) as [Hq _].
    + change (0 <= 0x20 < 2 ^ 8). lia.
    + lia.
    + discriminate.
    + discriminate.
    + apply Hq. lia.
  - destruct (nearest_ansi_quantizes 0x51) as [_ Ht].
    + change (0 <= 0x20 < 2 ^ 8). lia.
    + lia.
    + discriminate.
    + discriminate.
    + apply Ht. lia.
Defined.

(** C5 on the one-cell canvas, one rejected call for each function. *)
Lemma invalid_argument_witness :
  (exists s', cucul_set_attr one_cell 0x100000000 = (-1, s')
              /\ st_errno s' = EINVAL /\ st_cv s' = st_cv one_cell) /\
  (exists s', cucul_putattr one_cell 0 0 0x100000000 = Some (-1, s')
              /\ st_errno s' = EINVAL /\ st_cv s' = st_cv one_cell) /\
  (exists s', cucul_set_color_ansi one_cell 0x21 0x00 = (-1, s')
              /\ st_errno s' = EINVAL /\ st_cv s' = st_cv one_cell) /\
  (exists s', cucul_set_color_argb one_cell 0x0fff 0x10000 = (-1, s')
              /\ st_errno s' = EINVAL /\ st_cv s' = st_cv one_cell).
Proof.
  destruct (invalid_argument_leaves_canvas one_cell) as (H1 & H2 & H3 & H4).
  split; [apply H1; lia|]. split; [apply H2; lia|].
  split; [apply H3; left; lia|]. apply H4. right. lia.
Defined.

(** C6 at (3, 0), right of the three columns of the canvas. *)
Lemma out_of_bounds_witness :
  3 >= width (st_cv wide_row) /\
  cucul_get_attr (st_cv wide_row) 3 0 = Some (curattr (st_cv wide_row)) /\
  forall attr, 0 <= attr < 2 ^ 32 ->
    cucul_putattr wide_row 3 0 attr = Some (0, wide_row).
Proof.
  split; [cbn; lia|].
  apply out_of_bounds_is_silent.
  - unfold canvas_typed. cbn. lia.
  - right. left. cbn. lia.
Defined.



(** Amended C8 at light gray on black. *)
Lemma attr_to_argb4_witness :
  (0 <= 0x1000470 < 2 ^ 32 /\ 0x40 <= fg_field 0x1000470
   /\ 0x40 <= bg_field 0x1000470) /\
  _cucul_attr_to_argb4 0x1000470 = Some (argb4_emitted 0x1000470) /\
  argb4_emitted 0x1000470 = [15; 0; 0; 0; 15; 10; 10; 10].
Proof.
  assert (Hf : 0x40 <= fg_field 0x1000470) by (apply Z.leb_le; reflexivity).
  assert (Hb : 0x40 <= bg_field 0x1000470) by (apply Z.leb_le; reflexivity).
  split; [split; [lia|split; assumption]|]. split; [|reflexivity].
  apply attr_to_argb4_emits; try assumption.
  - change (0 <= 0x00 < 16). lia.
  - change (0 <= 0x07 < 16). lia.
  - lia.
Defined.

(** Amended C10 at 0x100, whose fields are 0x10 and 0. *)
Lemma ansi_of_raw_field_witness :
  (fg_field 0x100 < 0x40 /\ 0 <= 0x100 < 2 ^ 32 /\ bg_field 0x100 < 0x40) /\
  cucul_attr_to_ansi_fg 0x100 = Z.lor (fg_field 0x100) 0x40 /\
  cucul_attr_to_ansi_bg 0x100 = Z.lor (bg_field 0x100) 0x40.
Proof.
  assert (Hf : fg_field 0x100 < 0x40) by reflexivity.
  assert (Hb : bg_field 0x100 < 0x40) by reflexivity.
  split; [split; [assumption|split; [lia|assumption]]|].
  destruct (ansi_of_raw_field 0x100) as [Hfg Hbg].
  - change (0x10 <= 0x20). lia.
  - change (0x20 <= 0x20). lia.
  - split.
    + destruct (Hfg Hf) as [E _]. exact E.
    + destruct (Hbg ltac:(lia) Hb) as [E _]. exact E.
Defined.

End Concrete.

(** * Further properties of the attribute functions *)

(** ** The layout of a packed attribute *)

(** Bits set in disjoint ranges add up. *)
Lemma lor_disjoint (a b n : Z) :
  0 <= n -> 0 <= b < 2 ^ n -> Z.lor (a * 2 ^ n) b = a * 2 ^ n + b.
Proof.
  intros Hn Hb.
  assert (Hl : Z.land (a * 2 ^ n) b = 0).
  { apply Z.bits_inj'. intros i Hi. rewrite Z.land_spec, Z.bits_0.
    destruct (Z.lt_ge_cases i n).
    - now rewrite Z.mul_pow2_bits_low by lia.
    - rewrite <- (Z.mod_small b (2 ^ n)) by lia.
      rewrite Z.mod_pow2_bits_high by lia. apply andb_false_r. }
  rewrite <- Z.lxor_lor by exact Hl. symmetry. now apply Z.add_nocarry_lxor.
Qed.

(** Style bits [st], a foreground field [f] and a background field [b]
    put together as the colour setters do. *)
Lemma attr_layout (st f b : Z) :
  0 <= st < 16 -> 0 <= f < 2 ^ 14 -> 0 <= b < 2 ^ 14 ->
  Z.lor st (Z.lor (to_uint32 (Z.shiftl b 18)) (to_uint32 (Z.shiftl f 4)))
  = st + f * 2 ^ 4 + b * 2 ^ 18.
Proof.
  intros Hst Hf Hb. rewrite !Z.shiftl_mul_pow2 by lia.
  rewrite !to_uint32_small by lia.
  rewrite lor_disjoint by lia.
  replace (b * 2 ^ 18 + f * 2 ^ 4) with ((b * 2 ^ 14 + f) * 2 ^ 4) by lia.
  rewrite Z.lor_comm, lor_disjoint by lia. lia.
Qed.

(** The three parts read back from the sum. *)
Lemma attr_layout_fields (st f b : Z) :
  0 <= st < 16 -> 0 <= f < 2 ^ 14 -> 0 <= b < 2 ^ 14 ->
  let a := st + f * 2 ^ 4 + b * 2 ^ 18 in
  0 <= a < 2 ^ 32 /\ Z.land a 0xf = st /\ fg_field a = f /\ bg_field a = b.
Proof.
  intros Hst Hf Hb a. unfold a.
  rewrite land_0xf, fg_field_div, bg_field_div.
  change (2 ^ 4) with 16. change (2 ^ 14) with 16384 in *.
  change (2 ^ 18) with 262144. change (2 ^ 32) with 4294967296.
  repeat split; try lia; Z.div_mod_to_equations; lia.
Qed.

(** A 32-bit attribute is its style bits and its two fields. *)
Lemma attr_decompose (a : Z) :
  0 <= a < 2 ^ 32 ->
  a = Z.land a 0xf + fg_field a * 2 ^ 4 + bg_field a * 2 ^ 18.
Proof.
  intros Ha. rewrite land_0xf, fg_field_div, bg_field_div.
  change (2 ^ 4) with 16. change (2 ^ 14) with 16384.
  change (2 ^ 18) with 262144. change (2 ^ 32) with 4294967296 in Ha.
  Z.div_mod_to_equations. lia.
Qed.

(** Clearing the style bits of a 32-bit attribute. *)
Lemma land_colour_mask (a : Z) :
  0 <= a < 2 ^ 32 -> Z.land a 0xfffffff0 = (a / 2 ^ 4) * 2 ^ 4.
Proof.
  intros Ha.
  assert (Hsum : Z.land a 0xfffffff0 + Z.land a 0xf = a).
  { rewrite <- Z.add_lor_land.
    rewrite <- Z.land_lor_distr_r, <- Z.land_assoc, (Z.land_comm 0xfffffff0).
    rewrite <- Z.land_assoc.
    change (Z.lor 0xfffffff0 0xf) with (Z.ones 32).
    change (Z.land 0xf 0xfffffff0) with 0.
    rewrite Z.land_ones, !Z.land_0_r, Z.mod_small by lia. lia. }
  rewrite land_0xf in Hsum. change (2 ^ 4) with 16 in *.
  Z.div_mod_to_equations. lia.
Qed.

Lemma land_0x7ff (z : Z) : Z.land z 0x7ff = z mod 2 ^ 11.
Proof. change 0x7ff with (Z.ones 11). apply Z.land_ones. lia. Qed.

Lemma argb16_to_14_stored (n : Z) :
  0 <= n <= 0xffff ->
  argb16_to_14 n = (n / 2 ^ 13) * 2 ^ 11 + (n / 2) mod 2 ^ 11 /\
  0 <= argb16_to_14 n < 2 ^ 14.
Proof.
  intros Hn. unfold argb16_to_14.
  rewrite land_0x7ff, Z.shiftl_mul_pow2, !Z.shiftr_div_pow2 by lia.
  change (2 ^ 1) with 2.
  pose proof (Z.mod_pos_bound (n / 2) (2 ^ 11) ltac:(lia)) as Hm.
  rewrite Z.lor_comm, lor_disjoint by lia. split; [reflexivity|].
  change (2 ^ 13) with 8192. change (2 ^ 11) with 2048 in *.
  change (2 ^ 14) with 16384.
  Z.div_mod_to_equations. lia.
Qed.

Lemma argb16_to_14_stored_range (n : Z) :
  0 <= n <= 0xffff -> 0 <= (n / 2 ^ 13) * 2 ^ 11 + (n / 2) mod 2 ^ 11 < 2 ^ 14.
Proof.
  intros Hn. change (2 ^ 13) with 8192. change (2 ^ 11) with 2048.
  change (2 ^ 14) with 16384. Z.div_mod_to_equations. lia.
Qed.

Section Setter_properties.
Context `{H : headers}.

(** X1: cucul_set_attr with an attribute from 0x10 up to 0xffffffff
    succeeds and makes it the current attribute, which
    cucul_get_attr(-1, -1) then returns; the cells and errno are as
    before. *)
Theorem set_attr_then_get (s : state) (attr : Z) :
  0x10 <= attr <= 0xffffffff ->
  exists s',
    cucul_set_attr s attr = (0, s') /\
    cucul_get_attr (st_cv s') (-1) (-1) = Some attr /\
    same_cells s s'.
Proof.
  intros Ha. eexists. unfold cucul_set_attr.
  rewrite attr_too_large_false by lia.
  destruct (Z.ltb_spec attr 0x00000010); [lia|].
  rewrite to_uint32_small by lia.
  split; [reflexivity|]. split; [reflexivity|].
  unfold same_cells. cbn. auto.
Qed.

(** X2: cucul_set_attr with a style value below 0x10 keeps both colour
    fields of the current attribute and replaces its four style bits by
    the value; the cells and errno are as before. *)
Theorem set_attr_style_keeps_colours (s : state) (attr : Z) :
  0 <= attr < 0x10 -> 0 <= curattr (st_cv s) < 2 ^ 32 ->
  exists s',
    cucul_set_attr s attr = (0, s') /\
    0 <= curattr (st_cv s') < 2 ^ 32 /\
    Z.land (curattr (st_cv s')) 0xf = attr /\
    fg_field (curattr (st_cv s')) = fg_field (curattr (st_cv s)) /\
    bg_field (curattr (st_cv s')) = bg_field (curattr (st_cv s)) /\
    same_cells s s'.
Proof.
  intros Ha Hc. set (c := curattr (st_cv s)) in *.
  pose proof (fg_field_range c) as Hf. pose proof (bg_field_range c) as Hb.
  assert (Hnew : Z.lor (Z.land c 0xfffffff0) attr
                 = attr + fg_field c * 2 ^ 4 + bg_field c * 2 ^ 18).
  { rewrite land_colour_mask by assumption.
    rewrite lor_disjoint by lia.
    pose proof (attr_decompose c Hc) as Hd. rewrite land_0xf in Hd.
    change (2 ^ 4) with 16 in *. Z.div_mod_to_equations. lia. }
  destruct (attr_layout_fields attr (fg_field c) (bg_field c))
    as (Hr & Hst & Hfg & Hbg); try lia.
  eexists. unfold cucul_set_attr.
  rewrite attr_too_large_false by lia.
  destruct (Z.ltb_spec attr 0x00000010); [|lia].
  fold c. rewrite Hnew. rewrite to_uint32_small by exact Hr.
  split; [reflexivity|]. cbn [st_cv set_curattr curattr].
  repeat (split; [assumption|]). unfold same_cells. cbn. auto.
Qed.

(** X3: after a successful cucul_set_color_ansi the current attribute is
    a 32-bit value whose foreground field is fg + 0x40, whose background
    field is bg + 0x40 and whose style bits are the previous ones; the
    cells and errno are as before. *)
Theorem set_color_ansi_layout (s : state) (fg bg : Z) :
  0 <= fg <= 0x20 -> 0 <= bg <= 0x20 ->
  exists s',
    cucul_set_color_ansi s fg bg = (0, s') /\
    0 <= curattr (st_cv s') < 2 ^ 32 /\
    Z.land (curattr (st_cv s')) 0xf = Z.land (curattr (st_cv s)) 0xf /\
    fg_field (curattr (st_cv s')) = fg + 0x40 /\
    bg_field (curattr (st_cv s')) = bg + 0x40 /\
    same_cells s s'.
Proof.
  intros Hfg Hbg. eexists. unfold cucul_set_color_ansi.
  destruct (Z.gtb_spec fg 0x20); [lia|]. destruct (Z.gtb_spec bg 0x20); [lia|].
  cbn [orb]. split; [reflexivity|]. cbn [st_cv set_curattr curattr].
  destruct (raw_offset fg ltac:(lia)) as (_ & -> & _).
  destruct (raw_offset bg ltac:(lia)) as (_ & -> & _).
  pose proof (style_bits_range (curattr (st_cv s))) as Hst.
  rewrite attr_layout by lia.
  destruct (attr_layout_fields (Z.land (curattr (st_cv s)) 0xf)
              (fg + 0x40) (bg + 0x40)) as (Hr & Hs & Hf & Hb); try lia.
  repeat (split; [assumption|]). unfold same_cells. cbn. auto.
Qed.

(** X4: after a successful cucul_set_color_argb the current attribute is
    a 32-bit value whose fields are the stored forms of the two colours
    (0x100 added to a colour below 0x100, then the three high alpha bits
    over bits 1 to 11) and whose style bits are the previous ones; the
    cells and errno are as before. *)
Theorem set_color_argb_layout (s : state) (fg bg : Z) :
  0 <= fg <= 0xffff -> 0 <= bg <= 0xffff ->
  exists s',
    cucul_set_color_argb s fg bg = (0, s') /\
    0 <= curattr (st_cv s') < 2 ^ 32 /\
    Z.land (curattr (st_cv s')) 0xf = Z.land (curattr (st_cv s)) 0xf /\
    fg_field (curattr (st_cv s')) = stored_argb fg /\
    bg_field (curattr (st_cv s')) = stored_argb bg /\
    same_cells s s'.
Proof.
  intros Hfg Hbg. eexists. unfold cucul_set_color_argb.
  destruct (Z.gtb_spec fg 0xffff); [lia|]. destruct (Z.gtb_spec bg 0xffff); [lia|].
  cbn [orb]. split; [reflexivity|]. cbn [st_cv set_curattr curattr].
  assert (Hn : forall c, 0 <= c <= 0xffff ->
            argb16_to_14 (if c <? 0x100 then to_uint32 (c + 0x100) else c)
            = stored_argb c /\ 0 <= stored_argb c < 2 ^ 14).
  { intros c Hc. unfold stored_argb.
    destruct (Z.ltb_spec c 0x100).
    - rewrite to_uint32_small by lia.
      destruct (argb16_to_14_stored (c + 0x100)) as [-> Hr]; [lia|]. auto.
    - destruct (argb16_to_14_stored c) as [-> Hr]; [lia|]. auto. }
  destruct (Hn fg Hfg) as [-> Hrf]. destruct (Hn bg Hbg) as [-> Hrb].
  pose proof (style_bits_range (curattr (st_cv s))) as Hst.
  rewrite attr_layout by lia.
  destruct (attr_layout_fields (Z.land (curattr (st_cv s)) 0xf)
              (stored_argb fg) (stored_argb bg)) as (Hr & Hs & Hf & Hb); try lia.
  repeat (split; [assumption|]). unfold same_cells. cbn. auto.
Qed.

End Setter_properties.

(** ** The conversions read the colour fields only *)

Lemma ansi_fg_argument_field (a : Z) :
  to_uint16 (Z.land (Z.shiftr (to_uint16 a) 4) 0x3fff) = fg_field a mod 2 ^ 12.
Proof.
  rewrite ansi_fg_argument, fg_field_div.
  change (2 ^ 4) with 16. change (2 ^ 12) with 4096. change (2 ^ 14) with 16384.
  Z.div_mod_to_equations. lia.
Qed.

Section Field_properties.
Context `{H : headers}.

(** X5: two 32-bit attributes with the same foreground and background
    fields, whatever their style bits, are converted alike by each of the
    conversions to ANSI, RGB12, RGB24 and ARGB4. *)
Theorem conversions_read_fields (a b : Z) :
  0 <= a < 2 ^ 32 -> 0 <= b < 2 ^ 32 ->
  fg_field a = fg_field b -> bg_field a = bg_field b ->
  cucul_attr_to_ansi_fg a = cucul_attr_to_ansi_fg b /\
  cucul_attr_to_ansi_bg a = cucul_attr_to_ansi_bg b /\
  _cucul_attr_to_ansi8 a = _cucul_attr_to_ansi8 b /\
  _cucul_attr_to_rgb12fg a = _cucul_attr_to_rgb12fg b /\
  _cucul_attr_to_rgb12bg a = _cucul_attr_to_rgb12bg b /\
  _cucul_attr_to_rgb24fg a = _cucul_attr_to_rgb24fg b /\
  _cucul_attr_to_rgb24bg a = _cucul_attr_to_rgb24bg b /\
  _cucul_attr_to_argb4 a = _cucul_attr_to_argb4 b.
Proof.
  intros Ha Hb Hf Hg.
  unfold cucul_attr_to_ansi_fg, cucul_attr_to_ansi_bg, _cucul_attr_to_ansi8,
    _cucul_attr_to_rgb24fg, _cucul_attr_to_rgb24bg,
    _cucul_attr_to_rgb12fg, _cucul_attr_to_rgb12bg, _cucul_attr_to_argb4.
  rewrite !ansi_fg_argument_field, !fg_field_32, !bg_field_32 by assumption.
  rewrite Hf, Hg. repeat split; reflexivity.
Qed.

Lemma sentinel_offset (c : Z) :
  0 <= c < 0x40 ->
  Z.lor c 0x40 = c + 0x40 /\ to_uint8 (Z.lxor (Z.lor c 0x40) 0x40) = c.
Proof.
  intros Hc. destruct (raw_offset c Hc) as (_ & Hlor & Hback).
  rewrite Hlor. auto.
Qed.

Lemma nearest_scan_cons (c i : Z) (l : list Z) (st : Z * Z) :
  nearest_scan c (i :: l) st = nearest_scan c l (nearest_step c st i).
Proof. reflexivity. Qed.

Lemma palette_indices_cons : palette_indices = 0 :: map Z.of_nat (seq 1 15).
Proof. reflexivity. Qed.

(** The first iteration of the loop always replaces the initial pair, so
    the initial [best] does not matter. *)
Lemma nearest_scan_start (c b : Z) :
  nearest_scan c palette_indices (b, 0x3fff)
  = nearest_scan c palette_indices (0, 0x3fff).
Proof.
  assert (Hstep : nearest_step c (b, 0x3fff) 0 = nearest_step c (0, 0x3fff) 0).
  { pose proof (ansi_distance_squared (nth (Z.to_nat 0) ansitab14 0) c) as [_ Hd].
    fold (entry_distance c 0) in Hd. unfold nearest_step, snd.
    generalize dependent (entry_distance c 0). intros d Hd.
    destruct (Z.ltb_spec d 0x3fff); [reflexivity|lia]. }
  rewrite palette_indices_cons, !nearest_scan_cons. now rewrite Hstep.
Qed.

(** nearest_ansi on a field that carries the 0x40 offset, case by case. *)
Lemma nearest_ansi_cases (v : Z) :
  colours_ok -> 0x40 <= v ->
  (v < 0x50 /\ nearest_ansi v = v - 0x40) \/
  (v = CUCUL_DEFAULT + 0x40 /\ nearest_ansi v = CUCUL_DEFAULT) \/
  (v = CUCUL_TRANSPARENT + 0x40 /\ nearest_ansi v = CUCUL_TRANSPARENT) \/
  (0x50 <= v < 0x0fff /\ nearest_ansi v = CUCUL_TRANSPARENT) \/
  (0x0fff <= v /\ 0 <= nearest_ansi v < 16 /\
   nearest_ansi v = fst (nearest_scan v palette_indices (0, 0x3fff))).
Proof.
  intros (_ & _ & Hd & Ht) Hv. unfold nearest_ansi.
  destruct (sentinel_offset CUCUL_DEFAULT) as [Hdl Hdx]; [lia|].
  destruct (sentinel_offset CUCUL_TRANSPARENT) as [Htl Htx]; [lia|].
  change (Z.lor 0x10 0x40) with 0x50.
  destruct (Z.ltb_spec v 0x50).
  - left. split; [assumption|].
    destruct (raw_offset (v - 0x40) ltac:(lia)) as (_ & _ & Hback).
    now replace (v - 0x40 + 0x40) with v in Hback by lia.
  - destruct (Z.eqb_spec v (Z.lor CUCUL_DEFAULT 0x40)) as [->|Hnd].
    { right. left. cbn [orb]. split; [assumption|]. exact Hdx. }
    destruct (Z.eqb_spec v (Z.lor CUCUL_TRANSPARENT 0x40)) as [->|Hnt].
    { right. right. left. cbn [orb]. split; [assumption|]. exact Htx. }
    cbn [orb]. destruct (Z.ltb_spec v 0x0fff).
    + right. right. right. left. split; [lia|]. apply to_uint8_small. lia.
    + right. right. right. right. split; [assumption|].
      pose proof (nearest_scan_nearest v) as (Hi & _).
      rewrite to_uint8_small by lia. split; [exact Hi|].
      now rewrite nearest_scan_start.
Qed.

(** X6: on a field that carries the 0x40 offset nearest_ansi returns one
    of the 16 palette indices, the default colour or the transparent
    colour, and nothing else. *)
Theorem nearest_ansi_range (v : Z) :
  colours_ok -> 0x40 <= v ->
  0 <= nearest_ansi v < 16 \/
  nearest_ansi v = CUCUL_DEFAULT \/ nearest_ansi v = CUCUL_TRANSPARENT.
Proof.
  intros Hok Hv.
  destruct (nearest_ansi_cases v Hok Hv)
    as [[? ->]|[[? ->]|[[? ->]|[[? ->]|(? & ? & ?)]]]]; auto.
  left. lia.
Qed.

(** The replacement _cucul_attr_to_ansi8 makes on a quantized field. *)
Lemma ansi8_pick (v dflt : Z) :
  colours_ok -> 0x40 <= v -> 0 <= dflt < 16 ->
  let n := nearest_ansi v in
  (if (n =? CUCUL_DEFAULT) || (n =? CUCUL_TRANSPARENT)
   then to_uint8 dflt else n)
  = (if n <? 16 then n else dflt)
  /\ 0 <= (if n <? 16 then n else dflt) < 16.
Proof.
  intros Hok Hv Hdf n. unfold n. pose proof Hok as (_ & _ & Hd & Ht).
  rewrite (to_uint8_small dflt) by lia.
  assert (Hrange : 0 <= nearest_ansi v < 16 \/ nearest_ansi v = CUCUL_DEFAULT
                   \/ nearest_ansi v = CUCUL_TRANSPARENT).
  { destruct (nearest_ansi_cases v Hok Hv)
      as [[? ->]|[[? ->]|[[? ->]|[[? ->]|(? & ? & ?)]]]]; auto.
    left. lia. }
  destruct Hrange as [Hn|[Hn|Hn]].
  - destruct (Z.ltb_spec (nearest_ansi v) 16); [|lia].
    destruct (Z.eqb_spec (nearest_ansi v) CUCUL_DEFAULT); [lia|].
    destruct (Z.eqb_spec (nearest_ansi v) CUCUL_TRANSPARENT); [lia|].
    cbn [orb]. lia.
  - rewrite Hn, Z.eqb_refl. cbn [orb].
    destruct (Z.ltb_spec CUCUL_DEFAULT 16); lia.
  - rewrite Hn, Z.eqb_refl, orb_true_r.
    destruct (Z.ltb_spec CUCUL_TRANSPARENT 16); lia.
Qed.

(** Two palette indices packed into a byte. *)
Lemma ansi8_pack (f b : Z) :
  0 <= f < 16 -> 0 <= b < 16 -> to_uint8 (Z.lor f (Z.shiftl b 4)) = f + 16 * b.
Proof.
  intros Hf Hb. rewrite Z.shiftl_mul_pow2 by lia.
  rewrite Z.lor_comm, lor_disjoint by lia.
  rewrite to_uint8_small by lia. lia.
Qed.

(** X7: for a 32-bit attribute whose fields carry the 0x40 offset,
    _cucul_attr_to_ansi8 returns fg + 16 * bg where fg and bg are the
    quantized fields, with light gray in place of a default or transparent
    foreground and black in place of a default or transparent background:
    both nibbles are palette indices. *)
Theorem attr_to_ansi8_nibbles (attr : Z) :
  colours_ok -> 0 <= attr < 2 ^ 32 ->
  0x40 <= fg_field attr -> 0x40 <= bg_field attr ->
  let nf := nearest_ansi (fg_field attr) in
  let nb := nearest_ansi (bg_field attr) in
  let fg := if nf <? 16 then nf else CUCUL_LIGHTGRAY in
  let bg := if nb <? 16 then nb else CUCUL_BLACK in
  _cucul_attr_to_ansi8 attr = fg + 16 * bg /\ 0 <= fg < 16 /\ 0 <= bg < 16.
Proof.
  intros Hok Ha Hf Hb nf nb fg bg.
  pose proof Hok as (Hblack & Hgray & _).
  unfold _cucul_attr_to_ansi8.
  rewrite fg_field_32, bg_field_32 by assumption.
  destruct (ansi8_pick (fg_field attr) CUCUL_LIGHTGRAY Hok Hf Hgray) as [-> Hrf].
  destruct (ansi8_pick (bg_field attr) CUCUL_BLACK Hok Hb Hblack) as [-> Hrb].
  fold nf nb fg bg in Hrf, Hrb |- *.
  rewrite ansi8_pack by assumption. auto.
Qed.

End Field_properties.

(** ** The two palette tables and the setters *)

Lemma palette_facts (i : Z) :
  0 <= i < 16 ->
  0 <= palette16 i <= 0xffff /\
  stored_argb (palette16 i) = palette14 i /\
  0x0fff <= palette14 i < 2 ^ 14 /\
  fst (nearest_scan (palette14 i) palette_indices (0, 0x3fff)) = i.
Proof.
  intros Hi.
  pose proof (forall_below 16
    (fun i => (0 <=? palette16 i) && (palette16 i <=? 0xffff)
              && (stored_argb (palette16 i) =? palette14 i)
              && (0x0fff <=? palette14 i) && (palette14 i <? 2 ^ 14)
              && (fst (nearest_scan (palette14 i) palette_indices (0, 0x3fff)) =? i))
    eq_refl i Hi) as Hb.
  cbv beta in Hb.
  rewrite !andb_true_iff, !Z.leb_le, !Z.eqb_eq, Z.ltb_lt in Hb. tauto.
Qed.

Section Palette_properties.
Context `{H : headers}.

Lemma set_color_ansi_sum (s : state) (fg bg : Z) :
  0 <= fg <= 0x20 -> 0 <= bg <= 0x20 ->
  cucul_set_color_ansi s fg bg =
  (0, set_curattr (Z.land (curattr (st_cv s)) 0xf
                   + (fg + 0x40) * 2 ^ 4 + (bg + 0x40) * 2 ^ 18) s).
Proof.
  intros Hfg Hbg. unfold cucul_set_color_ansi.
  destruct (Z.gtb_spec fg 0x20); [lia|]. destruct (Z.gtb_spec bg 0x20); [lia|].
  cbn [orb].
  destruct (raw_offset fg ltac:(lia)) as (_ & -> & _).
  destruct (raw_offset bg ltac:(lia)) as (_ & -> & _).
  pose proof (style_bits_range (curattr (st_cv s))) as Hst.
  now rewrite attr_layout by lia.
Qed.

Lemma stored_argb_range (c : Z) :
  0 <= c <= 0xffff ->
  argb16_to_14 (if c <? 0x100 then to_uint32 (c + 0x100) else c) = stored_argb c
  /\ 0 <= stored_argb c < 2 ^ 14.
Proof.
  intros Hc. unfold stored_argb. destruct (Z.ltb_spec c 0x100).
  - rewrite to_uint32_small by lia.
    destruct (argb16_to_14_stored (c + 0x100)) as [-> Hr]; [lia|]. auto.
  - destruct (argb16_to_14_stored c) as [-> Hr]; [lia|]. auto.
Qed.

Lemma set_color_argb_sum (s : state) (fg bg : Z) :
  0 <= fg <= 0xffff -> 0 <= bg <= 0xffff ->
  cucul_set_color_argb s fg bg =
  (0, set_curattr (Z.land (curattr (st_cv s)) 0xf
                   + stored_argb fg * 2 ^ 4 + stored_argb bg * 2 ^ 18) s).
Proof.
  intros Hfg Hbg. unfold cucul_set_color_argb.
  destruct (Z.gtb_spec fg 0xffff); [lia|]. destruct (Z.gtb_spec bg 0xffff); [lia|].
  cbn [orb].
  destruct (stored_argb_range fg Hfg) as [-> Hrf].
  destruct (stored_argb_range bg Hbg) as [-> Hrb].
  pose proof (style_bits_range (curattr (st_cv s))) as Hst.
  now rewrite attr_layout by lia.
Qed.

(** Each palette colour is quantized to its own index. *)
Lemma nearest_ansi_palette (i : Z) :
  colours_ok -> 0 <= i < 16 -> nearest_ansi (palette14 i) = i.
Proof.
  intros Hok Hi. destruct (palette_facts i Hi) as (_ & _ & Hr & Hscan).
  pose proof Hok as (_ & _ & Hd & Ht).
  destruct (nearest_ansi_cases (palette14 i) Hok ltac:(lia))
    as [[? ?]|[[? ?]|[[? ?]|[[? ?]|(_ & _ & Hn)]]]]; lia.
Qed.

(** _cucul_attr_to_ansi8 on a 32-bit attribute, in terms of its fields. *)
Lemma attr_to_ansi8_fields (attr : Z) :
  colours_ok -> 0 <= attr < 2 ^ 32 ->
  0x40 <= fg_field attr -> 0x40 <= bg_field attr ->
  _cucul_attr_to_ansi8 attr =
  (if nearest_ansi (fg_field attr) <? 16
   then nearest_ansi (fg_field attr) else CUCUL_LIGHTGRAY)
  + 16 * (if nearest_ansi (bg_field attr) <? 16
          then nearest_ansi (bg_field attr) else CUCUL_BLACK).
Proof.
  intros Hok Ha Hf Hb. pose proof Hok as (Hblack & Hgray & _).
  unfold _cucul_attr_to_ansi8.
  rewrite fg_field_32, bg_field_32 by assumption.
  destruct (ansi8_pick (fg_field attr) CUCUL_LIGHTGRAY Hok Hf Hgray) as [-> Hrf].
  destruct (ansi8_pick (bg_field attr) CUCUL_BLACK Hok Hb Hblack) as [-> Hrb].
  now rewrite ansi8_pack by assumption.
Qed.

(** X8: ansitab14 is ansitab16 in the 14-bit form cucul_set_color_argb
    stores, entry by entry, and nearest_ansi quantizes every entry of
    ansitab14 to its own index. *)
Theorem palette_tables_agree (i : Z) :
  colours_ok -> 0 <= i < 16 ->
  stored_argb (palette16 i) = palette14 i /\ nearest_ansi (palette14 i) = i.
Proof.
  intros Hok Hi. split.
  - apply palette_facts. exact Hi.
  - apply nearest_ansi_palette; assumption.
Qed.

(** X9: setting the colours of palette entries i and j of ansitab16 with
    cucul_set_color_argb makes _cucul_attr_to_ansi8 of the new current
    attribute i + 16 * j, and cucul_attr_to_ansi_bg return j. *)
Theorem argb_palette_to_ansi (s : state) (i j : Z) :
  colours_ok -> 0 <= i < 16 -> 0 <= j < 16 ->
  exists s',
    cucul_set_color_argb s (palette16 i) (palette16 j) = (0, s') /\
    _cucul_attr_to_ansi8 (curattr (st_cv s')) = i + 16 * j /\
    cucul_attr_to_ansi_bg (curattr (st_cv s')) = j.
Proof.
  intros Hok Hi Hj.
  destruct (palette_facts i Hi) as (Hir & His & Hi14 & _).
  destruct (palette_facts j Hj) as (Hjr & Hjs & Hj14 & _).
  eexists. split; [apply set_color_argb_sum; assumption|].
  cbn [st_cv set_curattr curattr]. rewrite His, Hjs.
  pose proof (style_bits_range (curattr (st_cv s))) as Hst.
  destruct (attr_layout_fields (Z.land (curattr (st_cv s)) 0xf)
              (palette14 i) (palette14 j)) as (Hr & _ & Hf & Hb); try lia.
  cbv zeta in Hr, Hf, Hb. split.
  - rewrite attr_to_ansi8_fields by (assumption || lia).
    rewrite Hf, Hb, !nearest_ansi_palette by assumption.
    destruct (Z.ltb_spec i 16); [|lia]. destruct (Z.ltb_spec j 16); [|lia].
    reflexivity.
  - unfold cucul_attr_to_ansi_bg. rewrite bg_field_32 by assumption.
    rewrite Hb. now apply nearest_ansi_palette.
Qed.

(** X10: after a successful cucul_set_color_ansi, _cucul_attr_to_ansi8 of
    the new current attribute is fg + 16 * bg, with light gray in place of
    a foreground that is not a palette index and black in place of such a
    background. *)
Theorem ansi_to_ansi8 (s : state) (fg bg : Z) :
  colours_ok -> 0 <= fg <= 0x20 -> 0 <= bg <= 0x20 ->
  exists s',
    cucul_set_color_ansi s fg bg = (0, s') /\
    _cucul_attr_to_ansi8 (curattr (st_cv s')) =
    (if fg <? 0x10 then fg else CUCUL_LIGHTGRAY)
    + 16 * (if bg <? 0x10 then bg else CUCUL_BLACK).
Proof.
  intros Hok Hfg Hbg. pose proof Hok as (_ & _ & Hd & Ht).
  eexists. split; [apply set_color_ansi_sum; assumption|].
  cbn [st_cv set_curattr curattr].
  pose proof (style_bits_range (curattr (st_cv s))) as Hst.
  destruct (attr_layout_fields (Z.land (curattr (st_cv s)) 0xf)
              (fg + 0x40) (bg + 0x40)) as (Hr & _ & Hf & Hb); try lia.
  cbv zeta in Hr, Hf, Hb.
  rewrite attr_to_ansi8_fields by (assumption || lia). rewrite Hf, Hb.
  assert (Hq : forall c, 0 <= c <= 0x20 ->
            (nearest_ansi (c + 0x40) <? 16) = (c <? 0x10) /\
            (c < 0x10 -> nearest_ansi (c + 0x40) = c)).
  { intros c Hc.
    destruct (nearest_ansi_cases (c + 0x40) Hok ltac:(lia))
      as [[? Hn]|[[? Hn]|[[? Hn]|[[? Hn]|(? & _ & _)]]]]; lia. }
  destruct (Hq fg Hfg) as [-> Hfv]. destruct (Hq bg Hbg) as [-> Hbv].
  destruct (Z.ltb_spec fg 0x10), (Z.ltb_spec bg 0x10);
    rewrite ?Hfv, ?Hbv by assumption; reflexivity.
Qed.

End Palette_properties.

(** ** RGB12, RGB24 and ARGB4 *)

Lemma forall_zrange (n : nat) (z0 : Z) (P : Z -> bool) :
  forallb P (zrange n z0) = true ->
  forall z, z0 <= z < z0 + Z.of_nat n -> P z = true.
Proof.
  revert z0. induction n as [|n IH]; intros z0 Hall z Hz; [lia|].
  cbn [zrange forallb] in Hall. apply andb_true_iff in Hall as [Hz0 Hrest].
  destruct (Z.eq_dec z z0) as [->|Hne]; [exact Hz0|].
  apply (IH (z0 + 1) Hrest). lia.
Qed.

Lemma land_0xfff (z : Z) : Z.land z 0x0fff = z mod 2 ^ 12.
Proof. change 0x0fff with (Z.ones 12). apply Z.land_ones. lia. Qed.

(** The low twelve bits of an up-converted field are the field shifted
    left by one. *)
Lemma truecolor_low12 (v : Z) :
  to_uint16 (Z.land (Z.shiftl v 1) 0x0fff) = truecolor_argb16 v mod 2 ^ 12.
Proof.
  unfold truecolor_argb16. rewrite <- (land_0xfff (Z.lor _ _)).
  rewrite Z.land_lor_distr_l, <- !Z.land_assoc.
  change (Z.land 0xf000 0x0fff) with 0. change (Z.land 0x0fff 0x0fff) with 0x0fff.
  rewrite Z.land_0_r, Z.lor_0_l. unfold to_uint16. apply Z.mod_small.
  rewrite land_0xfff. pose proof (Z.mod_pos_bound (Z.shiftl v 1) (2 ^ 12)). lia.
Qed.

(** The expansion of a 12-bit colour: each channel times 17. *)
Lemma RGB12TO24_channels (c : Z) :
  0 <= c < 2 ^ 12 ->
  RGB12TO24 c
  = 17 * ((c / 2 ^ 8) * 2 ^ 16 + (c / 2 ^ 4 mod 2 ^ 4) * 2 ^ 8 + c mod 2 ^ 4).
Proof.
  intros Hc.
  assert (Hall : forallb (fun c => RGB12TO24 c =?
            17 * ((c / 2 ^ 8) * 2 ^ 16 + (c / 2 ^ 4 mod 2 ^ 4) * 2 ^ 8 + c mod 2 ^ 4))
            (zrange (Z.to_nat (2 ^ 12)) 0) = true) by (vm_compute; reflexivity).
  pose proof (forall_zrange _ _ _ Hall c ltac:(lia)) as Hb. cbv beta in Hb.
  now apply Z.eqb_eq.
Qed.

Lemma land_0xf000 (z : Z) : Z.land z 0xf000 = (z / 2 ^ 12 mod 2 ^ 4) * 2 ^ 12.
Proof.
  assert (Hsum : Z.land z 0xf000 + Z.land z 0x0fff = Z.land z (Z.ones 16)).
  { rewrite <- Z.add_lor_land.
    rewrite <- Z.land_lor_distr_r, <- Z.land_assoc, (Z.land_comm 0xf000).
    rewrite <- Z.land_assoc.
    change (Z.lor 0xf000 0x0fff) with (Z.ones 16).
    change (Z.land 0x0fff 0xf000) with 0.
    rewrite !Z.land_0_r. lia. }
  rewrite land_0xfff, Z.land_ones in Hsum by lia.
  change (2 ^ 12) with 4096 in *. change (2 ^ 16) with 65536 in *.
  change (2 ^ 4) with 16. Z.div_mod_to_equations. lia.
Qed.

(** The up-conversion of a 14-bit field, arithmetically. *)
Lemma truecolor_argb16_sum (v : Z) :
  0 <= v < 2 ^ 14 ->
  truecolor_argb16 v = (v / 2 ^ 10) * 2 ^ 12 + (v mod 2 ^ 11) * 2.
Proof.
  intros Hv. unfold truecolor_argb16.
  rewrite land_0xf000, land_0xfff, !Z.shiftl_mul_pow2 by lia.
  pose proof (Z.mod_pos_bound (v * 2 ^ 1) (2 ^ 12) ltac:(lia)) as Hm.
  rewrite lor_disjoint by lia.
  change (2 ^ 14) with 16384 in *. change (2 ^ 12) with 4096 in *.
  change (2 ^ 10) with 1024. change (2 ^ 11) with 2048.
  change (2 ^ 4) with 16. change (2 ^ 2) with 4. change (2 ^ 1) with 2 in *.
  Z.div_mod_to_equations. lia.
Qed.

(** What cucul_set_color_argb followed by the up-conversion of
    _cucul_attr_to_argb4 returns. *)
Lemma argb_read_back_stored (c : Z) :
  0 <= c <= 0xffff -> argb_plain c = true ->
  0x80 <= stored_argb c /\ truecolor_argb16 (stored_argb c) = argb_read_back c /\
  0 <= argb_read_back c < 2 ^ 16.
Proof.
  intros Hc Hp.
  assert (Hr : 0 <= stored_argb c < 2 ^ 14).
  { unfold stored_argb. destruct (c <? 0x100) eqn:E.
    - apply Z.ltb_lt in E. apply argb16_to_14_stored_range. lia.
    - apply Z.ltb_ge in E. apply argb16_to_14_stored_range. lia. }
  rewrite truecolor_argb16_sum by exact Hr.
  unfold argb_plain in Hp. rewrite !orb_true_iff, Z.ltb_lt, !Z.leb_le in Hp.
  unfold stored_argb, argb_read_back in *.
  change (2 ^ 14) with 16384 in *. change (2 ^ 13) with 8192.
  change (2 ^ 12) with 4096. change (2 ^ 11) with 2048 in *.
  change (2 ^ 10) with 1024. change (2 ^ 16) with 65536.
  destruct (Z.ltb_spec c 0x100); Z.div_mod_to_equations; lia.
Qed.

Section Rgb_properties.
Context `{H : headers}.

(** The branching of the RGB12 conversions on a field with the offset. *)
Lemma rgb12_branching (dflt v : Z) :
  0 <= dflt < 16 -> 0x40 <= v ->
  (if v <? Z.lor 0x10 0x40
   then t ← array_get ansitab16 (Z.lxor v 0x40); Some (Z.land t 0x0fff)
   else if v =? Z.lor CUCUL_DEFAULT 0x40
   then t ← array_get ansitab16 dflt; Some (Z.land t 0x0fff)
   else if v =? Z.lor CUCUL_TRANSPARENT 0x40
   then t ← array_get ansitab16 dflt; Some (Z.land t 0x0fff)
   else Some (to_uint16 (Z.land (Z.shiftl v 1) 0x0fff)))
  = Some (argb4_colour dflt (palette16 dflt) v mod 2 ^ 12).
Proof.
  intros Hd Hv. unfold argb4_colour. change (Z.lor 0x10 0x40) with 0x50.
  destruct (Z.ltb_spec v 0x50).
  - destruct (palette16_entry (v - 0x40)) as (_ & Hget & _); [lia|].
    replace (v - 0x40 + 0x40) with v in Hget by lia.
    rewrite Hget. cbn [mbind option_bind]. now rewrite land_0xfff.
  - destruct (palette16_entry dflt Hd) as (Hget & _ & _). rewrite Hget.
    cbn [mbind option_bind]. rewrite land_0xfff.
    destruct (v =? Z.lor CUCUL_DEFAULT 0x40); [reflexivity|].
    destruct (v =? Z.lor CUCUL_TRANSPARENT 0x40); [reflexivity|].
    now rewrite truecolor_low12.
Qed.

(** Away from the transparent colour both conversions resolve a field to
    the same colour. *)
Lemma argb4_colour_not_transparent (dflt t t' v : Z) :
  v <> Z.lor CUCUL_TRANSPARENT 0x40 ->
  argb4_colour dflt t v = argb4_colour dflt t' v.
Proof.
  intros Hv. unfold argb4_colour.
  destruct (v <? 0x50); [reflexivity|].
  destruct (v =? Z.lor CUCUL_DEFAULT 0x40); [reflexivity|].
  destruct (Z.eqb_spec v (Z.lor CUCUL_TRANSPARENT 0x40)); [contradiction|reflexivity].
Qed.

(** X11: for a 32-bit attribute whose fields carry the 0x40 offset,
    _cucul_attr_to_argb4 emits the nibbles of a background colour cb and a
    foreground colour cf, and _cucul_attr_to_rgb12bg and
    _cucul_attr_to_rgb12fg return the low twelve bits (the R, G, B
    nibbles) of cb and of cf, unless the field is the transparent
    colour. *)
Theorem rgb12_is_argb4_rgb (attr : Z) :
  colours_ok -> 0 <= attr < 2 ^ 32 ->
  0x40 <= fg_field attr -> 0x40 <= bg_field attr ->
  exists cb cf,
    0 <= cb < 2 ^ 16 /\ 0 <= cf < 2 ^ 16 /\
    _cucul_attr_to_argb4 attr
    = Some (nibbles_msb_first cb ++ nibbles_msb_first cf) /\
    (bg_field attr <> Z.lor CUCUL_TRANSPARENT 0x40 ->
     _cucul_attr_to_rgb12bg attr = Some (cb mod 2 ^ 12)) /\
    (fg_field attr <> Z.lor CUCUL_TRANSPARENT 0x40 ->
     _cucul_attr_to_rgb12fg attr = Some (cf mod 2 ^ 12)).
Proof.
  intros (Hblack & Hgray & _) Ha Hf Hb.
  exists (argb4_colour CUCUL_BLACK 0x0fff (bg_field attr)),
         (argb4_colour CUCUL_LIGHTGRAY 0x0fff (fg_field attr)).
  destruct (argb4_branching CUCUL_BLACK (bg_field attr) Hblack Hb) as [Hcb Hrb].
  destruct (argb4_branching CUCUL_LIGHTGRAY (fg_field attr) Hgray Hf) as [Hcf Hrf].
  split; [exact Hrb|]. split; [exact Hrf|]. split.
  - unfold _cucul_attr_to_argb4.
    rewrite fg_field_32, bg_field_32 by assumption. rewrite Hcb, Hcf.
    cbn [mbind option_bind]. now rewrite !argb_nibbles_msb_first by assumption.
  - split; intros Hnt.
    + unfold _cucul_attr_to_rgb12bg. rewrite bg_field_32 by assumption.
      rewrite rgb12_branching by assumption.
      now rewrite (argb4_colour_not_transparent _ _ 0x0fff _ Hnt).
    + unfold _cucul_attr_to_rgb12fg. rewrite fg_field_32.
      rewrite rgb12_branching by assumption.
      now rewrite (argb4_colour_not_transparent _ _ 0x0fff _ Hnt).
Qed.

(** X12: for a 32-bit attribute whose fields carry the 0x40 offset, the
    RGB12 conversions return 12-bit values and the RGB24 conversions
    return them with each 4-bit channel multiplied by 17 into an 8-bit
    channel. *)
Theorem rgb24_expands_rgb12 (attr : Z) :
  colours_ok -> 0 <= attr < 2 ^ 32 ->
  0x40 <= fg_field attr -> 0x40 <= bg_field attr ->
  exists cb cf,
    0 <= cb < 2 ^ 12 /\ 0 <= cf < 2 ^ 12 /\
    _cucul_attr_to_rgb12bg attr = Some cb /\
    _cucul_attr_to_rgb12fg attr = Some cf /\
    _cucul_attr_to_rgb24bg attr
    = Some (17 * ((cb / 2 ^ 8) * 2 ^ 16 + (cb / 2 ^ 4 mod 2 ^ 4) * 2 ^ 8
                  + cb mod 2 ^ 4)) /\
    _cucul_attr_to_rgb24fg attr
    = Some (17 * ((cf / 2 ^ 8) * 2 ^ 16 + (cf / 2 ^ 4 mod 2 ^ 4) * 2 ^ 8
                  + cf mod 2 ^ 4)).
Proof.
  intros (Hblack & Hgray & _) Ha Hf Hb.
  set (cb := argb4_colour CUCUL_BLACK (palette16 CUCUL_BLACK) (bg_field attr)
             mod 2 ^ 12).
  set (cf := argb4_colour CUCUL_LIGHTGRAY (palette16 CUCUL_LIGHTGRAY)
               (fg_field attr) mod 2 ^ 12).
  assert (Hrb : 0 <= cb < 2 ^ 12) by (apply Z.mod_pos_bound; lia).
  assert (Hrf : 0 <= cf < 2 ^ 12) by (apply Z.mod_pos_bound; lia).
  assert (Hbg : _cucul_attr_to_rgb12bg attr = Some cb).
  { unfold _cucul_attr_to_rgb12bg. rewrite bg_field_32 by assumption.
    now apply rgb12_branching. }
  assert (Hfg : _cucul_attr_to_rgb12fg attr = Some cf).
  { unfold _cucul_attr_to_rgb12fg. rewrite fg_field_32.
    now apply rgb12_branching. }
  exists cb, cf. unfold _cucul_attr_to_rgb24bg, _cucul_attr_to_rgb24fg.
  rewrite Hbg, Hfg. cbn [mbind option_bind].
  rewrite !RGB12TO24_channels by assumption. auto 10.
Qed.

(** X13: after cucul_set_color_argb with two colours that are stored
    above the palette codes (below 0x100, or alpha at least 2, or red
    other than 0), _cucul_attr_to_argb4 of the new current attribute emits
    the nibbles of the two colours as read back: 0x100 added to a colour
    below 0x100, red and green kept, the lowest bit of blue cleared, the
    lowest bit of alpha replaced by the highest bit of red. *)
Theorem argb_round_trip (s : state) (fg bg : Z) :
  colours_ok -> 0 <= fg <= 0xffff -> 0 <= bg <= 0xffff ->
  argb_plain fg = true -> argb_plain bg = true ->
  exists s',
    cucul_set_color_argb s fg bg = (0, s') /\
    _cucul_attr_to_argb4 (curattr (st_cv s'))
    = Some (nibbles_msb_first (argb_read_back bg)
            ++ nibbles_msb_first (argb_read_back fg)).
Proof.
  intros Hok Hfg Hbg Hpf Hpb. pose proof Hok as (Hblack & Hgray & Hd & Ht).
  destruct (argb_read_back_stored fg Hfg Hpf) as (Hf80 & Hfc & Hfr).
  destruct (argb_read_back_stored bg Hbg Hpb) as (Hb80 & Hbc & Hbr).
  destruct (stored_argb_range fg Hfg) as [_ Hsf].
  destruct (stored_argb_range bg Hbg) as [_ Hsb].
  eexists. split; [apply set_color_argb_sum; assumption|].
  cbn [st_cv set_curattr curattr].
  pose proof (style_bits_range (curattr (st_cv s))) as Hst.
  destruct (attr_layout_fields (Z.land (curattr (st_cv s)) 0xf)
              (stored_argb fg) (stored_argb bg)) as (Hr & _ & Hf & Hb); try lia.
  cbv zeta in Hr, Hf, Hb.
  destruct (sentinel_offset CUCUL_DEFAULT) as [Hdl _]; [lia|].
  destruct (sentinel_offset CUCUL_TRANSPARENT) as [Htl _]; [lia|].
  assert (Hcol : forall dflt v, 0x80 <= v ->
            argb4_colour dflt 0x0fff v = truecolor_argb16 v).
  { intros dflt v Hv. unfold argb4_colour. rewrite Hdl, Htl.
    destruct (Z.ltb_spec v 0x50); [lia|].
    destruct (Z.eqb_spec v (CUCUL_DEFAULT + 0x40)); [lia|].
    destruct (Z.eqb_spec v (CUCUL_TRANSPARENT + 0x40)); [lia|]. reflexivity. }
  unfold _cucul_attr_to_argb4.
  rewrite fg_field_32, bg_field_32 by assumption. rewrite Hf, Hb.
  destruct (argb4_branching CUCUL_BLACK (stored_argb bg) Hblack ltac:(lia))
    as [-> _].
  destruct (argb4_branching CUCUL_LIGHTGRAY (stored_argb fg) Hgray ltac:(lia))
    as [-> _].
  cbn [mbind option_bind]. rewrite !Hcol by assumption. rewrite Hfc, Hbc.
  now rewrite !argb_nibbles_msb_first by assumption.
Qed.

End Rgb_properties.

(** ** cucul_get_attr and cucul_putattr on a whole canvas *)

(** Two cells of a canvas of width w with the same index are the same. *)
Lemma cell_index_injective (w a y b y' : Z) :
  0 <= a < w -> 0 <= b < w -> a + y * w = b + y' * w -> a = b /\ y = y'.
Proof.
  intros Ha Hb Heq.
  assert (Hy : y = y').
  { destruct (Z.lt_trichotomy y y') as [Hlt|[Hq|Hgt]]; [|exact Hq|].
    - assert ((y + 1) * w <= y' * w) by (apply Z.mul_le_mono_nonneg_r; lia). lia.
    - assert ((y' + 1) * w <= y * w) by (apply Z.mul_le_mono_nonneg_r; lia). lia. }
  subst y'. lia.
Qed.

Section Frame_properties.
Context `{H : headers}.

Lemma out_of_canvas_in_bounds (cv : cucul_canvas_t) (x y : Z) :
  canvas_ok cv -> out_of_canvas cv x y = false -> in_bounds cv x y.
Proof.
  intros (Hw & Hh & _) Hout. unfold out_of_canvas in Hout.
  rewrite !to_int_small in Hout by lia.
  rewrite !orb_false_iff, !Z.ltb_ge in Hout. rewrite !Z.geb_leb, !Z.leb_gt in Hout.
  unfold in_bounds. lia.
Qed.

(** X14: on a canvas whose arrays hold width * height cells,
    cucul_get_attr and cucul_putattr stay inside the arrays for all
    coordinates and attributes: both return a result, which the model
    gives only when every read and every store of the call is inside its
    array. *)
Theorem attr_access_stays_in_arrays (s : state) (x y attr : Z) :
  canvas_ok (st_cv s) ->
  (exists a, cucul_get_attr (st_cv s) x y = Some a) /\
  (exists r s', cucul_putattr s x y attr = Some (r, s')).
Proof.
  intros Hok. pose proof Hok as (Hw & Hh & Hwh & Hlc & Hla).
  destruct (out_of_canvas (st_cv s) x y) eqn:Hout.
  - split.
    + unfold cucul_get_attr. rewrite Hout. eauto.
    + unfold cucul_putattr. rewrite Hout. destruct (attr_too_large attr); eauto.
  - pose proof (out_of_canvas_in_bounds _ _ _ Hok Hout) as Hin.
    pose proof (cell_index_range _ _ _ Hok Hin) as Hp. split.
    + rewrite get_attr_in_bounds by assumption.
      apply array_get_in_range. lia.
    + destruct (attr_too_large attr) eqn:Hbig.
      * unfold cucul_putattr. rewrite Hbig. eauto.
      * assert (Ha : attr < 2 ^ 32).
        { unfold attr_too_large in Hbig. apply andb_false_iff in Hbig as [Hb|Hb].
          - discriminate.
          - rewrite Z.gtb_ltb in Hb. apply Z.ltb_ge in Hb. lia. }
        destruct (putattr_in_bounds s x y attr Hok Hin Ha) as (a0 & _ & Hput).
        cbv zeta in Hput. rewrite Hput. eauto.
Qed.

(** The cell cucul_putattr copies to lies in the row of the target. *)
Lemma putattr_neighbour_row (cv : cucul_canvas_t) (x p q : Z) :
  putattr_neighbour cv x p = Some q ->
  (q = p - 1 /\ x <> 0) \/ (q = p + 1 /\ x + 1 < width cv).
Proof.
  unfold putattr_neighbour.
  destruct (Z.eqb_spec x 0) as [Hx|Hx]; cbn [negb andb].
  - destruct (Z.ltb_spec (x + 1) (width cv)); cbn [andb]; [|discriminate].
    destruct (bool_decide _); [|discriminate]. intros [= <-]. right. lia.
  - destruct (bool_decide _).
    + intros [= <-]. left. lia.
    + destruct (Z.ltb_spec (x + 1) (width cv)); cbn [andb]; [|discriminate].
      destruct (bool_decide _); [|discriminate]. intros [= <-]. right. lia.
Qed.

(** X15: a successful cucul_putattr inside the canvas changes no
    character, neither the size, the current attribute nor errno, keeps
    both arrays at width * height cells, and leaves the attribute of every
    cell of another row, and of every cell of the target's row that is not
    the target or next to it, as it was. *)
Theorem putattr_frame (s : state) (x y attr : Z) :
  canvas_ok (st_cv s) -> in_bounds (st_cv s) x y -> 0 <= attr < 2 ^ 32 ->
  exists s',
    cucul_putattr s x y attr = Some (0, s') /\
    canvas_ok (st_cv s') /\
    width (st_cv s') = width (st_cv s) /\ height (st_cv s') = height (st_cv s) /\
    chars (st_cv s') = chars (st_cv s) /\
    curattr (st_cv s') = curattr (st_cv s) /\ st_errno s' = st_errno s /\
    forall x' y', in_bounds (st_cv s) x' y' ->
      y' <> y \/ x' < x - 1 \/ x + 1 < x' ->
      cucul_get_attr (st_cv s') x' y' = cucul_get_attr (st_cv s) x' y'.
Proof.
  intros Hok Hin Ha.
  destruct (putattr_in_bounds s x y attr Hok Hin) as (a0 & Ha0 & Hput); [lia|].
  cbv zeta in Hput. set (cv := st_cv s) in *. set (p := x + y * width cv) in *.
  set (a1 := putattr_cell cv a0) in *.
  set (l := match putattr_neighbour cv x p with
            | Some q => array_set (array_set (attrs cv) p a1) q a1
            | None => array_set (attrs cv) p a1
            end) in *.
  pose proof (cell_index_range _ _ _ Hok Hin) as Hp. fold p in Hp.
  pose proof Hok as (Hw & Hh & Hwh & Hlc & Hla). pose proof Hin as [Hx Hy].
  assert (Hok' : canvas_ok (st_cv (set_attrs l s))).
  { unfold canvas_ok. cbn [st_cv set_attrs width height chars attrs]. fold cv.
    repeat split; try lia.
    unfold l. destruct (putattr_neighbour cv x p);
      rewrite ?array_set_length; lia. }
  eexists. split; [exact Hput|]. split; [exact Hok'|].
  cbn [st_cv st_errno set_attrs width height chars attrs curattr]. fold cv.
  do 5 (split; [reflexivity|]).
  intros x' y' Hin' Hfar. pose proof Hin' as [Hx' Hy'].
  rewrite !get_attr_in_bounds by (assumption || exact Hin').
  cbn [st_cv set_attrs width height chars attrs]. fold cv.
  pose proof (cell_index_range _ _ _ Hok Hin') as Hp'. fold cv in Hp'.
  assert (Hnp : x' + y' * width cv <> p).
  { unfold p. intros Heq.
    apply cell_index_injective in Heq; [|assumption|assumption]. lia. }
  unfold l. destruct (putattr_neighbour cv x p) as [q|] eqn:Eq.
  - destruct (putattr_neighbour_row _ _ _ _ Eq) as [[-> Hq]|[-> Hq]].
    + rewrite array_get_set_other; [|lia|lia|].
      * apply array_get_set_other; lia.
      * intros Heq. symmetry in Heq.
        replace (p - 1) with (x - 1 + y * width cv) in Heq by (unfold p; lia).
        apply cell_index_injective in Heq; lia.
    + rewrite array_get_set_other; [|lia|lia|].
      * apply array_get_set_other; lia.
      * intros Heq. symmetry in Heq.
        replace (p + 1) with (x + 1 + y * width cv) in Heq by (unfold p; lia).
        apply cell_index_injective in Heq; lia.
  - apply array_get_set_other; lia.
Qed.

(** X16: after a successful cucul_putattr inside the canvas the target
    cell holds the attribute it held before when that was 0x10 or more,
    and otherwise that attribute merged onto the colours of the current
    attribute; this does not depend on [attr]. *)
Theorem putattr_target_cell (s : state) (x y attr : Z) :
  canvas_ok (st_cv s) -> in_bounds (st_cv s) x y -> 0 <= attr < 2 ^ 32 ->
  exists s' a0,
    cucul_get_attr (st_cv s) x y = Some a0 /\
    cucul_putattr s x y attr = Some (0, s') /\
    cucul_get_attr (st_cv s') x y =
    Some (if a0 <? 0x10
          then Z.lor (Z.land (curattr (st_cv s)) 0xfffffff0) a0
          else a0).
Proof.
  intros Hok Hin Ha.
  destruct (putattr_in_bounds s x y attr Hok Hin) as (a0 & Ha0 & Hput); [lia|].
  cbv zeta in Hput. set (cv := st_cv s) in *. set (p := x + y * width cv) in *.
  set (l := match putattr_neighbour cv x p with
            | Some q => array_set (array_set (attrs cv) p (putattr_cell cv a0)) q
                          (putattr_cell cv a0)
            | None => array_set (attrs cv) p (putattr_cell cv a0)
            end) in *.
  pose proof (cell_index_range _ _ _ Hok Hin) as Hp. fold cv p in Hp.
  pose proof Hok as (Hw & Hh & Hwh & Hlc & Hla).
  assert (Hok' : canvas_ok (st_cv (set_attrs l s))).
  { unfold canvas_ok. cbn [st_cv set_attrs width height chars attrs]. fold cv.
    repeat split; try lia.
    unfold l. destruct (putattr_neighbour cv x p);
      rewrite ?array_set_length; lia. }
  eexists. exists a0.
  split; [rewrite get_attr_in_bounds by assumption; exact Ha0|].
  split; [exact Hput|].
  rewrite get_attr_in_bounds by assumption.
  cbn [st_cv set_attrs width height chars attrs]. fold cv p.
  fold (putattr_cell cv a0). unfold l.
  destruct (putattr_neighbour cv x p) as [q|] eqn:Eq.
  - pose proof Hin as [Hx Hy].
    assert (Hyw : 0 <= y * width cv) by (apply Z.mul_nonneg_nonneg; lia).
    destruct (putattr_neighbour_row _ _ _ _ Eq) as [[-> Hq]|[-> Hq]];
      rewrite array_get_set_other by (unfold p; lia);
      apply array_get_set_same; lia.
  - apply array_get_set_same. lia.
Qed.

End Frame_properties.

(** * ttyvaders: update_tunnel *)

Lemma int_val_small (z : Z) : - 2 ^ 31 <= z < 2 ^ 31 -> int_val z = Some z.
Proof.
  intros Hz. unfold int_val.
  destruct (Z.leb_spec (- 2 ^ 31) z); [|lia].
  destruct (Z.ltb_spec z (2 ^ 31)); [reflexivity|lia].
Qed.

Lemma array_get_nat (l : list Z) (k : nat) : array_get l (Z.of_nat k) = l !! k.
Proof.
  unfold array_get. destruct (Z.ltb_spec (Z.of_nat k) 0); [lia|].
  now rewrite Nat2Z.id.
Qed.

Lemma array_set_nat (l : list Z) (k : nat) (v : Z) :
  array_set l (Z.of_nat k) v = <[k := v]> l.
Proof. unfold array_set. now rewrite Nat2Z.id. Qed.

(** The sliding loop, entered with i = n on arrays of more than n cells,
    copies cells 0 to n-1 one place up and touches nothing else. *)
Lemma slide_shifts (n : nat) (l r : list Z) :
  (n < length l)%nat -> (n < length r)%nat -> Z.of_nat n < 2 ^ 31 ->
  exists l' r',
    Tunnel.slide (S n) (Z.of_nat n) l r = Some (l', r') /\
    length l' = length l /\ length r' = length r /\
    (forall k : nat,
       l' !! k = if decide (k = 0)%nat then l !! 0%nat
                 else if decide (k <= n)%nat then l !! (k - 1)%nat else l !! k) /\
    (forall k : nat,
       r' !! k = if decide (k = 0)%nat then r !! 0%nat
                 else if decide (k <= n)%nat then r !! (k - 1)%nat else r !! k).
Proof.
  revert l r. induction n as [|n IH]; intros l r Hl Hr Hn.
  - exists l, r. cbn. repeat split; try reflexivity; intros k.
    + destruct (decide (k = 0)%nat) as [->|]; [reflexivity|].
      destruct (decide (k <= 0)%nat); [lia|reflexivity].
    + destruct (decide (k = 0)%nat) as [->|]; [reflexivity|].
      destruct (decide (k <= 0)%nat); [lia|reflexivity].
  - destruct (lookup_lt_is_Some_2 l n) as [vl Hvl]; [lia|].
    destruct (lookup_lt_is_Some_2 r n) as [vr Hvr]; [lia|].
    destruct (IH (<[S n := vl]> l) (<[S n := vr]> r)) as
      (l' & r' & Hs & Hll & Hlr & Hkl & Hkr);
      rewrite ?length_insert; try lia.
    exists l', r'. rewrite length_insert in Hll, Hlr.
    split; [|split; [exact Hll|split; [exact Hlr|]]].
    + change (Tunnel.slide (S (S n)) (Z.of_nat (S n)) l r) with
        (if Z.of_nat (S n) =? 0 then Some (l, r)
         else
           i ← int_val (Z.of_nat (S n) - 1);
           vl ← array_get l i;
           l ← array_store l (i + 1) vl;
           vr ← array_get r i;
           r ← array_store r (i + 1) vr;
           Tunnel.slide (S n) i l r).
      destruct (Z.eqb_spec (Z.of_nat (S n)) 0); [lia|].
      replace (Z.of_nat (S n) - 1) with (Z.of_nat n) by lia.
      rewrite int_val_small by lia. cbn [mbind option_bind].
      rewrite !array_get_nat, Hvl, Hvr. cbn [mbind option_bind].
      replace (Z.of_nat n + 1) with (Z.of_nat (S n)) by lia.
      rewrite !array_store_in_range by lia. cbn [mbind option_bind].
      rewrite !array_set_nat. exact Hs.
    + split; intros k.
      * rewrite Hkl. destruct (decide (k = 0)%nat) as [->|Hk].
        { now rewrite list_lookup_insert_ne by lia. }
        destruct (decide (k <= n)%nat).
        { destruct (decide (k <= S n)%nat); [|lia].
          now rewrite list_lookup_insert_ne by lia. }
        destruct (decide (k <= S n)%nat).
        { assert (k = S n) as -> by lia.
          rewrite list_lookup_insert_eq by lia.
          now replace (S n - 1)%nat with n by lia. }
        now rewrite list_lookup_insert_ne by lia.
      * rewrite Hkr. destruct (decide (k = 0)%nat) as [->|Hk].
        { now rewrite list_lookup_insert_ne by lia. }
        destruct (decide (k <= n)%nat).
        { destruct (decide (k <= S n)%nat); [|lia].
          now rewrite list_lookup_insert_ne by lia. }
        destruct (decide (k <= S n)%nat).
        { assert (k = S n) as -> by lia.
          rewrite list_lookup_insert_eq by lia.
          now replace (S n - 1)%nat with n by lia. }
        now rewrite list_lookup_insert_ne by lia.
Qed.

(** The steps of delta: never 0, at most 3 either way. *)
Lemma delta_step (r : Z) :
  0 <= r <= 5 ->
  exists i, array_get Tunnel.delta r = Some i /\ -3 <= i <= 3 /\ i <> 0.
Proof.
  intros Hr.
  assert (r = 0 \/ r = 1 \/ r = 2 \/ r = 3 \/ r = 4 \/ r = 5)
    as [->|[->|[->|[->|[->| ->]]]]] by lia;
    eexists; (split; [reflexivity|lia]).
Qed.

Ltac split_condition :=
  match goal with
  | |- context [if ?c then _ else _] =>
      lazymatch c with
      | context [if _ then _ else _] => fail
      | _ => destruct c eqn:?
      end
  end.

Ltac run_int_ops :=
  repeat first
    [ progress cbn [mbind option_bind fst snd andb orb]
    | rewrite int_val_small by lia
    | rewrite array_store_in_range by lia
    | split_condition ].

(** update_tunnel on a tunnel of at least two rows: the rows slide down
    by one and the new top row is [Tunnel.next_row] of the old one. *)
Lemma update_tunnel_rows (g : Game.game) (t : Tunnel.tunnel) (r1 r2 : Z) :
  Tunnel.tunnel_ok g t -> 0 <= r1 <= 5 -> 0 <= r2 <= 5 ->
  exists a b i0 j0 l' r',
    Tunnel.left t !! 0%nat = Some a /\ Tunnel.right t !! 0%nat = Some b /\
    array_get Tunnel.delta r1 = Some i0 /\ array_get Tunnel.delta r2 = Some j0 /\
    (-3 <= i0 <= 3 /\ i0 <> 0) /\ (-3 <= j0 <= 3 /\ j0 <> 0) /\
    length l' = length (Tunnel.left t) /\ length r' = length (Tunnel.right t) /\
    (forall k : nat, (1 <= k)%nat -> Z.of_nat k < Tunnel.h t ->
       l' !! k = Tunnel.left t !! (k - 1)%nat /\
       r' !! k = Tunnel.right t !! (k - 1)%nat) /\
    Tunnel.update_tunnel g t r1 r2 =
    Some {| Tunnel.left :=
              <[0%nat := fst (Tunnel.next_row (Game.w g) (Tunnel.w t) a b i0 j0)]> l';
            Tunnel.right :=
              <[0%nat := snd (Tunnel.next_row (Game.w g) (Tunnel.w t) a b i0 j0)]> r';
            Tunnel.w := Tunnel.w t; Tunnel.h := Tunnel.h t |}.
Proof.
  intros (Hh & Hll & Hlr & Hw & Hgw & a & b & Ha & Hb & Hra & Hrb) Hr1 Hr2.
  destruct (delta_step r1 Hr1) as (i0 & Hi0 & Hi0r).
  destruct (delta_step r2 Hr2) as (j0 & Hj0 & Hj0r).
  destruct (slide_shifts (Z.to_nat (Tunnel.h t - 1)) (Tunnel.left t) (Tunnel.right t))
    as (l' & r' & Hs & Hl' & Hr' & Hkl & Hkr); try lia.
  rewrite Z2Nat.id in Hs by lia.
  exists a, b, i0, j0, l', r'.
  do 6 (split; [assumption|]). split; [exact Hl'|]. split; [exact Hr'|]. split.
  { intros k Hk1 Hkh. rewrite Hkl, Hkr.
    destruct (decide (k = 0)%nat); [lia|].
    destruct (decide (k <= Z.to_nat (Tunnel.h t - 1))%nat); [auto|lia]. }
  assert (Hl1 : array_get l' 1 = Some a).
  { change 1 with (Z.of_nat 1). rewrite array_get_nat, Hkl.
    destruct (decide (1 = 0)%nat); [lia|].
    destruct (decide (1 <= Z.to_nat (Tunnel.h t - 1))%nat); [exact Ha|lia]. }
  assert (Hr1' : array_get r' 1 = Some b).
  { change 1 with (Z.of_nat 1). rewrite array_get_nat, Hkr.
    destruct (decide (1 = 0)%nat); [lia|].
    destruct (decide (1 <= Z.to_nat (Tunnel.h t - 1))%nat); [exact Hb|lia]. }
  unfold Tunnel.update_tunnel.
  rewrite (int_val_small (Tunnel.h t - 1)) by lia. cbn [mbind option_bind].
  rewrite Hs. cbn [mbind option_bind fst snd].
  rewrite Hi0, Hj0. cbn [mbind option_bind].
  rewrite Hl1, Hr1'. cbn [mbind option_bind].
  unfold Tunnel.next_row.
  run_int_ops; unfold array_set; change (Z.to_nat 0) with 0%nat;
    rewrite ?list_insert_insert_eq; try reflexivity; lia.
Qed.

(** X17: update_tunnel on a tunnel of at least two rows, with both random
    values in 0..5, succeeds, keeps the sizes of the tunnel and of its
    arrays, and moves every row one place down: row k of the result is
    row k-1 of the tunnel, for k from 1 to h-1. *)
Theorem update_tunnel_slides (g : Game.game) (t : Tunnel.tunnel) (r1 r2 : Z) :
  Tunnel.tunnel_ok g t -> 0 <= r1 <= 5 -> 0 <= r2 <= 5 ->
  exists t',
    Tunnel.update_tunnel g t r1 r2 = Some t' /\
    Tunnel.w t' = Tunnel.w t /\ Tunnel.h t' = Tunnel.h t /\
    length (Tunnel.left t') = length (Tunnel.left t) /\
    length (Tunnel.right t') = length (Tunnel.right t) /\
    forall k : nat, (1 <= k)%nat -> Z.of_nat k < Tunnel.h t ->
      Tunnel.left t' !! k = Tunnel.left t !! (k - 1)%nat /\
      Tunnel.right t' !! k = Tunnel.right t !! (k - 1)%nat.
Proof.
  intros Hok Hr1 Hr2.
  destruct (update_tunnel_rows g t r1 r2 Hok Hr1 Hr2)
    as (a & b & i0 & j0 & l' & r' & _ & _ & _ & _ & _ & _ & Hl' & Hr' & Hk & Hup).
  eexists. split; [exact Hup|]. cbn [Tunnel.left Tunnel.right Tunnel.w Tunnel.h].
  rewrite !length_insert.
  do 4 (split; [reflexivity || assumption|]).
  intros k Hk1 Hkh. rewrite !list_lookup_insert_ne by lia. now apply Hk.
Qed.

(** X18: when the tunnel is not wider than the game, the new top row of
    update_tunnel lies within 3 columns of the previous top row on either
    side and differs from it on both sides; a left wall at column -1 or
    more gives a new left wall at column 0 or more, and a right wall at
    column w or less gives a new right wall at column w - 1 or less. *)
Theorem update_tunnel_top_row (g : Game.game) (t : Tunnel.tunnel) (r1 r2 : Z) :
  Tunnel.tunnel_ok g t -> 0 <= r1 <= 5 -> 0 <= r2 <= 5 ->
  Tunnel.w t <= Game.w g ->
  exists t' a b a' b',
    Tunnel.update_tunnel g t r1 r2 = Some t' /\
    Tunnel.left t !! 0%nat = Some a /\ Tunnel.right t !! 0%nat = Some b /\
    Tunnel.left t' !! 0%nat = Some a' /\ Tunnel.right t' !! 0%nat = Some b' /\
    (-3 <= a' - a <= 3 /\ a' <> a) /\ (-3 <= b' - b <= 3 /\ b' <> b) /\
    (-1 <= a -> 0 <= a') /\ (b <= Game.w g -> b' <= Game.w g - 1).
Proof.
  intros Hok Hr1 Hr2 Hw.
  destruct (update_tunnel_rows g t r1 r2 Hok Hr1 Hr2)
    as (a & b & i0 & j0 & l' & r' & Ha & Hb & _ & _ & Hi & Hj & Hl' & Hr' & _ & Hup).
  destruct Hok as (Hh & Hll & Hlr & _).
  eexists. exists a, b. do 2 eexists. split; [exact Hup|].
  cbn [Tunnel.left Tunnel.right].
  split; [exact Ha|]. split; [exact Hb|].
  split; [apply list_lookup_insert_eq; lia|].
  split; [apply list_lookup_insert_eq; lia|].
  unfold Tunnel.next_row.
  repeat split_condition; cbn [fst snd] in *; lia.
Qed.

(** X19: when the tunnel is not wider than the game and the previous top
    row is on the screen, a row more than two columns wider than the
    tunnel is followed by a row that is not wider than it, and a row
    narrower than the tunnel by a row that is not narrower, unless a wall
    was pushed back from the border of the screen. *)
Theorem update_tunnel_steers_width (g : Game.game) (t : Tunnel.tunnel) (r1 r2 : Z) :
  Tunnel.tunnel_ok g t -> 0 <= r1 <= 5 -> 0 <= r2 <= 5 ->
  Tunnel.w t <= Game.w g ->
  exists t' a b a' b',
    Tunnel.update_tunnel g t r1 r2 = Some t' /\
    Tunnel.left t !! 0%nat = Some a /\ Tunnel.right t !! 0%nat = Some b /\
    Tunnel.left t' !! 0%nat = Some a' /\ Tunnel.right t' !! 0%nat = Some b' /\
    (0 <= a -> b <= Game.w g - 1 ->
     Tunnel.w t < b - a - 2 -> b' - a' <= b - a) /\
    (b - a < Tunnel.w t ->
     b - a <= b' - a' \/ a' = a + 1 \/ b' = b - 1).
Proof.
  intros Hok Hr1 Hr2 Hw.
  destruct (update_tunnel_rows g t r1 r2 Hok Hr1 Hr2)
    as (a & b & i0 & j0 & l' & r' & Ha & Hb & _ & _ & Hi & Hj & Hl' & Hr' & _ & Hup).
  destruct Hok as (Hh & Hll & Hlr & _).
  eexists. exists a, b. do 2 eexists. split; [exact Hup|].
  cbn [Tunnel.left Tunnel.right].
  split; [exact Ha|]. split; [exact Hb|].
  split; [apply list_lookup_insert_eq; lia|].
  split; [apply list_lookup_insert_eq; lia|].
  unfold Tunnel.next_row.
  repeat split_condition; cbn [fst snd] in *; lia.
Qed.

(** X20: when the tunnel is wider than the game by at most 20 columns, an
    open top row (left wall at -10, right wall at w + 10, as create_tunnel
    sets them) is followed by an open top row. *)
Theorem update_tunnel_stays_open (g : Game.game) (t : Tunnel.tunnel) (r1 r2 : Z) :
  Tunnel.tunnel_ok g t -> 0 <= r1 <= 5 -> 0 <= r2 <= 5 ->
  Game.w g < Tunnel.w t <= Game.w g + 20 ->
  Tunnel.left t !! 0%nat = Some (-10) ->
  Tunnel.right t !! 0%nat = Some (Game.w g + 10) ->
  exists t',
    Tunnel.update_tunnel g t r1 r2 = Some t' /\
    Tunnel.left t' !! 0%nat = Some (-10) /\
    Tunnel.right t' !! 0%nat = Some (Game.w g + 10).
Proof.
  intros Hok Hr1 Hr2 Hw Hl0 Hr0.
  destruct (update_tunnel_rows g t r1 r2 Hok Hr1 Hr2)
    as (a & b & i0 & j0 & l' & r' & Ha & Hb & _ & _ & Hi & Hj & Hl' & Hr' & _ & Hup).
  destruct Hok as (Hh & Hll & Hlr & _).
  rewrite Hl0 in Ha. rewrite Hr0 in Hb.
  injection Ha as <-. injection Hb as <-.
  eexists. split; [exact Hup|]. cbn [Tunnel.left Tunnel.right].
  rewrite !list_lookup_insert_eq by lia.
  unfold Tunnel.next_row.
  repeat split_condition; cbn [fst snd] in *; split; f_equal; lia.
Qed.

(** X21: on a tunnel whose arrays have fewer than two cells update_tunnel
    reads or stores outside of them, whatever h and the random values
    are. *)
Theorem update_tunnel_needs_two_rows (g : Game.game) (t : Tunnel.tunnel) (r1 r2 : Z) :
  (length (Tunnel.left t) <= 1)%nat -> (length (Tunnel.right t) <= 1)%nat ->
  Tunnel.update_tunnel g t r1 r2 = None.
Proof.
  intros Hl Hr. unfold Tunnel.update_tunnel.
  destruct (int_val (Tunnel.h t - 1)) as [h1|] eqn:Hh1; [|reflexivity].
  cbn [mbind option_bind].
  change (Tunnel.slide (S (Z.to_nat h1)) h1 (Tunnel.left t) (Tunnel.right t))
    with (if h1 =? 0 then Some (Tunnel.left t, Tunnel.right t)
          else
            i ← int_val (h1 - 1);
            vl ← array_get (Tunnel.left t) i;
            l ← array_store (Tunnel.left t) (i + 1) vl;
            vr ← array_get (Tunnel.right t) i;
            r ← array_store (Tunnel.right t) (i + 1) vr;
            Tunnel.slide (Z.to_nat h1) i l r).
  destruct (Z.eqb_spec h1 0) as [->|Hne].
  - cbn [mbind option_bind fst snd].
    destruct (array_get Tunnel.delta r1); [|reflexivity].
    destruct (array_get Tunnel.delta r2); [|reflexivity].
    cbn [mbind option_bind].
    assert (Hnone : array_get (Tunnel.right t) 1 = None).
    { change 1 with (Z.of_nat 1). rewrite array_get_nat.
      apply lookup_ge_None. lia. }
    now rewrite Hnone.
  - destruct (int_val (h1 - 1)) as [i|] eqn:Hi; [|reflexivity].
    cbn [mbind option_bind].
    destruct (array_get (Tunnel.left t) i) as [vl|] eqn:Hvl; [|reflexivity].
    cbn [mbind option_bind].
    assert (Hst : array_store (Tunnel.left t) (i + 1) vl = None).
    { unfold array_get in Hvl. destruct (Z.ltb_spec i 0); [discriminate|].
      apply lookup_lt_Some in Hvl. unfold array_store.
      destruct (Z.leb_spec 0 (i + 1)); [|reflexivity].
      destruct (Z.ltb_spec (i + 1) (Z.of_nat (length (Tunnel.left t))));
        [lia|reflexivity]. }
    now rewrite Hst.
Qed.

(** * The further properties at concrete inputs *)

Section Concrete_further.
Existing Instance libcucul_headers.

Lemma libcucul_colours_ok : colours_ok.
Proof. unfold colours_ok. cbn. lia. Qed.

Lemma wide_row_ok : canvas_ok (st_cv wide_row).
Proof. unfold canvas_ok. cbn. lia. Qed.

Lemma tunnel4_ok : Tunnel.tunnel_ok Tunnel.game80 Tunnel.tunnel4.
Proof.
  unfold Tunnel.tunnel_ok. cbn. repeat (split; [lia|]).
  exists 30, 50. repeat split; (reflexivity || lia).
Qed.

Lemma tunnel_wide_top_ok : Tunnel.tunnel_ok Tunnel.game80 Tunnel.tunnel_wide_top.
Proof.
  unfold Tunnel.tunnel_ok. cbn. repeat (split; [lia|]).
  exists 20, 60. repeat split; (reflexivity || lia).
Qed.

Lemma tunnel_narrow_top_ok :
  Tunnel.tunnel_ok Tunnel.game80 Tunnel.tunnel_narrow_top.
Proof.
  unfold Tunnel.tunnel_ok. cbn. repeat (split; [lia|]).
  exists 35, 45. repeat split; (reflexivity || lia).
Qed.

Lemma tunnel_open_ok : Tunnel.tunnel_ok Tunnel.game80 Tunnel.tunnel_open.
Proof.
  unfold Tunnel.tunnel_ok. cbn. repeat (split; [lia|]).
  exists (-10), 90. repeat split; (reflexivity || lia).
Qed.

(** X1 on the one-cell canvas, with red on black. *)
Lemma set_attr_then_get_witness :
  0x10 <= 0x1000440 <= 0xffffffff /\
  exists s',
    cucul_set_attr one_cell 0x1000440 = (0, s') /\
    cucul_get_attr (st_cv s') (-1) (-1) = Some 0x1000440.
Proof.
  split; [lia|].
  destruct (set_attr_then_get one_cell 0x1000440 ltac:(lia)) as (s' & Hs & Hg & _).
  exists s'. auto.
Defined.

(** X2 on the one-cell canvas, with the style value 0x05. *)
Lemma set_attr_style_witness :
  exists s',
    cucul_set_attr one_cell 0x05 = (0, s') /\
    Z.land (curattr (st_cv s')) 0xf = 0x05 /\
    fg_field (curattr (st_cv s')) = 0x47 /\ bg_field (curattr (st_cv s')) = 0x40.
Proof.
  destruct (set_attr_style_keeps_colours one_cell 0x05)
    as (s' & Hs & _ & Hst & Hf & Hb & _); [lia|cbn; lia|].
  exists s'. auto.
Defined.

(** X3 with yellow (0x0e) on blue (0x01). *)
Lemma set_color_ansi_layout_witness :
  exists s',
    cucul_set_color_ansi one_cell 0x0e 0x01 = (0, s') /\
    fg_field (curattr (st_cv s')) = 0x4e /\ bg_field (curattr (st_cv s')) = 0x41.
Proof.
  destruct (set_color_ansi_layout one_cell 0x0e 0x01)
    as (s' & Hs & _ & _ & Hf & Hb & _); [lia|lia|].
  exists s'. auto.
Defined.

(** X4 with dark cyan (0xf088) on half-transparent white (0x8fff). *)
Lemma set_color_argb_layout_witness :
  exists s',
    cucul_set_color_argb one_cell 0xf088 0x8fff = (0, s') /\
    fg_field (curattr (st_cv s')) = 0x3844 /\
    bg_field (curattr (st_cv s')) = 0x27ff.
Proof.
  destruct (set_color_argb_layout one_cell 0xf088 0x8fff)
    as (s' & Hs & _ & _ & Hf & Hb & _); [lia|lia|].
  exists s'. auto.
Defined.

(** X5 on light gray on black, plain and with all four style bits. *)
Lemma conversions_read_fields_witness :
  _cucul_attr_to_argb4 0x1000470 = _cucul_attr_to_argb4 0x100047f /\
  _cucul_attr_to_ansi8 0x1000470 = _cucul_attr_to_ansi8 0x100047f.
Proof.
  destruct (conversions_read_fields 0x1000470 0x100047f)
    as (_ & _ & H8 & _ & _ & _ & _ & H4); try lia; try reflexivity.
  auto.
Defined.

(** X6 at opaque white. *)
Lemma nearest_ansi_range_witness :
  0 <= nearest_ansi 0x3fff < 16 \/
  nearest_ansi 0x3fff = CUCUL_DEFAULT \/ nearest_ansi 0x3fff = CUCUL_TRANSPARENT.
Proof. apply nearest_ansi_range; [exact libcucul_colours_ok|lia]. Defined.

(** X7 on the default colour over the transparent colour. *)
Lemma attr_to_ansi8_witness :
  fg_field 0x1800500 = 0x50 /\ bg_field 0x1800500 = 0x60 /\
  _cucul_attr_to_ansi8 0x1800500 = CUCUL_LIGHTGRAY + 16 * CUCUL_BLACK.
Proof.
  split; [reflexivity|]. split; [reflexivity|].
  destruct (attr_to_ansi8_nibbles 0x1800500 libcucul_colours_ok) as (Hv & _);
    [lia|apply Z.leb_le; reflexivity|apply Z.leb_le; reflexivity|].
  exact Hv.
Defined.

(** X8 at entry 6, the brown of the palette. *)
Lemma palette_tables_agree_witness :
  stored_argb (palette16 6) = palette14 6 /\ nearest_ansi (palette14 6) = 6.
Proof. apply palette_tables_agree; [exact libcucul_colours_ok|lia]. Defined.

(** X9 with light red (entry 12) on brown (entry 6). *)
Lemma argb_palette_to_ansi_witness :
  exists s',
    cucul_set_color_argb one_cell (palette16 12) (palette16 6) = (0, s') /\
    _cucul_attr_to_ansi8 (curattr (st_cv s')) = 12 + 16 * 6 /\
    cucul_attr_to_ansi_bg (curattr (st_cv s')) = 6.
Proof.
  apply argb_palette_to_ansi; [exact libcucul_colours_ok|lia|lia].
Defined.

(** X10 with the default colour (0x10) on blue (0x01). *)
Lemma ansi_to_ansi8_witness :
  exists s',
    cucul_set_color_ansi one_cell 0x10 0x01 = (0, s') /\
    _cucul_attr_to_ansi8 (curattr (st_cv s')) = CUCUL_LIGHTGRAY + 16 * 0x01.
Proof.
  apply (ansi_to_ansi8 one_cell 0x10 0x01); [exact libcucul_colours_ok|lia|lia].
Defined.

(** X11 on light gray on black. *)
Lemma rgb12_is_argb4_rgb_witness :
  exists cb cf,
    _cucul_attr_to_argb4 0x1000470
    = Some (nibbles_msb_first cb ++ nibbles_msb_first cf) /\
    _cucul_attr_to_rgb12bg 0x1000470 = Some (cb mod 2 ^ 12) /\
    _cucul_attr_to_rgb12fg 0x1000470 = Some (cf mod 2 ^ 12).
Proof.
  destruct (rgb12_is_argb4_rgb 0x1000470 libcucul_colours_ok)
    as (cb & cf & _ & _ & H4 & Hb & Hf);
    [lia|apply Z.leb_le; reflexivity|apply Z.leb_le; reflexivity|].
  exists cb, cf. split; [exact H4|]. split.
  - apply Hb. discriminate.
  - apply Hf. discriminate.
Defined.

(** X12 on light gray on black. *)
Lemma rgb24_expands_rgb12_witness :
  exists cb cf,
    _cucul_attr_to_rgb12bg 0x1000470 = Some cb /\
    _cucul_attr_to_rgb12fg 0x1000470 = Some cf /\
    _cucul_attr_to_rgb24fg 0x1000470
    = Some (17 * ((cf / 2 ^ 8) * 2 ^ 16 + (cf / 2 ^ 4 mod 2 ^ 4) * 2 ^ 8
                  + cf mod 2 ^ 4)).
Proof.
  destruct (rgb24_expands_rgb12 0x1000470 libcucul_colours_ok)
    as (cb & cf & _ & _ & Hb & Hf & _ & H24);
    [lia|apply Z.leb_le; reflexivity|apply Z.leb_le; reflexivity|].
  exists cb, cf. auto.
Defined.

(** X13 with dark cyan (0xf088) on half-transparent white (0x8fff). *)
Lemma argb_round_trip_witness :
  exists s',
    cucul_set_color_argb one_cell 0xf088 0x8fff = (0, s') /\
    _cucul_attr_to_argb4 (curattr (st_cv s'))
    = Some (nibbles_msb_first (argb_read_back 0x8fff)
            ++ nibbles_msb_first (argb_read_back 0xf088)).
Proof.
  apply argb_round_trip;
    [exact libcucul_colours_ok|lia|lia|reflexivity|reflexivity].
Defined.

(** The stores of cucul_putattr are checked: on a canvas whose attrs
    array is one cell short, the call at the fullwidth character stores
    outside the array. *)
Lemma putattr_store_outside :
  cucul_putattr short_attrs 0 0 0x1000440 = None.
Proof. vm_compute. reflexivity. Qed.

(** X14 on the first row of the two-row canvas: at the fullwidth
    character, where cucul_putattr stores to the cell on the right, and at
    its continuation marker, where it stores to the cell on the left. *)
Lemma attr_access_witness :
  ((exists a, cucul_get_attr (st_cv wide_row) 0 0 = Some a) /\
   (exists r s', cucul_putattr wide_row 0 0 0x1000440 = Some (r, s'))) /\
  ((exists a, cucul_get_attr (st_cv wide_row) 1 0 = Some a) /\
   (exists r s', cucul_putattr wide_row 1 0 0x1000440 = Some (r, s'))).
Proof.
  split; apply attr_access_stays_in_arrays; exact wide_row_ok.
Defined.

(** X15 on the two-row canvas, at the continuation marker: the cell two
    columns to the right keeps its attribute. *)
Lemma putattr_frame_witness :
  exists s',
    cucul_putattr wide_row 0 0 0x1000440 = Some (0, s') /\
    chars (st_cv s') = chars (st_cv wide_row) /\
    cucul_get_attr (st_cv s') 2 0 = cucul_get_attr (st_cv wide_row) 2 0.
Proof.
  destruct (putattr_frame wide_row 0 0 0x1000440 wide_row_ok)
    as (s' & Hput & _ & _ & _ & Hc & _ & _ & Hfar);
    [unfold in_bounds; cbn; lia|lia|].
  exists s'. split; [exact Hput|]. split; [exact Hc|].
  apply Hfar; [unfold in_bounds; cbn; lia|lia].
Defined.

(** X16 on the two-row canvas, at the first cell. *)
Lemma putattr_target_cell_witness :
  exists s',
    cucul_putattr wide_row 0 0 0x1000440 = Some (0, s') /\
    cucul_get_attr (st_cv s') 0 0 = Some 0x1000470.
Proof.
  destruct (putattr_target_cell wide_row 0 0 0x1000440 wide_row_ok)
    as (s' & a0 & Ha0 & Hput & Hget); [unfold in_bounds; cbn; lia|lia|].
  exists s'. split; [exact Hput|].
  vm_compute in Ha0. injection Ha0 as <-. exact Hget.
Defined.

(** X17 on the four-row tunnel. *)
Lemma update_tunnel_slides_witness :
  exists t',
    Tunnel.update_tunnel Tunnel.game80 Tunnel.tunnel4 0 5 = Some t' /\
    Tunnel.left t' !! 1%nat = Some 30 /\ Tunnel.right t' !! 1%nat = Some 50.
Proof.
  destruct (update_tunnel_slides Tunnel.game80 Tunnel.tunnel4 0 5 tunnel4_ok)
    as (t' & Hup & _ & _ & _ & _ & Hk); [lia|lia|].
  exists t'. split; [exact Hup|].
  destruct (Hk 1%nat) as [Hl Hr]; [lia|cbn; lia|]. auto.
Defined.

(** X18 on the four-row tunnel. *)
Lemma update_tunnel_top_row_witness :
  exists t' a' b',
    Tunnel.update_tunnel Tunnel.game80 Tunnel.tunnel4 0 5 = Some t' /\
    Tunnel.left t' !! 0%nat = Some a' /\ Tunnel.right t' !! 0%nat = Some b' /\
    0 <= a' /\ b' <= 79.
Proof.
  destruct (update_tunnel_top_row Tunnel.game80 Tunnel.tunnel4 0 5 tunnel4_ok)
    as (t' & a & b & a' & b' & Hup & Ha & Hb & Ha' & Hb' & _ & _ & Hl & Hr);
    [lia|lia|cbn; lia|].
  exists t', a', b'. cbn in Ha, Hb. injection Ha as <-. injection Hb as <-.
  do 3 (split; [assumption|]). split; [apply Hl; lia|apply Hr; cbn; lia].
Defined.

(** X19 on a tunnel whose top row is 40 wide, more than two columns wider
    than the tunnel: the steps -3 and 3 are swapped and the new row is not
    wider; and on a tunnel whose top row is 10 wide, narrower than the
    tunnel: the steps 3 and -3 are swapped and the new row is not
    narrower. *)
Lemma update_tunnel_steers_width_witness :
  (exists t' a' b',
     Tunnel.update_tunnel Tunnel.game80 Tunnel.tunnel_wide_top 0 5 = Some t' /\
     Tunnel.left t' !! 0%nat = Some a' /\ Tunnel.right t' !! 0%nat = Some b' /\
     b' - a' <= 40) /\
  (exists t' a' b',
     Tunnel.update_tunnel Tunnel.game80 Tunnel.tunnel_narrow_top 5 0 = Some t' /\
     Tunnel.left t' !! 0%nat = Some a' /\ Tunnel.right t' !! 0%nat = Some b' /\
     (10 <= b' - a' \/ a' = 35 + 1 \/ b' = 45 - 1)).
Proof.
  split.
  - destruct (update_tunnel_steers_width Tunnel.game80 Tunnel.tunnel_wide_top
                0 5 tunnel_wide_top_ok)
      as (t' & a & b & a' & b' & Hup & Ha & Hb & Ha' & Hb' & Hwide & _);
      [lia|lia|cbn; lia|].
    cbn in Ha, Hb. injection Ha as <-. injection Hb as <-.
    exists t', a', b'. do 3 (split; [assumption|]).
    apply Hwide; cbn; lia.
  - destruct (update_tunnel_steers_width Tunnel.game80 Tunnel.tunnel_narrow_top
                5 0 tunnel_narrow_top_ok)
      as (t' & a & b & a' & b' & Hup & Ha & Hb & Ha' & Hb' & _ & Hnarrow);
      [lia|lia|cbn; lia|].
    cbn in Ha, Hb. injection Ha as <-. injection Hb as <-.
    exists t', a', b'. do 3 (split; [assumption|]).
    apply Hnarrow. cbn. lia.
Defined.

(** X20 on the open tunnel. *)
Lemma update_tunnel_stays_open_witness :
  exists t',
    Tunnel.update_tunnel Tunnel.game80 Tunnel.tunnel_open 2 3 = Some t' /\
    Tunnel.left t' !! 0%nat = Some (-10) /\
    Tunnel.right t' !! 0%nat = Some (Game.w Tunnel.game80 + 10).
Proof.
  apply update_tunnel_stays_open;
    [exact tunnel_open_ok|lia|lia|cbn; lia|reflexivity|reflexivity].
Defined.

(** X21 on the one-row tunnel. *)
Lemma update_tunnel_needs_two_rows_witness :
  Tunnel.update_tunnel Tunnel.game80 Tunnel.tunnel1 0 5 = None.
Proof. apply update_tunnel_needs_two_rows; cbn; lia. Defined.

End Concrete_further.

(** * ttyvaders: create_tunnel *)

(** The first loop of create_tunnel on rows i to i+n-1 of arrays that
    have them. *)
Lemma open_rows_in_range (n i : nat) (g : Game.game) (l r : list Z) :
  (i + n <= length l)%nat -> (i + n <= length r)%nat ->
  Z.of_nat (i + n) < 2 ^ 31 -> - 2 ^ 30 <= Game.w g <= 2 ^ 30 ->
  exists l' r',
    Tunnel.open_rows n (Z.of_nat i) g l r = Some (l', r') /\
    length l' = length l /\ length r' = length r /\
    forall k : nat,
      (l' !! k = if decide (i <= k < i + n)%nat then Some (-10) else l !! k) /\
      (r' !! k = if decide (i <= k < i + n)%nat
                 then Some (Game.w g + 10) else r !! k).
Proof.
  revert i l r. induction n as [|n IH]; intros i l r Hl Hr Hi Hg.
  - exists l, r. cbn [Tunnel.open_rows]. repeat split; try reflexivity;
      destruct (decide (i <= k < i + 0)%nat); (lia || reflexivity).
  - destruct (IH (S i) (<[i := -10]> l) (<[i := Game.w g + 10]> r))
      as (l' & r' & Hopen & Hll & Hlr & Hk);
      rewrite ?length_insert; try lia.
    rewrite length_insert in Hll, Hlr.
    exists l', r'. split; [|split; [exact Hll|split; [exact Hlr|]]].
    + cbn [Tunnel.open_rows].
      rewrite array_store_in_range by lia. cbn [mbind option_bind].
      rewrite (int_val_small (Game.w g + 10)) by lia. cbn [mbind option_bind].
      rewrite array_store_in_range by lia. cbn [mbind option_bind].
      rewrite (int_val_small (Z.of_nat i + 1)) by lia. cbn [mbind option_bind].
      rewrite !array_set_nat.
      replace (Z.of_nat i + 1) with (Z.of_nat (S i)) by lia. exact Hopen.
    + intros k. destruct (Hk k) as [Hkl Hkr]. rewrite Hkl, Hkr.
      destruct (decide (S i <= k < S i + n)%nat).
      * destruct (decide (i <= k < i + S n)%nat); [auto|lia].
      * destruct (decide (i <= k < i + S n)%nat).
        -- assert (k = i) as -> by lia.
           rewrite !list_lookup_insert_eq by lia. auto.
        -- rewrite !list_lookup_insert_ne by lia. auto.
Qed.

(** The first loop runs off arrays that are too short. *)
Lemma open_rows_too_short (n i : nat) (g : Game.game) (l r : list Z) :
  (i <= length l)%nat -> (length l < i + n)%nat ->
  Tunnel.open_rows n (Z.of_nat i) g l r = None.
Proof.
  revert i l r. induction n as [|n IH]; intros i l r Hi Hn; [lia|].
  cbn [Tunnel.open_rows].
  destruct (Nat.lt_ge_cases i (length l)) as [Hin|Hout].
  2:{ assert (Hst : array_store l (Z.of_nat i) (-10) = None).
      { unfold array_store. destruct (Z.leb_spec 0 (Z.of_nat i)); [|lia].
        destruct (Z.ltb_spec (Z.of_nat i) (Z.of_nat (length l)));
          [lia|reflexivity]. }
      now rewrite Hst. }
  rewrite (array_store_in_range l) by lia. cbn [mbind option_bind].
  destruct (int_val (Game.w g + 10)); [|reflexivity]. cbn [mbind option_bind].
  destruct (array_store r (Z.of_nat i) z); [|reflexivity]. cbn [mbind option_bind].
  destruct (int_val (Z.of_nat i + 1)) as [i'|] eqn:Hi'; [|reflexivity].
  cbn [mbind option_bind].
  assert (i' = Z.of_nat (S i)) as ->.
  { unfold int_val in Hi'. destruct (_ && _); [|discriminate].
    injection Hi' as <-. lia. }
  rewrite array_set_nat. apply IH; rewrite length_insert; lia.
Qed.

(** X22: create_tunnel with a tunnel at least as wide as the game, when
    the allocations succeed and the arrays have at least as many rows as
    the game, returns a tunnel of the given w and h whose rows 0 to
    g->h - 1 are open (left wall -10, right wall g->w + 10) and whose other
    rows are as the allocation left them; when an allocation fails it
    ends in exit(1). *)
Theorem create_tunnel_open (g : Game.game) (w0 h0 : Z) (l r : list Z)
    (rnd : nat -> Z * Z) :
  Game.w g <= w0 -> 0 <= Game.h g <= h0 -> h0 < 2 ^ 31 ->
  - 2 ^ 30 <= Game.w g <= 2 ^ 30 ->
  Z.of_nat (length l) = h0 -> Z.of_nat (length r) = h0 ->
  Tunnel.create_tunnel g w0 h0 None rnd = Some (Tunnel.Exit 1) /\
  exists t,
    Tunnel.create_tunnel g w0 h0 (Some (l, r)) rnd = Some (Tunnel.Return t) /\
    Tunnel.w t = w0 /\ Tunnel.h t = h0 /\
    length (Tunnel.left t) = length l /\ length (Tunnel.right t) = length r /\
    forall k : nat,
      (Z.of_nat k < Game.h g ->
       Tunnel.left t !! k = Some (-10) /\
       Tunnel.right t !! k = Some (Game.w g + 10)) /\
      (Game.h g <= Z.of_nat k ->
       Tunnel.left t !! k = l !! k /\ Tunnel.right t !! k = r !! k).
Proof.
  intros Hw Hh Hh0 Hg Hl Hr. split; [reflexivity|].
  destruct (open_rows_in_range (Z.to_nat (Game.h g)) 0 g l r)
    as (l' & r' & Hopen & Hll & Hlr & Hk); try lia.
  eexists. split.
  - unfold Tunnel.create_tunnel.
    destruct (Z.geb_spec w0 (Game.w g)); [|lia].
    change 0 with (Z.of_nat 0). rewrite Hopen. reflexivity.
  - cbn [Tunnel.left Tunnel.right Tunnel.w Tunnel.h fst snd].
    do 4 (split; [reflexivity || assumption|]).
    intros k. destruct (Hk k) as [Hkl Hkr]. rewrite Hkl, Hkr.
    split; intros Hkh.
    + destruct (decide (0 <= k < 0 + Z.to_nat (Game.h g))%nat); [auto|lia].
    + destruct (decide (0 <= k < 0 + Z.to_nat (Game.h g))%nat); [lia|auto].
Qed.

(** X23: create_tunnel with a tunnel at least as wide as the game and
    arrays of fewer rows than the game stores outside the arrays. *)
Theorem create_tunnel_short_arrays (g : Game.game) (w0 h0 : Z) (l r : list Z)
    (rnd : nat -> Z * Z) :
  Game.w g <= w0 -> Z.of_nat (length l) < Game.h g ->
  Tunnel.create_tunnel g w0 h0 (Some (l, r)) rnd = None.
Proof.
  intros Hw Hh. unfold Tunnel.create_tunnel.
  destruct (Z.geb_spec w0 (Game.w g)); [|lia].
  change 0 with (Z.of_nat 0). rewrite open_rows_too_short by lia. reflexivity.
Qed.

(** The new top row, when the tunnel is not wider than the game. *)
Lemma next_row_narrow (gw tw a b i0 j0 : Z) :
  tw <= gw -> -3 <= i0 <= 3 -> -3 <= j0 <= 3 ->
  -3 <= fst (Tunnel.next_row gw tw a b i0 j0) - a <= 3 /\
  -3 <= snd (Tunnel.next_row gw tw a b i0 j0) - b <= 3 /\
  (-1 <= a -> 0 <= fst (Tunnel.next_row gw tw a b i0 j0)) /\
  (b <= gw -> snd (Tunnel.next_row gw tw a b i0 j0) <= gw - 1).
Proof.
  intros Hw Hi Hj. unfold Tunnel.next_row.
  repeat split_condition; cbn [fst snd] in *; lia.
Qed.

(** One more call of update_tunnel keeps the walls on the screen. *)
Lemma update_tunnel_walls (g : Game.game) (t : Tunnel.tunnel) (u : nat) (r1 r2 : Z) :
  Tunnel.w t <= Game.w g -> 0 <= Game.w g <= 2 ^ 20 -> - 2 ^ 30 <= Tunnel.w t ->
  2 <= Tunnel.h t < 2 ^ 31 -> Z.of_nat u <= 2 ^ 20 ->
  Z.of_nat (length (Tunnel.left t)) = Tunnel.h t ->
  Z.of_nat (length (Tunnel.right t)) = Tunnel.h t ->
  Tunnel.walls_ok g t u -> 0 <= r1 <= 5 -> 0 <= r2 <= 5 ->
  exists t',
    Tunnel.update_tunnel g t r1 r2 = Some t' /\
    Tunnel.w t' = Tunnel.w t /\ Tunnel.h t' = Tunnel.h t /\
    Z.of_nat (length (Tunnel.left t')) = Tunnel.h t /\
    Z.of_nat (length (Tunnel.right t')) = Tunnel.h t /\
    Tunnel.walls_ok g t' (S u).
Proof.
  intros Hw Hg Htw Hh Hu Hll Hlr Hinv Hr1 Hr2.
  destruct (Hinv 0%nat) as (a & b & Ha & Hb & Hra & Hrb & _); [lia|lia|].
  assert (Hok : Tunnel.tunnel_ok g t).
  { unfold Tunnel.tunnel_ok. do 5 (split; [lia|]). exists a, b.
    repeat split; (assumption || lia). }
  destruct (update_tunnel_rows g t r1 r2 Hok Hr1 Hr2)
    as (a0 & b0 & i0 & j0 & l' & r' & Ha0 & Hb0 & _ & _ & Hi & Hj
        & Hl' & Hr' & Hk & Hup).
  rewrite Ha in Ha0. rewrite Hb in Hb0. injection Ha0 as <-. injection Hb0 as <-.
  destruct (next_row_narrow (Game.w g) (Tunnel.w t) a b i0 j0)
    as (Hna & Hnb & Hnl & Hnr); try lia.
  set (nr := Tunnel.next_row (Game.w g) (Tunnel.w t) a b i0 j0) in *.
  eexists. split; [exact Hup|].
  cbn [Tunnel.left Tunnel.right Tunnel.w Tunnel.h]. rewrite !length_insert.
  do 4 (split; [reflexivity || lia|]).
  intros k Hku Hkh. cbn [Tunnel.left Tunnel.right Tunnel.h] in *.
  destruct k as [|k].
  - exists (fst nr), (snd nr).
    rewrite !list_lookup_insert_eq by lia.
    split; [reflexivity|]. split; [reflexivity|].
    split; [lia|]. split; [lia|].
    intros a2 b2 _. rewrite !list_lookup_insert_ne by lia.
    destruct (Hk 1%nat) as [-> ->]; [lia|lia|]. cbn [Nat.sub].
    rewrite Ha, Hb. intros [= <-] [= <-]. lia.
  - rewrite !list_lookup_insert_ne by lia.
    destruct (Hk (S k)) as [-> ->]; [lia|lia|].
    replace (S k - 1)%nat with k by lia.
    destruct (Hinv k) as (ak & bk & Hak & Hbk & Hrak & Hrbk & Hadj); [lia|lia|].
    exists ak, bk. do 2 (split; [assumption|]).
    split; [lia|]. split; [lia|].
    intros a2 b2 Hsk. rewrite ?list_lookup_insert_ne by lia. intros Ha2 Hb2.
    destruct (decide (Z.of_nat (S (S k)) < Tunnel.h t)) as [Hin|Hout].
    + destruct (Hk (S (S k))) as [E1 E2]; [lia|lia|].
      rewrite E1 in Ha2. rewrite E2 in Hb2.
      replace (S (S k) - 1)%nat with (S k) in Ha2, Hb2 by lia.
      apply (Hadj a2 b2); [lia|assumption|assumption].
    + apply lookup_lt_Some in Ha2. lia.
Qed.

(** The second loop of create_tunnel: [n] more calls of update_tunnel after
    [u] of them keep the walls on the screen. *)
Lemma updates_walls (n u : nat) (g : Game.game) (t : Tunnel.tunnel)
    (rnd : nat -> Z * Z) :
  Tunnel.w t <= Game.w g -> 0 <= Game.w g <= 2 ^ 20 -> - 2 ^ 30 <= Tunnel.w t ->
  2 <= Tunnel.h t < 2 ^ 31 -> Z.of_nat (u + n) <= 2 ^ 20 ->
  Z.of_nat (length (Tunnel.left t)) = Tunnel.h t ->
  Z.of_nat (length (Tunnel.right t)) = Tunnel.h t ->
  (forall k : nat, 0 <= fst (rnd k) <= 5 /\ 0 <= snd (rnd k) <= 5) ->
  Tunnel.walls_ok g t u ->
  exists t',
    Tunnel.updates n u g t rnd = Some t' /\
    Tunnel.w t' = Tunnel.w t /\ Tunnel.h t' = Tunnel.h t /\
    Tunnel.walls_ok g t' (u + n).
Proof.
  revert u t. induction n as [|n IH]; intros u t Hw Hg Htw Hh Hu Hll Hlr Hrnd Hinv.
  - exists t. rewrite Nat.add_0_r. cbn [Tunnel.updates]. auto.
  - destruct (Hrnd u) as [Hr1 Hr2].
    destruct (update_tunnel_walls g t u (fst (rnd u)) (snd (rnd u)))
      as (t1 & Hup & Hw1 & Hh1 & Hll1 & Hlr1 & Hinv1); try assumption; [lia|].
    destruct (IH (S u) t1) as (t' & Hups & Hw' & Hh' & Hinv');
      try assumption; try lia.
    exists t'. cbn [Tunnel.updates]. rewrite Hup. cbn [mbind option_bind].
    rewrite Hups. replace (u + S n)%nat with (S u + n)%nat by lia.
    split; [reflexivity|]. split; [congruence|]. split; [congruence|exact Hinv'].
Qed.

(** X24: create_tunnel with a tunnel narrower than the game, when the
    allocations succeed, the tunnel has at least two rows and every random
    draw is in 0..5, returns a tunnel of the given w and h; each of its
    rows 0 to g->h (as far as the tunnel has them) has its left wall at
    column 0 or more and its right wall at column g->w - 1 or less, and
    each of rows 0 to g->h - 1 is within 3 columns of the row below. *)
Theorem create_tunnel_on_screen (g : Game.game) (w0 h0 : Z) (l r : list Z)
    (rnd : nat -> Z * Z) :
  0 <= w0 < Game.w g -> Game.w g <= 2 ^ 20 -> 0 <= Game.h g < 2 ^ 20 ->
  2 <= h0 < 2 ^ 31 ->
  Z.of_nat (length l) = h0 -> Z.of_nat (length r) = h0 ->
  (forall k : nat, 0 <= fst (rnd k) <= 5 /\ 0 <= snd (rnd k) <= 5) ->
  exists t,
    Tunnel.create_tunnel g w0 h0 (Some (l, r)) rnd = Some (Tunnel.Return t) /\
    Tunnel.w t = w0 /\ Tunnel.h t = h0 /\
    forall k : nat, Z.of_nat k < h0 -> Z.of_nat k <= Game.h g ->
      exists a b,
        Tunnel.left t !! k = Some a /\ Tunnel.right t !! k = Some b /\
        0 <= a /\ b <= Game.w g - 1 /\
        forall a2 b2, Z.of_nat k < Game.h g ->
          Tunnel.left t !! (S k) = Some a2 -> Tunnel.right t !! (S k) = Some b2 ->
          -3 <= a - a2 <= 3 /\ -3 <= b - b2 <= 3.
Proof.
  intros Hw Hgw Hgh Hh Hl Hr Hrnd.
  set (a0 := Z.quot (Game.w g - w0) 2). set (b0 := Z.quot (Game.w g + w0) 2).
  assert (Ha0 : 0 <= a0 <= 2 ^ 20).
  { unfold a0. rewrite Z.quot_div_nonneg by lia.
    Z.div_mod_to_equations. lia. }
  assert (Hb0 : 0 <= b0 <= Game.w g - 1).
  { unfold b0. rewrite Z.quot_div_nonneg by lia.
    Z.div_mod_to_equations. lia. }
  destruct (updates_walls (Z.to_nat (Game.h g)) 0 g
              {| Tunnel.left := <[0%nat := a0]> l;
                 Tunnel.right := <[0%nat := b0]> r;
                 Tunnel.w := w0; Tunnel.h := h0 |} rnd)
    as (t & Hups & Hw' & Hh' & Hinv);
    cbn [Tunnel.left Tunnel.right Tunnel.w Tunnel.h];
    rewrite ?length_insert; try lia; try assumption.
  { intros k Hk0 Hkh. assert (k = 0%nat) as -> by lia.
    cbn [Tunnel.left Tunnel.right].
    exists a0, b0. rewrite !list_lookup_insert_eq by lia.
    split; [reflexivity|]. split; [reflexivity|].
    split; [lia|]. split; [lia|]. intros a2 b2 Hsk. lia. }
  cbn [Tunnel.w Tunnel.h] in Hw', Hh'.
  exists t. split.
  - unfold Tunnel.create_tunnel.
    destruct (Z.geb_spec w0 (Game.w g)); [lia|].
    rewrite (int_val_small (Game.w g - w0)) by lia. cbn [mbind option_bind].
    change 0 with (Z.of_nat 0) at 1.
    rewrite array_store_in_range by lia. cbn [mbind option_bind].
    rewrite (int_val_small (Game.w g + w0)) by lia. cbn [mbind option_bind].
    change 0 with (Z.of_nat 0) at 1.
    rewrite array_store_in_range by lia. cbn [mbind option_bind].
    rewrite !array_set_nat. fold a0 b0. rewrite Hups. reflexivity.
  - split; [exact Hw'|]. split; [exact Hh'|].
    intros k Hk Hkg.
    destruct (Hinv k) as (a & b & Ha & Hb & Hra & Hrb & Hadj); [lia|lia|].
    exists a, b. do 2 (split; [assumption|]).
    split; [lia|]. split; [lia|].
    intros a2 b2 Hlt. apply Hadj. lia.
Qed.

(** * ttyvaders: draw_tunnel *)

(** A loop that runs on lo, ..., hi - 1 and whose body returns at each of
    them makes the calls of its bodies. *)
Lemma for_loop_calls (n : nat) (cond : Z -> bool)
    (body : Z -> option (list Tunnel.call)) (lo hi : Z) :
  (forall i, lo <= i -> cond i = (i <? hi)) ->
  - 2 ^ 31 <= lo -> hi < 2 ^ 31 -> (Z.to_nat (hi - lo) <= n)%nat ->
  (forall i, lo <= i < hi -> is_Some (body i)) ->
  exists tr,
    Tunnel.for_loop n cond body lo = Some tr /\
    forall c, In c tr <->
      exists i out, lo <= i < hi /\ body i = Some out /\ In c out.
Proof.
  revert lo. induction n as [|n IH]; intros lo Hcond Hlo Hhi Hn Hbody.
  - exists []. split.
    + cbn [Tunnel.for_loop]. rewrite Hcond by lia.
      destruct (Z.ltb_spec lo hi); [lia|reflexivity].
    + intros c. split; [intros []|]. intros (i & out & Hi & _). lia.
  - cbn [Tunnel.for_loop]. rewrite Hcond by lia.
    destruct (Z.ltb_spec lo hi) as [Hlt|Hge].
    + destruct (Hbody lo) as [out Hout]; [lia|].
      destruct (IH (lo + 1)) as (tr & Htr & Hin); try lia.
      { intros i Hi. apply Hcond. lia. }
      { intros i Hi. apply Hbody. lia. }
      exists (out ++ tr). split.
      * rewrite Hout. cbn [mbind option_bind].
        rewrite (int_val_small (lo + 1)) by lia. cbn [mbind option_bind].
        rewrite Htr. reflexivity.
      * intros c. rewrite in_app_iff, Hin. split.
        -- intros [Hc|(i & out' & Hi & Hb & Hc)].
           ++ exists lo, out. split; [lia|auto].
           ++ exists i, out'. split; [lia|auto].
        -- intros (i & out' & Hi & Hb & Hc).
           destruct (Z.eq_dec i lo) as [->|Hne].
           ++ left. congruence.
           ++ right. exists i, out'. split; [lia|auto].
    + exists []. split; [reflexivity|].
      intros c. split; [intros []|]. intros (i & out & Hi & _). lia.
Qed.

(** A loop stops at the first row whose body does not return. *)
Lemma for_loop_fails (n : nat) (cond : Z -> bool)
    (body : Z -> option (list Tunnel.call)) (lo bad : Z) :
  lo <= bad -> (forall i, lo <= i <= bad -> cond i = true) ->
  body bad = None ->
  Tunnel.for_loop n cond body lo = None.
Proof.
  intros Hle Hcond Hbad.
  remember (Z.to_nat (bad - lo)) as m eqn:Hm.
  revert n lo Hle Hcond Hm. induction m as [|m IH]; intros n lo Hle Hcond Hm.
  - assert (lo = bad) as -> by lia.
    destruct n; cbn [Tunnel.for_loop]; rewrite Hcond by lia; [reflexivity|].
    now rewrite Hbad.
  - destruct n; cbn [Tunnel.for_loop]; rewrite Hcond by lia; [reflexivity|].
    destruct (body lo); [|reflexivity]. cbn [mbind option_bind].
    destruct (int_val (lo + 1)) as [i'|] eqn:Hi'; [|reflexivity].
    cbn [mbind option_bind].
    assert (i' = lo + 1) as ->.
    { unfold int_val in Hi'. destruct (_ && _); [|discriminate]. congruence. }
    rewrite IH; [reflexivity|lia| |lia].
    intros i Hi. apply Hcond. lia.
Qed.

(** A list without elements. *)
Lemma no_calls (tr : list Tunnel.call) : (forall c, ~ In c tr) -> tr = [].
Proof. destruct tr as [|c tr]; [reflexivity|]. intros H. destruct (H c). now left. Qed.

(** The character of a wall is one of the four wall shapes. *)
Lemma wall_shape (g : Game.game) (a : list Z) (i : Z) :
  0 <= Game.h g < 2 ^ 31 ->
  (forall k, 0 <= k < Game.h g -> is_Some (array_get a k)) ->
  0 <= i < Game.h g ->
  exists c, Tunnel.wall g a i = Some c /\
    (c = ">" \/ c = "/" \/ c = "\" \/ c = "<")%char.
Proof.
  intros Hh Ha Hi. unfold Tunnel.wall.
  destruct (Ha i Hi) as [ai ->]. cbn [mbind option_bind].
  rewrite (int_val_small (i + 1)) by lia. cbn [mbind option_bind].
  assert (Hbelow : exists below,
    (if i + 1 =? Game.h g then Some true
     else a1 ← array_get a (i + 1); Some (ai >? a1)) = Some below).
  { destruct (Z.eqb_spec (i + 1) (Game.h g)); [eauto|].
    destruct (Ha (i + 1)) as [a1 ->]; [lia|]. cbn [mbind option_bind]. eauto. }
  destruct Hbelow as [below ->]. cbn [mbind option_bind].
  assert (Habove : exists above,
    (if i =? 0 then Some true
     else im ← int_val (i - 1); am ← array_get a im; Some (ai >? am))
    = Some above).
  { destruct (Z.eqb_spec i 0); [eauto|].
    rewrite (int_val_small (i - 1)) by lia. cbn [mbind option_bind].
    destruct (Ha (i - 1)) as [am ->]; [lia|]. cbn [mbind option_bind]. eauto. }
  destruct Habove as [above ->]. cbn [mbind option_bind].
  eexists. split; [reflexivity|]. destruct below, above; auto.
Qed.

Lemma rows_ok_left (g : Game.game) (t : Tunnel.tunnel) :
  Tunnel.rows_ok g t ->
  forall k, 0 <= k < Game.h g -> is_Some (array_get (Tunnel.left t) k).
Proof.
  intros (_ & _ & H) k Hk. destruct (H k Hk) as (a & b & -> & _). eauto.
Qed.

Lemma rows_ok_right (g : Game.game) (t : Tunnel.tunnel) :
  Tunnel.rows_ok g t ->
  forall k, 0 <= k < Game.h g -> is_Some (array_get (Tunnel.right t) k).
Proof.
  intros (_ & _ & H) k Hk. destruct (H k Hk) as (a & b & _ & -> & _). eauto.
Qed.

(** The calls of the left border at row i: the wall character right of
    the wall, then underscores up to the wall of the next row. *)
Lemma left_border_calls (g : Game.game) (t : Tunnel.tunnel) (i : Z) :
  Tunnel.rows_ok g t -> 0 <= i < Game.h g ->
  exists out,
    Tunnel.left_border g t i = Some out /\
    forall c, In c out ->
      exists x ch a,
        c = Tunnel.caca_putchar x i ch /\ ch <> "#"%char /\
        array_get (Tunnel.left t) i = Some a /\ -10 < a /\ a + 1 <= x /\
        (x = a + 1 \/
         exists a1, i + 1 < Game.h g /\
           array_get (Tunnel.left t) (i + 1) = Some a1 /\ x <= a1).
Proof.
  intros Hok Hi. pose proof Hok as (Hh & Hw & Hrows).
  destruct (Hrows i Hi) as (a & b & Ha & _ & Hra & _).
  unfold Tunnel.left_border. rewrite Ha. cbn [mbind option_bind].
  destruct (Z.leb_spec a (-10)) as [Hopen|Hwall].
  { exists []. split; [reflexivity|]. intros c []. }
  destruct (wall_shape g (Tunnel.left t) i Hh (rows_ok_left g t Hok) Hi)
    as (ch & -> & Hch). cbn [mbind option_bind].
  rewrite (int_val_small (a + 1)) by lia. cbn [mbind option_bind].
  rewrite (int_val_small (i + 1)) by lia. cbn [mbind option_bind].
  assert (Hnot : ch <> "#"%char).
  { destruct Hch as [-> | [-> | [-> | ->]]]; discriminate. }
  destruct (Z.ltb_spec (i + 1) (Game.h g)) as [Hnext|Hlast].
  - destruct (Hrows (i + 1)) as (a1 & b1 & Ha1 & _ & Hra1 & _); [lia|].
    rewrite Ha1. cbn [mbind option_bind].
    rewrite (int_val_small (a1 - a)) by lia. cbn [mbind option_bind].
    destruct (for_loop_calls (Z.to_nat (a1 - a)) (fun j => j <? a1 - a)
                (fun j => x ← int_val (a + j); x ← int_val (x + 1);
                          Some [Tunnel.caca_putchar x i "_"]) 1 (a1 - a))
      as (run & -> & Hrun); try lia; [|].
    { intros j Hj. rewrite (int_val_small (a + j)) by lia.
      cbn [mbind option_bind].
      rewrite (int_val_small (a + j + 1)) by lia. eauto. }
    cbn [mbind option_bind]. eexists. split; [reflexivity|].
    intros c [<-|Hc].
    + exists (a + 1), ch, a. repeat split; auto; lia.
    + apply Hrun in Hc as (j & out & Hj & Hout & Hc).
      rewrite (int_val_small (a + j)) in Hout by lia.
      cbn [mbind option_bind] in Hout.
      rewrite (int_val_small (a + j + 1)) in Hout by lia.
      cbn [mbind option_bind] in Hout. injection Hout as <-.
      destruct Hc as [<-|[]].
      exists (a + j + 1), "_"%char, a.
      split; [reflexivity|]. split; [discriminate|]. split; [reflexivity|].
      split; [lia|]. split; [lia|]. right. exists a1.
      split; [lia|]. split; [reflexivity|lia].
  - cbn [mbind option_bind]. eexists. split; [reflexivity|].
    intros c [<-|[]]. exists (a + 1), ch, a. repeat split; auto; lia.
Qed.

(** The calls of the right border at row i: underscores from the wall of
    the next row, then the wall character left of the wall. *)
Lemma right_border_calls (g : Game.game) (t : Tunnel.tunnel) (i : Z) :
  Tunnel.rows_ok g t -> 0 <= i < Game.h g ->
  exists out,
    Tunnel.right_border g t i = Some out /\
    forall c, In c out ->
      exists x ch b,
        c = Tunnel.caca_putchar x i ch /\ ch <> "#"%char /\
        array_get (Tunnel.right t) i = Some b /\ b < Game.w g + 10 /\
        x <= b - 1 /\
        (x = b - 1 \/
         exists b1, i + 1 < Game.h g /\
           array_get (Tunnel.right t) (i + 1) = Some b1 /\ b1 <= x).
Proof.
  intros Hok Hi. pose proof Hok as (Hh & Hw & Hrows).
  destruct (Hrows i Hi) as (a & b & _ & Hb & _ & Hrb).
  unfold Tunnel.right_border. rewrite Hb. cbn [mbind option_bind].
  rewrite (int_val_small (Game.w g + 10)) by lia. cbn [mbind option_bind].
  destruct (Z.geb_spec b (Game.w g + 10)) as [Hopen|Hwall].
  { exists []. split; [reflexivity|]. intros c []. }
  destruct (wall_shape g (Tunnel.right t) i Hh (rows_ok_right g t Hok) Hi)
    as (ch & -> & Hch). cbn [mbind option_bind].
  rewrite (int_val_small (i + 1)) by lia. cbn [mbind option_bind].
  assert (Hnot : ch <> "#"%char).
  { destruct Hch as [-> | [-> | [-> | ->]]]; discriminate. }
  destruct (Z.ltb_spec (i + 1) (Game.h g)) as [Hnext|Hlast].
  - destruct (Hrows (i + 1)) as (a1 & b1 & _ & Hb1 & _ & Hrb1); [lia|].
    rewrite Hb1. cbn [mbind option_bind].
    rewrite (int_val_small (b - b1)) by lia. cbn [mbind option_bind].
    destruct (for_loop_calls (Z.to_nat (b - b1)) (fun j => j <? b - b1)
                (fun j => x ← int_val (b1 + j); x ← int_val (x - 1);
                          Some [Tunnel.caca_putchar x i "_"]) 1 (b - b1))
      as (run & -> & Hrun); try lia; [|].
    { intros j Hj. rewrite (int_val_small (b1 + j)) by lia.
      cbn [mbind option_bind].
      rewrite (int_val_small (b1 + j - 1)) by lia. eauto. }
    cbn [mbind option_bind].
    rewrite (int_val_small (b - 1)) by lia. cbn [mbind option_bind].
    eexists. split; [reflexivity|].
    intros c Hc. apply in_app_iff in Hc as [Hc|[<-|[]]].
    + apply Hrun in Hc as (j & out & Hj & Hout & Hc).
      rewrite (int_val_small (b1 + j)) in Hout by lia.
      cbn [mbind option_bind] in Hout.
      rewrite (int_val_small (b1 + j - 1)) in Hout by lia.
      cbn [mbind option_bind] in Hout. injection Hout as <-.
      destruct Hc as [<-|[]].
      exists (b1 + j - 1), "_"%char, b.
      split; [reflexivity|]. split; [discriminate|]. split; [reflexivity|].
      split; [lia|]. split; [lia|]. right. exists b1.
      split; [lia|]. split; [reflexivity|lia].
    + exists (b - 1), ch, b. repeat split; auto; lia.
  - cbn [mbind option_bind].
    rewrite (int_val_small (b - 1)) by lia. cbn [mbind option_bind].
    eexists. split; [reflexivity|].
    intros c [<-|[]]. exists (b - 1), ch, b. repeat split; auto; lia.
Qed.

(** The calls of the left concrete at row i: a '#' at each column from 0
    to the wall. *)
Lemma left_concrete_calls (g : Game.game) (t : Tunnel.tunnel) (i : Z) :
  Tunnel.rows_ok g t -> 0 <= i < Game.h g ->
  exists out a,
    Tunnel.left_concrete t i = Some out /\
    array_get (Tunnel.left t) i = Some a /\
    forall c, In c out <->
      exists x, c = Tunnel.caca_putchar x i "#" /\ 0 <= x <= a.
Proof.
  intros (Hh & Hw & Hrows) Hi.
  destruct (Hrows i Hi) as (a & b & Ha & _ & Hra & _).
  unfold Tunnel.left_concrete. rewrite Ha. cbn [mbind option_bind].
  destruct (for_loop_calls (Z.to_nat (a + 1)) (fun j => j <=? a)
              (fun j => Some [Tunnel.caca_putchar j i "#"]) 0 (a + 1))
    as (out & -> & Hout); try lia; [eauto|].
  exists out, a. do 2 (split; [reflexivity|]).
  intros c. rewrite Hout. split.
  - intros (j & o & Hj & [= <-] & [<-|[]]). exists j. split; [reflexivity|lia].
  - intros (x & -> & Hx). exists x, [Tunnel.caca_putchar x i "#"].
    split; [lia|]. split; [reflexivity|now left].
Qed.

(** The calls of the right concrete at row i: a '#' at each column from
    the wall to the last one of the game. *)
Lemma right_concrete_calls (g : Game.game) (t : Tunnel.tunnel) (i : Z) :
  Tunnel.rows_ok g t -> 0 <= i < Game.h g ->
  exists out b,
    Tunnel.right_concrete g t i = Some out /\
    array_get (Tunnel.right t) i = Some b /\
    forall c, In c out <->
      exists x, c = Tunnel.caca_putchar x i "#" /\ b <= x < Game.w g.
Proof.
  intros (Hh & Hw & Hrows) Hi.
  destruct (Hrows i Hi) as (a & b & _ & Hb & _ & Hrb).
  unfold Tunnel.right_concrete. rewrite Hb. cbn [mbind option_bind].
  destruct (for_loop_calls (Z.to_nat (Game.w g - b)) (fun j => j <? Game.w g)
              (fun j => Some [Tunnel.caca_putchar j i "#"]) b (Game.w g))
    as (out & -> & Hout); try lia; [eauto|].
  exists out, b. do 2 (split; [reflexivity|]).
  intros c. rewrite Hout. split.
  - intros (j & o & Hj & [= <-] & [<-|[]]). exists j. split; [reflexivity|lia].
  - intros (x & -> & Hx). exists x, [Tunnel.caca_putchar x i "#"].
    split; [lia|]. split; [reflexivity|now left].
Qed.

(** A loop on the rows of the game whose body returns at each row. *)
Lemma rows_loop (g : Game.game) (body : Z -> option (list Tunnel.call)) :
  0 <= Game.h g < 2 ^ 31 ->
  (forall i, 0 <= i < Game.h g -> is_Some (body i)) ->
  exists tr,
    Tunnel.for_loop (Z.to_nat (Game.h g)) (fun i => i <? Game.h g) body 0
    = Some tr /\
    forall c, In c tr <-> exists i out,
      0 <= i < Game.h g /\ body i = Some out /\ In c out.
Proof.
  intros Hh Hbody.
  apply (for_loop_calls _ _ body 0 (Game.h g)); try lia; auto.
Qed.

(** draw_tunnel on a tunnel that has the rows of the game: the calls of
    the four loops, each made of the calls of its rows. *)
Lemma draw_tunnel_rows (g : Game.game) (t : Tunnel.tunnel) :
  Tunnel.rows_ok g t ->
  exists lb rb lc rc,
    Tunnel.draw_tunnel g t
    = Some (Tunnel.caca_set_color Tunnel.EE_GREEN :: lb ++ rb
            ++ Tunnel.caca_set_color Tunnel.EE_RED :: lc ++ rc) /\
    (forall c, In c lb <-> exists i out,
       0 <= i < Game.h g /\ Tunnel.left_border g t i = Some out /\ In c out) /\
    (forall c, In c rb <-> exists i out,
       0 <= i < Game.h g /\ Tunnel.right_border g t i = Some out /\ In c out) /\
    (forall c, In c lc <-> exists i out,
       0 <= i < Game.h g /\ Tunnel.left_concrete t i = Some out /\ In c out) /\
    (forall c, In c rc <-> exists i out,
       0 <= i < Game.h g /\ Tunnel.right_concrete g t i = Some out /\ In c out).
Proof.
  intros Hok. pose proof Hok as (Hh & Hw & Hrows).
  pose proof (rows_loop g) as Hloop.
  destruct (Hloop (Tunnel.left_border g t) Hh) as (lb & Elb & Hlb).
  { intros i Hi. destruct (left_border_calls g t i Hok Hi) as (out & -> & _).
    eauto. }
  destruct (Hloop (Tunnel.right_border g t) Hh) as (rb & Erb & Hrb).
  { intros i Hi. destruct (right_border_calls g t i Hok Hi) as (out & -> & _).
    eauto. }
  destruct (Hloop (Tunnel.left_concrete t) Hh) as (lc & Elc & Hlc).
  { intros i Hi.
    destruct (left_concrete_calls g t i Hok Hi) as (out & a & -> & _). eauto. }
  destruct (Hloop (Tunnel.right_concrete g t) Hh) as (rc & Erc & Hrc).
  { intros i Hi.
    destruct (right_concrete_calls g t i Hok Hi) as (out & b & -> & _). eauto. }
  exists lb, rb, lc, rc. split; [|auto].
  unfold Tunnel.draw_tunnel. cbv zeta. rewrite Elb, Erb, Elc, Erc. reflexivity.
Qed.

(** On an open tunnel none of the four loops of draw_tunnel makes a
    call. *)
Lemma open_tunnel_loops (g : Game.game) (t : Tunnel.tunnel) :
  Tunnel.rows_ok g t ->
  (forall i a b, 0 <= i < Game.h g ->
     array_get (Tunnel.left t) i = Some a ->
     array_get (Tunnel.right t) i = Some b ->
     a <= -10 /\ Game.w g + 10 <= b) ->
  let rows := Tunnel.for_loop (Z.to_nat (Game.h g)) (fun i => i <? Game.h g) in
  rows (Tunnel.left_border g t) 0 = Some [] /\
  rows (Tunnel.right_border g t) 0 = Some [] /\
  rows (Tunnel.left_concrete t) 0 = Some [] /\
  rows (Tunnel.right_concrete g t) 0 = Some [].
Proof.
  intros Hok Hopen rows. pose proof Hok as (Hh & Hw & Hrows).
  assert (Hnone : forall body : Z -> option (list Tunnel.call),
    (forall i, 0 <= i < Game.h g ->
       exists out, body i = Some out /\ forall c, ~ In c out) ->
    rows body 0 = Some []).
  { intros body Hbody.
    destruct (rows_loop g body Hh) as (tr & Htr & Hin).
    { intros i Hi. destruct (Hbody i Hi) as (out & -> & _). eauto. }
    unfold rows. rewrite Htr. f_equal. apply no_calls.
    intros c Hc. apply Hin in Hc as (i & out & Hi & Hout & Hc).
    destruct (Hbody i Hi) as (out' & Hout' & Hno).
    rewrite Hout in Hout'. injection Hout' as <-. exact (Hno c Hc). }
  assert (Hrow : forall i, 0 <= i < Game.h g -> exists a b,
            array_get (Tunnel.left t) i = Some a /\
            array_get (Tunnel.right t) i = Some b /\
            a <= -10 /\ Game.w g + 10 <= b).
  { intros i Hi. destruct (Hrows i Hi) as (a & b & Ha & Hb & _).
    exists a, b. destruct (Hopen i a b Hi Ha Hb). auto. }
  split; [|split; [|split]]; apply Hnone; intros i Hi;
    destruct (Hrow i Hi) as (a & b & Ha & Hb & Hla & Hlb).
  - destruct (left_border_calls g t i Hok Hi) as (out & Hout & Hcalls).
    exists out. split; [assumption|]. intros c Hc.
    destruct (Hcalls c Hc) as (x & ch & a' & _ & _ & Ha' & Hwall & _).
    rewrite Ha in Ha'. injection Ha' as <-. lia.
  - destruct (right_border_calls g t i Hok Hi) as (out & Hout & Hcalls).
    exists out. split; [assumption|]. intros c Hc.
    destruct (Hcalls c Hc) as (x & ch & b' & _ & _ & Hb' & Hwall & _).
    rewrite Hb in Hb'. injection Hb' as <-. lia.
  - destruct (left_concrete_calls g t i Hok Hi) as (out & a' & Hout & Ha' & Hcalls).
    exists out. split; [assumption|]. intros c Hc.
    destruct (proj1 (Hcalls _) Hc) as (x & Hcx & Hx).
    rewrite Ha in Ha'. injection Ha' as <-. lia.
  - destruct (right_concrete_calls g t i Hok Hi) as (out & b' & Hout & Hb' & Hcalls).
    exists out. split; [assumption|]. intros c Hc.
    destruct (proj1 (Hcalls _) Hc) as (x & Hcx & Hx).
    rewrite Hb in Hb'. injection Hb' as <-. lia.
Qed.

(** X25: draw_tunnel on an open tunnel (every row of the game has its left
    wall at -10 or less and its right wall at g->w + 10 or more) sets the
    two colours and draws no character. *)
Theorem draw_tunnel_open (g : Game.game) (t : Tunnel.tunnel) :
  Tunnel.rows_ok g t ->
  (forall i a b, 0 <= i < Game.h g ->
     array_get (Tunnel.left t) i = Some a ->
     array_get (Tunnel.right t) i = Some b ->
     a <= -10 /\ Game.w g + 10 <= b) ->
  Tunnel.draw_tunnel g t
  = Some [Tunnel.caca_set_color Tunnel.EE_GREEN;
          Tunnel.caca_set_color Tunnel.EE_RED].
Proof.
  intros Hok Hopen.
  destruct (open_tunnel_loops g t Hok Hopen) as (Elb & Erb & Elc & Erc).
  unfold Tunnel.draw_tunnel. cbv zeta. rewrite Elb, Erb, Elc, Erc. reflexivity.
Qed.

(** X27: draw_tunnel on a tunnel that has the rows of the game returns,
    and it draws a '#' at column x of row y exactly when y is a row of
    the game and x is either between 0 and the left wall of the row, or
    between its right wall and the last column of the game. *)
Theorem draw_tunnel_concrete (g : Game.game) (t : Tunnel.tunnel) :
  Tunnel.rows_ok g t ->
  exists tr,
    Tunnel.draw_tunnel g t = Some tr /\
    forall x y,
      In (Tunnel.caca_putchar x y "#") tr <->
      exists a b,
        0 <= y < Game.h g /\
        array_get (Tunnel.left t) y = Some a /\
        array_get (Tunnel.right t) y = Some b /\
        (0 <= x <= a \/ b <= x < Game.w g).
Proof.
  intros Hok.
  destruct (draw_tunnel_rows g t Hok) as (lb & rb & lc & rc & -> & Hlb & Hrb & Hlc & Hrc).
  pose proof Hok as (Hh & Hw & Hrows).
  eexists. split; [reflexivity|]. intros x y. split.
  - intros [Hc|Hc]; [discriminate|].
    apply in_app_iff in Hc as [Hc|Hc].
    { apply Hlb in Hc as (i & out & Hi & Hout & Hc).
      destruct (left_border_calls g t i Hok Hi) as (out' & Hout' & Hcalls).
      rewrite Hout in Hout'. injection Hout' as <-.
      destruct (Hcalls _ Hc) as (x' & ch & a & [= -> -> <-] & Hch & _).
      now destruct Hch. }
    apply in_app_iff in Hc as [Hc|Hc].
    { apply Hrb in Hc as (i & out & Hi & Hout & Hc).
      destruct (right_border_calls g t i Hok Hi) as (out' & Hout' & Hcalls).
      rewrite Hout in Hout'. injection Hout' as <-.
      destruct (Hcalls _ Hc) as (x' & ch & a & [= -> -> <-] & Hch & _).
      now destruct Hch. }
    destruct Hc as [Hc|Hc]; [discriminate|].
    apply in_app_iff in Hc as [Hc|Hc].
    + apply Hlc in Hc as (i & out & Hi & Hout & Hc).
      destruct (left_concrete_calls g t i Hok Hi) as (out' & a & Hout' & Ha & Hcalls).
      rewrite Hout in Hout'. injection Hout' as <-.
      destruct (proj1 (Hcalls _) Hc) as (x' & [= -> ->] & Hx).
      destruct (Hrows i Hi) as (a' & b & Ha' & Hb & _).
      rewrite Ha in Ha'. injection Ha' as <-.
      exists a, b. auto.
    + apply Hrc in Hc as (i & out & Hi & Hout & Hc).
      destruct (right_concrete_calls g t i Hok Hi) as (out' & b & Hout' & Hb & Hcalls).
      rewrite Hout in Hout'. injection Hout' as <-.
      destruct (proj1 (Hcalls _) Hc) as (x' & [= -> ->] & Hx).
      destruct (Hrows i Hi) as (a & b' & Ha & Hb' & _).
      rewrite Hb in Hb'. injection Hb' as <-.
      exists a, b. auto.
  - intros (a & b & Hy & Ha & Hb & Hx).
    right. apply in_app_iff. right. apply in_app_iff. right.
    right. apply in_app_iff.
    destruct Hx as [Hx|Hx].
    + left. apply Hlc.
      destruct (left_concrete_calls g t y Hok Hy) as (out & a' & Hout & Ha' & Hcalls).
      rewrite Ha in Ha'. injection Ha' as <-.
      exists y, out. do 2 (split; [assumption|]). apply Hcalls. eauto.
    + right. apply Hrc.
      destruct (right_concrete_calls g t y Hok Hy) as (out & b' & Hout & Hb' & Hcalls).
      rewrite Hb in Hb'. injection Hb' as <-.
      exists y, out. do 2 (split; [assumption|]). apply Hcalls. eauto.
Qed.

(** X28: when every wall of the rows of the game is on the screen (at
    columns 0 to g->w - 1), every character draw_tunnel draws is in a
    row of the game and at a column from -1 to g->w. *)
Theorem draw_tunnel_on_screen (g : Game.game) (t : Tunnel.tunnel) :
  Tunnel.rows_ok g t ->
  (forall i a b, 0 <= i < Game.h g ->
     array_get (Tunnel.left t) i = Some a ->
     array_get (Tunnel.right t) i = Some b ->
     0 <= a <= Game.w g - 1 /\ 0 <= b <= Game.w g - 1) ->
  exists tr,
    Tunnel.draw_tunnel g t = Some tr /\
    forall x y c, In (Tunnel.caca_putchar x y c) tr ->
      0 <= y < Game.h g /\ -1 <= x <= Game.w g.
Proof.
  intros Hok Hscreen.
  destruct (draw_tunnel_rows g t Hok) as (lb & rb & lc & rc & -> & Hlb & Hrb & Hlc & Hrc).
  pose proof Hok as (Hh & Hw & Hrows).
  eexists. split; [reflexivity|]. intros x y c.
  intros [Hc|Hc]; [discriminate|].
  apply in_app_iff in Hc as [Hc|Hc].
  { apply Hlb in Hc as (i & out & Hi & Hout & Hc).
    destruct (left_border_calls g t i Hok Hi) as (out' & Hout' & Hcalls).
    rewrite Hout in Hout'. injection Hout' as <-.
    destruct (Hcalls _ Hc) as (x' & ch & a & [= -> -> <-] & _ & Ha & _ & Hlo & Hup).
    destruct (Hrows i Hi) as (a' & b & Ha' & Hb & _).
    rewrite Ha in Ha'. injection Ha' as <-.
    destruct (Hscreen i a b Hi Ha Hb) as [Hsa Hsb].
    split; [assumption|].
    destruct Hup as [->|(a1 & Hi1 & Ha1 & Hx)]; [lia|].
    destruct (Hrows (i + 1)) as (a1' & b1 & Ha1' & Hb1 & _); [lia|].
    rewrite Ha1 in Ha1'. injection Ha1' as <-.
    destruct (Hscreen (i + 1) a1 b1) as [Hsa1 Hsb1]; [lia|assumption|assumption|].
    lia. }
  apply in_app_iff in Hc as [Hc|Hc].
  { apply Hrb in Hc as (i & out & Hi & Hout & Hc).
    destruct (right_border_calls g t i Hok Hi) as (out' & Hout' & Hcalls).
    rewrite Hout in Hout'. injection Hout' as <-.
    destruct (Hcalls _ Hc) as (x' & ch & b & [= -> -> <-] & _ & Hb & _ & Hlo & Hup).
    destruct (Hrows i Hi) as (a & b' & Ha & Hb' & _).
    rewrite Hb in Hb'. injection Hb' as <-.
    destruct (Hscreen i a b Hi Ha Hb) as [Hsa Hsb].
    split; [assumption|].
    destruct Hup as [->|(b1 & Hi1 & Hb1 & Hx)]; [lia|].
    destruct (Hrows (i + 1)) as (a1 & b1' & Ha1 & Hb1' & _); [lia|].
    rewrite Hb1 in Hb1'. injection Hb1' as <-.
    destruct (Hscreen (i + 1) a1 b1) as [Hsa1 Hsb1]; [lia|assumption|assumption|].
    lia. }
  destruct Hc as [Hc|Hc]; [discriminate|].
  apply in_app_iff in Hc as [Hc|Hc].
  - apply Hlc in Hc as (i & out & Hi & Hout & Hc).
    destruct (left_concrete_calls g t i Hok Hi) as (out' & a & Hout' & Ha & Hcalls).
    rewrite Hout in Hout'. injection Hout' as <-.
    destruct (proj1 (Hcalls _) Hc) as (x' & [= -> -> ->] & Hx).
    destruct (Hrows i Hi) as (a' & b & Ha' & Hb & _).
    rewrite Ha in Ha'. injection Ha' as <-.
    destruct (Hscreen i a b Hi Ha Hb) as [Hsa Hsb]. lia.
  - apply Hrc in Hc as (i & out & Hi & Hout & Hc).
    destruct (right_concrete_calls g t i Hok Hi) as (out' & b & Hout' & Hb & Hcalls).
    rewrite Hout in Hout'. injection Hout' as <-.
    destruct (proj1 (Hcalls _) Hc) as (x' & [= -> -> ->] & Hx).
    destruct (Hrows i Hi) as (a & b' & Ha & Hb' & _).
    rewrite Hb in Hb'. injection Hb' as <-.
    destruct (Hscreen i a b Hi Ha Hb) as [Hsa Hsb]. lia.
Qed.

(** The wall character of the left border at a row whose wall is right of
    column -10. *)
Lemma left_border_wall (g : Game.game) (t : Tunnel.tunnel) (i a : Z) :
  Tunnel.rows_ok g t -> 0 <= i < Game.h g ->
  array_get (Tunnel.left t) i = Some a -> -10 < a ->
  exists out ch,
    Tunnel.left_border g t i = Some out /\
    In (Tunnel.caca_putchar (a + 1) i ch) out /\
    (ch = ">" \/ ch = "/" \/ ch = "\" \/ ch = "<")%char.
Proof.
  intros Hok Hi Ha Hwall. pose proof Hok as (Hh & Hw & Hrows).
  destruct (left_border_calls g t i Hok Hi) as (out & Hout & _).
  destruct (Hrows i Hi) as (a' & b & Ha' & _ & Hra & _).
  rewrite Ha in Ha'. injection Ha' as <-.
  exists out. pose proof Hout as Hout0. unfold Tunnel.left_border in Hout.
  rewrite Ha in Hout. cbn [mbind option_bind] in Hout.
  destruct (Z.leb_spec a (-10)); [lia|].
  destruct (wall_shape g (Tunnel.left t) i Hh (rows_ok_left g t Hok) Hi)
    as (ch & Hch & Hshape).
  rewrite Hch in Hout. cbn [mbind option_bind] in Hout.
  rewrite (int_val_small (a + 1)) in Hout by lia.
  cbn [mbind option_bind] in Hout.
  rewrite (int_val_small (i + 1)) in Hout by lia.
  cbn [mbind option_bind] in Hout.
  match type of Hout with
  | ?run ≫= _ = _ => destruct run as [run'|]; [|discriminate]
  end.
  cbn [mbind option_bind] in Hout. injection Hout as <-.
  exists ch. split; [exact Hout0|]. split; [now left|assumption].
Qed.

(** The wall character of the right border at a row whose wall is left of
    column g->w + 10. *)
Lemma right_border_wall (g : Game.game) (t : Tunnel.tunnel) (i b : Z) :
  Tunnel.rows_ok g t -> 0 <= i < Game.h g ->
  array_get (Tunnel.right t) i = Some b -> b < Game.w g + 10 ->
  exists out ch,
    Tunnel.right_border g t i = Some out /\
    In (Tunnel.caca_putchar (b - 1) i ch) out /\
    (ch = ">" \/ ch = "/" \/ ch = "\" \/ ch = "<")%char.
Proof.
  intros Hok Hi Hb Hwall. pose proof Hok as (Hh & Hw & Hrows).
  destruct (right_border_calls g t i Hok Hi) as (out & Hout & _).
  destruct (Hrows i Hi) as (a & b' & _ & Hb' & _ & Hrb).
  rewrite Hb in Hb'. injection Hb' as <-.
  exists out. pose proof Hout as Hout0. unfold Tunnel.right_border in Hout.
  rewrite Hb in Hout. cbn [mbind option_bind] in Hout.
  rewrite (int_val_small (Game.w g + 10)) in Hout by lia.
  cbn [mbind option_bind] in Hout.
  destruct (Z.geb_spec b (Game.w g + 10)); [lia|].
  destruct (wall_shape g (Tunnel.right t) i Hh (rows_ok_right g t Hok) Hi)
    as (ch & Hch & Hshape).
  rewrite Hch in Hout. cbn [mbind option_bind] in Hout.
  rewrite (int_val_small (i + 1)) in Hout by lia.
  cbn [mbind option_bind] in Hout.
  match type of Hout with
  | ?run ≫= _ = _ => destruct run as [run'|]; [|discriminate]
  end.
  cbn [mbind option_bind] in Hout.
  rewrite (int_val_small (b - 1)) in Hout by lia.
  cbn [mbind option_bind] in Hout. injection Hout as <-.
  exists ch. split; [exact Hout0|].
  split; [apply in_app_iff; right; now left|assumption].
Qed.

(** X26: the tunnel create_tunnel returns for a width at least that of
    the game is drawn by draw_tunnel without a single character. *)
Theorem create_then_draw_open (g : Game.game) (w0 h0 : Z) (l r : list Z)
    (rnd : nat -> Z * Z) :
  Game.w g <= w0 -> 0 <= Game.h g <= h0 -> h0 < 2 ^ 31 ->
  0 <= Game.w g <= 2 ^ 20 ->
  Z.of_nat (length l) = h0 -> Z.of_nat (length r) = h0 ->
  exists t,
    Tunnel.create_tunnel g w0 h0 (Some (l, r)) rnd = Some (Tunnel.Return t) /\
    Tunnel.draw_tunnel g t
    = Some [Tunnel.caca_set_color Tunnel.EE_GREEN;
            Tunnel.caca_set_color Tunnel.EE_RED].
Proof.
  intros Hw Hh Hh0 Hg Hl Hr.
  destruct (open_rows_in_range (Z.to_nat (Game.h g)) 0 g l r)
    as (l' & r' & Hopen & Hll & Hlr & Hk); try lia.
  set (t := {| Tunnel.left := l'; Tunnel.right := r';
               Tunnel.w := w0; Tunnel.h := h0 |}).
  assert (Hrow : forall i, 0 <= i < Game.h g ->
            array_get (Tunnel.left t) i = Some (-10) /\
            array_get (Tunnel.right t) i = Some (Game.w g + 10)).
  { intros i Hi. rewrite <- (Z2Nat.id i) by lia. rewrite !array_get_nat.
    destruct (Hk (Z.to_nat i)) as [Hkl Hkr]. cbn [Tunnel.left Tunnel.right t].
    rewrite Hkl, Hkr.
    destruct (decide (0 <= Z.to_nat i < 0 + Z.to_nat (Game.h g))%nat); [auto|lia]. }
  exists t. split.
  - unfold Tunnel.create_tunnel.
    destruct (Z.geb_spec w0 (Game.w g)); [|lia].
    change 0 with (Z.of_nat 0). rewrite Hopen. reflexivity.
  - destruct (open_tunnel_loops g t) as (Elb & Erb & Elc & Erc).
    + split; [lia|]. split; [lia|]. intros i Hi.
      destruct (Hrow i Hi) as [-> ->]. exists (-10), (Game.w g + 10).
      repeat split; lia.
    + intros i a b Hi Ha Hb. destruct (Hrow i Hi) as [Ha' Hb'].
      rewrite Ha in Ha'. rewrite Hb in Hb'.
      injection Ha' as <-. injection Hb' as <-. lia.
    + unfold Tunnel.draw_tunnel. cbv zeta.
      rewrite Elb, Erb, Elc, Erc. reflexivity.
Qed.

(** A loop on the rows of the game does not return when its body reads
    a row that the arrays do not have. *)
Lemma rows_loop_fails (g : Game.game) (body : Z -> option (list Tunnel.call))
    (bad : Z) :
  0 <= bad < Game.h g -> body bad = None ->
  Tunnel.for_loop (Z.to_nat (Game.h g)) (fun i => i <? Game.h g) body 0 = None.
Proof.
  intros Hbad Hnone. apply (for_loop_fails _ _ body 0 bad); [lia| |assumption].
  intros i Hi. destruct (Z.ltb_spec i (Game.h g)); [reflexivity|lia].
Qed.

Lemma array_get_outside (l : list Z) :
  array_get l (Z.of_nat (length l)) = None.
Proof. rewrite array_get_nat. apply lookup_ge_None. lia. Qed.

(** X29: draw_tunnel reads outside the arrays of a tunnel that has fewer
    rows than the game. *)
Theorem draw_tunnel_short_arrays (g : Game.game) (t : Tunnel.tunnel) :
  Z.of_nat (length (Tunnel.left t)) < Game.h g \/
  Z.of_nat (length (Tunnel.right t)) < Game.h g ->
  Tunnel.draw_tunnel g t = None.
Proof.
  intros [Hl|Hr]; unfold Tunnel.draw_tunnel; cbv zeta.
  - rewrite (rows_loop_fails g (Tunnel.left_border g t)
              (Z.of_nat (length (Tunnel.left t))));
      [reflexivity|lia|].
    unfold Tunnel.left_border. now rewrite array_get_outside.
  - destruct (Tunnel.for_loop _ _ (Tunnel.left_border g t) 0); [|reflexivity].
    cbn [mbind option_bind].
    rewrite (rows_loop_fails g (Tunnel.right_border g t)
              (Z.of_nat (length (Tunnel.right t))));
      [reflexivity|lia|].
    unfold Tunnel.right_border. now rewrite array_get_outside.
Qed.

(** X30: draw_tunnel draws, at each row of the game, one of the four wall
    characters just right of a left wall that is right of column -10,
    and just left of a right wall that is left of column g->w + 10. *)
Theorem draw_tunnel_walls (g : Game.game) (t : Tunnel.tunnel) :
  Tunnel.rows_ok g t ->
  exists tr,
    Tunnel.draw_tunnel g t = Some tr /\
    forall y a b, 0 <= y < Game.h g ->
      array_get (Tunnel.left t) y = Some a ->
      array_get (Tunnel.right t) y = Some b ->
      (-10 < a -> exists ch,
         In (Tunnel.caca_putchar (a + 1) y ch) tr /\
         (ch = ">" \/ ch = "/" \/ ch = "\" \/ ch = "<")%char) /\
      (b < Game.w g + 10 -> exists ch,
         In (Tunnel.caca_putchar (b - 1) y ch) tr /\
         (ch = ">" \/ ch = "/" \/ ch = "\" \/ ch = "<")%char).
Proof.
  intros Hok.
  destruct (draw_tunnel_rows g t Hok) as (lb & rb & lc & rc & -> & Hlb & Hrb & _).
  eexists. split; [reflexivity|]. intros y a b Hy Ha Hb. split; intros Hwall.
  - destruct (left_border_wall g t y a Hok Hy Ha Hwall)
      as (out & ch & Hout & Hin & Hch).
    exists ch. split; [|assumption].
    right. apply in_app_iff. left. apply Hlb. eauto.
  - destruct (right_border_wall g t y b Hok Hy Hb Hwall)
      as (out & ch & Hout & Hin & Hch).
    exists ch. split; [|assumption].
    right. apply in_app_iff. right. apply in_app_iff. left. apply Hrb. eauto.
Qed.

(** ** create_tunnel and draw_tunnel on concrete tunnels *)

Section Concrete_tunnel.

(** X22 with a tunnel 90 wide. *)
Lemma create_tunnel_open_witness :
  exists t,
    Tunnel.create_tunnel Tunnel.game80 90 4
      (Some (Tunnel.fresh_rows, Tunnel.fresh_rows)) Tunnel.draws
    = Some (Tunnel.Return t) /\
    Tunnel.left t !! 3%nat = Some (-10) /\ Tunnel.right t !! 3%nat = Some 90.
Proof.
  destruct (create_tunnel_open Tunnel.game80 90 4
              Tunnel.fresh_rows Tunnel.fresh_rows Tunnel.draws)
    as [_ (t & Hc & _ & _ & _ & _ & Hk)];
    [cbn; lia|cbn; lia|lia|cbn; lia|reflexivity|reflexivity|].
  exists t. split; [exact Hc|]. apply (Hk 3%nat). cbn. lia.
Defined.

(** X23 with arrays of two rows. *)
Lemma create_tunnel_short_arrays_witness :
  Tunnel.create_tunnel Tunnel.game80 90 2
    (Some (Tunnel.short_rows, Tunnel.short_rows)) Tunnel.draws = None.
Proof. apply create_tunnel_short_arrays; cbn; lia. Defined.

(** X24 with a tunnel 20 wide. *)
Lemma create_tunnel_on_screen_witness :
  exists t a b,
    Tunnel.create_tunnel Tunnel.game80 20 4
      (Some (Tunnel.fresh_rows, Tunnel.fresh_rows)) Tunnel.draws
    = Some (Tunnel.Return t) /\
    Tunnel.left t !! 3%nat = Some a /\ Tunnel.right t !! 3%nat = Some b /\
    0 <= a /\ b <= 79.
Proof.
  destruct (create_tunnel_on_screen Tunnel.game80 20 4
              Tunnel.fresh_rows Tunnel.fresh_rows Tunnel.draws)
    as (t & Hc & _ & _ & Hk);
    [cbn; lia|cbn; lia|cbn; lia|lia|reflexivity|reflexivity
    |intros k; cbn; lia|].
  destruct (Hk 3%nat) as (a & b & Ha & Hb & Ha0 & Hb0 & _); [lia|cbn; lia|].
  exists t, a, b. cbn in Hb0. auto.
Defined.

Lemma tunnel4_rows :
  forall i, 0 <= i < 4 ->
    exists a b,
      array_get (Tunnel.left Tunnel.tunnel4) i = Some a /\
      array_get (Tunnel.right Tunnel.tunnel4) i = Some b /\
      30 <= a <= 32 /\ 50 <= b <= 52.
Proof.
  intros i Hi.
  assert (i = 0 \/ i = 1 \/ i = 2 \/ i = 3) as [-> | [-> | [-> | ->]]] by lia;
    eexists _, _; (split; [reflexivity|]); (split; [reflexivity|]); lia.
Qed.

Lemma tunnel4_rows_ok : Tunnel.rows_ok Tunnel.game80 Tunnel.tunnel4.
Proof.
  split; [cbn; lia|]. split; [cbn; lia|]. intros i Hi.
  destruct (tunnel4_rows i Hi) as (a & b & Ha & Hb & Hra & Hrb).
  exists a, b. repeat split; (assumption || lia).
Qed.

Lemma tunnel_open_rows :
  forall i, 0 <= i < 3 ->
    array_get (Tunnel.left Tunnel.tunnel_open) i = Some (-10) /\
    array_get (Tunnel.right Tunnel.tunnel_open) i = Some 90.
Proof.
  intros i Hi.
  assert (i = 0 \/ i = 1 \/ i = 2) as [-> | [-> | ->]] by lia;
    split; reflexivity.
Qed.

Lemma tunnel_open_rows_ok : Tunnel.rows_ok Tunnel.game3 Tunnel.tunnel_open.
Proof.
  split; [cbn; lia|]. split; [cbn; lia|]. intros i Hi.
  destruct (tunnel_open_rows i Hi) as [Ha Hb].
  exists (-10), 90. repeat split; (assumption || lia).
Qed.

(** X25 on the open tunnel. *)
Lemma draw_tunnel_open_witness :
  Tunnel.draw_tunnel Tunnel.game3 Tunnel.tunnel_open
  = Some [Tunnel.caca_set_color Tunnel.EE_GREEN;
          Tunnel.caca_set_color Tunnel.EE_RED].
Proof.
  apply draw_tunnel_open; [exact tunnel_open_rows_ok|].
  intros i a b Hi Ha Hb. destruct (tunnel_open_rows i Hi) as [Ha' Hb'].
  rewrite Ha in Ha'. rewrite Hb in Hb'.
  injection Ha' as ->. injection Hb' as ->. cbn. lia.
Defined.

(** X26 with a tunnel 90 wide. *)
Lemma create_then_draw_open_witness :
  exists t,
    Tunnel.create_tunnel Tunnel.game80 90 4
      (Some (Tunnel.fresh_rows, Tunnel.fresh_rows)) Tunnel.draws
    = Some (Tunnel.Return t) /\
    Tunnel.draw_tunnel Tunnel.game80 t
    = Some [Tunnel.caca_set_color Tunnel.EE_GREEN;
            Tunnel.caca_set_color Tunnel.EE_RED].
Proof.
  apply create_then_draw_open;
    [cbn; lia|cbn; lia|lia|cbn; lia|reflexivity|reflexivity].
Defined.

(** X27 on the four-row tunnel, whose top row has its walls at columns 30
    and 50. *)
Lemma draw_tunnel_concrete_witness :
  exists tr,
    Tunnel.draw_tunnel Tunnel.game80 Tunnel.tunnel4 = Some tr /\
    In (Tunnel.caca_putchar 30 0 "#") tr /\
    ~ In (Tunnel.caca_putchar 31 0 "#") tr.
Proof.
  destruct (draw_tunnel_concrete Tunnel.game80 Tunnel.tunnel4 tunnel4_rows_ok)
    as (tr & Htr & Hin).
  exists tr. split; [exact Htr|]. split.
  - apply Hin. exists 30, 50. cbn. repeat split; lia.
  - intros Hc. apply Hin in Hc as (a & b & _ & [= <-] & [= <-] & Hx). lia.
Defined.

(** X28 on the four-row tunnel. *)
Lemma draw_tunnel_on_screen_witness :
  exists tr,
    Tunnel.draw_tunnel Tunnel.game80 Tunnel.tunnel4 = Some tr /\
    forall x y c, In (Tunnel.caca_putchar x y c) tr ->
      0 <= y < 4 /\ -1 <= x <= 80.
Proof.
  apply draw_tunnel_on_screen; [exact tunnel4_rows_ok|].
  intros i a b Hi Ha Hb.
  destruct (tunnel4_rows i Hi) as (a' & b' & Ha' & Hb' & Hra & Hrb).
  rewrite Ha in Ha'. rewrite Hb in Hb'.
  injection Ha' as <-. injection Hb' as <-. cbn. lia.
Defined.

(** X29 on the one-row tunnel. *)
Lemma draw_tunnel_short_arrays_witness :
  Tunnel.draw_tunnel Tunnel.game80 Tunnel.tunnel1 = None.
Proof. apply draw_tunnel_short_arrays. left. cbn. lia. Defined.

(** X30 on the four-row tunnel. *)
Lemma draw_tunnel_walls_witness :
  exists tr ch1 ch2,
    Tunnel.draw_tunnel Tunnel.game80 Tunnel.tunnel4 = Some tr /\
    In (Tunnel.caca_putchar 31 0 ch1) tr /\
    In (Tunnel.caca_putchar 49 0 ch2) tr.
Proof.
  destruct (draw_tunnel_walls Tunnel.game80 Tunnel.tunnel4 tunnel4_rows_ok)
    as (tr & Htr & Hwalls).
  destruct (Hwalls 0 30 50) as [Hl Hr]; [cbn; lia|reflexivity|reflexivity|].
  destruct Hl as (ch1 & Hin1 & _); [lia|].
  destruct Hr as (ch2 & Hin2 & _); [cbn; lia|].
  exists tr, ch1, ch2. auto.
Defined.

End Concrete_tunnel.
